(** * nonebot-plugin-recall: the recall pipeline and its whitelist configuration

    A shallow embedding of [nonebot_plugin_recall/__init__.py] and
    [nonebot_plugin_recall/config.py].

    Python [str] values are [string]s holding UTF-8 text, Python [int]s are
    [Z], the insertion-ordered [dict] used as message cache is an association
    list in insertion order, and the [set[int]] of the whitelist is a
    [gset Z]. The handlers are functions in a state-and-exception monad over
    the module's cache and the list of the calls of [send_group_msg] made; the
    bot is a record of the answers its API gives, each of which may be the
    failure [ActionFailed]. A handler runs from start to end before the next
    one starts. *)

From Stdlib Require Import ZArith String Ascii List Lia.
From Stdlib Require Import DecimalString DecimalFacts DecimalPos.
From stdpp Require Import base option list strings gmap.
Import ListNotations.

Local Open Scope Z_scope.

Set Warnings "-register-all".

(** ** Text: the [str] methods the plugin calls *)

Module Text.

Definition code (c : ascii) : Z := Z.of_N (N_of_ascii c).

Definition chars (s : string) : list ascii := list_ascii_of_string s.
Definition text (l : list ascii) : string := string_of_list_ascii l.

Definition is_empty (s : string) : bool :=
  match s with EmptyString => true | String _ _ => false end.

(** The one-byte characters for which [str.isspace()] holds:
    U+0009..U+000D, U+001C..U+001F and the space. *)
Definition space1 (c : ascii) : bool :=
  let n := code c in
  ((9 <=? n) && (n <=? 13)) || ((28 <=? n) && (n <=? 31)) || (n =? 32).

(** The one-byte characters [int()] skips around a number:
    U+0009..U+000D and the space. *)
Definition int_space1 (c : ascii) : bool :=
  let n := code c in ((9 <=? n) && (n <=? 13)) || (n =? 32).

(** U+0085 and U+00A0, in UTF-8. *)
Definition space2 (c1 c2 : ascii) : bool :=
  (code c1 =? 194) && ((code c2 =? 133) || (code c2 =? 160)).

(** U+1680, U+2000..U+200A, U+2028, U+2029, U+202F, U+205F and U+3000,
    in UTF-8. *)
Definition space3 (c1 c2 c3 : ascii) : bool :=
  let '(a, b, c) := (code c1, code c2, code c3) in
  ((a =? 225) && (b =? 154) && (c =? 128))
  || ((a =? 226) && (b =? 128)
      && (((128 <=? c) && (c <=? 138)) || (c =? 168) || (c =? 169) || (c =? 175)))
  || ((a =? 226) && (b =? 129) && (c =? 159))
  || ((a =? 227) && (b =? 128) && (c =? 128)).

Section Strip.
(** [sp1] tells the one-byte blanks; [fwd] tells whether the bytes are
    read front to back (a reversed text shows the bytes of a character
    last one first). *)
Variable sp1 : ascii -> bool.
Variable fwd : bool.

Definition sp2 (c1 c2 : ascii) : bool :=
  if fwd then space2 c1 c2 else space2 c2 c1.
Definition sp3 (c1 c2 c3 : ascii) : bool :=
  if fwd then space3 c1 c2 c3 else space3 c3 c2 c1.

Fixpoint drop_blank (l : list ascii) : list ascii :=
  match l with
  | [] => []
  | c1 :: r1 =>
      if sp1 c1 then drop_blank r1
      else match r1 with
           | [] => l
           | c2 :: r2 =>
               if sp2 c1 c2 then drop_blank r2
               else match r2 with
                    | [] => l
                    | c3 :: r3 => if sp3 c1 c2 c3 then drop_blank r3 else l
                    end
           end
  end.
End Strip.

Definition strip_with (sp1 : ascii -> bool) (l : list ascii) : list ascii :=
  rev (drop_blank sp1 false (rev (drop_blank sp1 true l))).

(** [s.strip()] *)
Definition strip (s : string) : string := text (strip_with space1 (chars s)).

(** [str(n)] for an [int] *)
Definition of_Z (n : Z) : string := NilZero.string_of_int (Z.to_int n).

(** The code points of the characters that are a digit zero: the decimal
    digits (category Nd) of Unicode 14.0, the table of CPython 3.11. The nine
    code points after each are its digits one to nine. *)
Definition decimal_zeros : list Z :=
  [48; 1632; 1776; 1984; 2406; 2534; 2662; 2790; 2918; 3046; 3174; 3302; 3430;
   3558; 3664; 3792; 3872; 4160; 4240; 6112; 6160; 6470; 6608; 6784; 6800; 6992;
   7088; 7232; 7248; 42528; 43216; 43264; 43472; 43504; 43600; 44016; 65296;
   66720; 68912; 69734; 69872; 69942; 70096; 70384; 70736; 70864; 71248; 71360;
   71472; 71904; 72016; 72784; 73040; 73120; 92768; 92864; 93008; 120782; 120792;
   120802; 120812; 120822; 123200; 123632; 125264; 130032].

(** The value of a character as a decimal digit, as [int()] and
    [unicodedata.decimal] have it. *)
Definition decimal (cp : Z) : option Z :=
  match List.find (fun zero => (zero <=? cp) && (cp <=? zero + 9)) decimal_zeros with
  | Some zero => Some (cp - zero)
  | None => None
  end.

(** The code point of a character of two, three and four bytes. *)
Definition code2 (c1 c2 : ascii) : Z := (code c1 - 192) * 64 + (code c2 - 128).
Definition code3 (c1 c2 c3 : ascii) : Z :=
  (code c1 - 224) * 4096 + (code c2 - 128) * 64 + (code c3 - 128).
Definition code4 (c1 c2 c3 c4 : ascii) : Z :=
  (code c1 - 240) * 262144 + (code c2 - 128) * 4096 + (code c3 - 128) * 64
  + (code c4 - 128).

(** A character that is not ASCII, as [int()] reads it: a blank is a
    space and a digit its ASCII digit; at any other character the text ends
    with a question mark. *)
Definition ascii_of_wide (blank : bool) (cp : Z) (rest : list ascii) : list ascii :=
  if blank then " "%char :: rest
  else match decimal cp with
       | Some d => ascii_of_N (Z.to_N (48 + d)) :: rest
       | None => ["?"%char]
       end.

(** What [int()] does to a [str] before it reads the number: the digits
    of every script become ASCII digits. *)
Fixpoint to_ascii_decimal (l : list ascii) : list ascii :=
  match l with
  | [] => []
  | c1 :: r1 =>
      if code c1 <? 127 then c1 :: to_ascii_decimal r1
      else if code c1 <? 194 then ["?"%char]
      else
        match r1 with
        | [] => ["?"%char]
        | c2 :: r2 =>
            if code c1 <? 224
            then ascii_of_wide (space2 c1 c2) (code2 c1 c2) (to_ascii_decimal r2)
            else
              match r2 with
              | [] => ["?"%char]
              | c3 :: r3 =>
                  if code c1 <? 240
                  then ascii_of_wide (space3 c1 c2 c3) (code3 c1 c2 c3)
                         (to_ascii_decimal r3)
                  else
                    match r3 with
                    | [] => ["?"%char]
                    | c4 :: r4 =>
                        ascii_of_wide false (code4 c1 c2 c3 c4) (to_ascii_decimal r4)
                    end
              end
        end
  end.

(** An ASCII digit: the digits [int()] reads once [to_ascii_decimal] has
    run, and the only digits of a JSON number. *)
Definition ascii_digit (c : ascii) : option Z :=
  let n := code c in if (48 <=? n) && (n <=? 57) then Some (n - 48) else None.

(** The digits of a decimal literal after the first one; a single
    underscore may stand between two digits. *)
Fixpoint more_digits (acc : Z) (l : list ascii) : option Z :=
  match l with
  | [] => Some acc
  | c :: r =>
      match ascii_digit c with
      | Some d => more_digits (10 * acc + d) r
      | None =>
          if (code c =? 95)
          then match r with
               | [] => None
               | c' :: r' =>
                   match ascii_digit c' with
                   | Some d => more_digits (10 * acc + d) r'
                   | None => None
                   end
               end
          else None
      end
  end.

Definition digits (l : list ascii) : option Z :=
  match l with
  | [] => None
  | c :: r => match ascii_digit c with
              | Some d => more_digits d r
              | None => None
              end
  end.

(** [int(s)] for a [str]: blanks around, an optional sign, decimal digits
    of any script. [None] stands for the [ValueError]. *)
Definition to_Z (s : string) : option Z :=
  match strip_with int_space1 (to_ascii_decimal (chars s)) with
  | c :: r =>
      if code c =? 45 then Z.opp <$> digits r
      else if code c =? 43 then digits r
      else digits (c :: r)
  | [] => None
  end.

End Text.

(** ** Values: what the plugin's dynamically typed data can be *)

Inductive exn := ActionFailed | ValueError | TypeError | OverflowError.

Inductive result (A : Type) :=
| Ok (a : A)
| Raise (e : exn).
Arguments Ok {A} a.
Arguments Raise {A} e.

(** A [float]: [Finite m e] is the number [m * 2^e]. *)
Inductive pyfloat :=
| Finite (m e : Z)
| Infinite (negative : bool)
| NaN.

(** [None], [bool], [int], [float], [str], the sequences ([list], [tuple],
    [set], by their items in iteration order) and [dict] with [str] keys. *)
Inductive pyval :=
| PyNone
| PyBool (b : bool)
| PyInt (n : Z)
| PyFloat (f : pyfloat)
| PyStr (s : string)
| PyList (items : list pyval)
| PyDict (entries : list (string * pyval)).

Module Py.

(** [d.get(key)]: [None] of [option] when the key is absent. *)
Fixpoint get {V : Type} (d : list (string * V)) (key : string) : option V :=
  match d with
  | [] => None
  | (k, v) :: rest => if String.eqb k key then Some v else get rest key
  end.

(** [d.get(key, default)] *)
Definition get_default {V : Type} (d : list (string * V)) (key : string) (default : V) : V :=
  match get d key with Some v => v | None => default end.

(** [d.get(key)] as a Python value: an absent key reads as [None]. *)
Definition get_or_none (d : list (string * pyval)) (key : string) : pyval :=
  get_default d key PyNone.

(** [d[key] = v]: an existing key keeps its place, a new one goes last. *)
Fixpoint set {K V : Type} (eqb : K -> K -> bool) (d : list (K * V)) (key : K) (v : V)
  : list (K * V) :=
  match d with
  | [] => [(key, v)]
  | (k, w) :: rest =>
      if eqb k key then (k, v) :: rest else (k, w) :: set eqb rest key v
  end.

(** [bool(v)] *)
Definition truthy (v : pyval) : bool :=
  match v with
  | PyNone => false
  | PyBool b => b
  | PyInt n => negb (n =? 0)
  | PyFloat (Finite m _) => negb (m =? 0)
  | PyFloat _ => true
  | PyStr s => negb (Text.is_empty s)
  | PyList items => match items with [] => false | _ => true end
  | PyDict entries => match entries with [] => false | _ => true end
  end.

(** [a or b] *)
Definition or (a b : pyval) : pyval := if truthy a then a else b.

(** [int(f)] for a [float]: the fraction is cut off. *)
Definition int_of_float (f : pyfloat) : result Z :=
  match f with
  | Finite m e => Ok (if 0 <=? e then m * 2 ^ e else Z.quot m (2 ^ (- e)))
  | Infinite _ => Raise OverflowError
  | NaN => Raise ValueError
  end.

(** [int(v)] *)
Definition int (v : pyval) : result Z :=
  match v with
  | PyNone => Raise TypeError
  | PyBool b => Ok (if b then 1 else 0)
  | PyInt n => Ok n
  | PyFloat f => int_of_float f
  | PyStr s => match Text.to_Z s with Some n => Ok n | None => Raise ValueError end
  | PyList _ => Raise TypeError
  | PyDict _ => Raise TypeError
  end.

Section Str.
(** What [repr()] prints for a float, a sequence or a dict is left open:
    every statement below holds for any such text. *)
Variable repr : pyval -> string.

(** [str(v)], also what an f-string puts for [{v}]. *)
Definition str (v : pyval) : string :=
  match v with
  | PyNone => "None"
  | PyBool true => "True"
  | PyBool false => "False"
  | PyInt n => Text.of_Z n
  | PyStr s => s
  | PyFloat _ | PyList _ | PyDict _ => repr v
  end.
End Str.

End Py.

(** ** Messages, events and the bot *)

(** [MessageSegment]: a kind and its payload. *)
Record MessageSegment := {
  type : string;
  data : list (string * pyval);
}.

(** [Message]: a list of segments; [append] of a segment adds it at the end. *)
Definition Message := list MessageSegment.

(** [MessageSegment.text(text)] *)
Definition MessageSegment_text (text : string) : MessageSegment :=
  {| type := "text"; data := [("text", PyStr text)] |}.

Module GroupMessageEvent.
Record t := {
  group_id : Z;
  message_id : Z;
  get_message : Message;
}.
End GroupMessageEvent.

Module GroupRecallNoticeEvent.
Record t := {
  group_id : Z;
  user_id : Z;
  operator_id : Z;
  message_id : Z;
}.
End GroupRecallNoticeEvent.

(** The [message] argument of [send_group_msg]: a [str] or a [Message]. *)
Inductive outbound :=
| Plain (text : string)
| Segments (message : Message).

(** A value in the answer of [get_msg]: a [Message] object or plain data. *)
Inductive fetched :=
| IsMessage (message : Message)
| Raw (value : pyval).

(** What an API call of the bot does: it returns its data, or it raises
    [ActionFailed], the failure the adapter reports for a refused action. *)
Inductive api_result (A : Type) :=
| Returned (a : A)
| Failed.
Arguments Returned {A} a.
Arguments Failed {A}.

(** The bot, by what its API answers. The answer to [send_group_msg] may
    depend on the calls of [send_group_msg] made before, given oldest first. *)
Record Bot := {
  get_group_member_info : Z -> Z -> api_result (list (string * pyval));
  get_msg : Z -> api_result (list (string * fetched));
  send_group_msg : list (Z * outbound) -> Z -> outbound -> api_result unit;
}.

Record Config := {
  recall_group_whitelist : gset Z;
}.

(** ** The handlers' effects *)

Definition cache_key : Type := Z * Z.

Definition key_eqb (a b : cache_key) : bool :=
  (fst a =? fst b) && (snd a =? snd b).

(** The module state: [_message_cache], in insertion order, and the calls
    of [send_group_msg] made so far, oldest first. *)
Record State := {
  _message_cache : list (cache_key * Message);
  sent : list (Z * outbound);
}.

Definition M (A : Type) : Type := State -> result A * State.

#[export] Instance M_ret : MRet M := fun A a s => (Ok a, s).

#[export] Instance M_bind : MBind M := fun A B k m s =>
  match m s with
  | (Ok a, s') => k a s'
  | (Raise e, s') => (Raise e, s')
  end.

Definition raise {A} (e : exn) : M A := fun s => (Raise e, s).

(** [await bot.api(...)] *)
Definition await {A} (r : api_result A) : M A :=
  match r with
  | Returned a => mret a
  | Failed => raise ActionFailed
  end.

(** [try: x = body / except <caught>: return <handler> / <rest of the function>] *)
Definition try_except {A B} (body : M A) (caught : exn -> bool) (handler : M B)
    (rest : A -> M B) : M B :=
  fun s => match body s with
           | (Ok a, s') => rest a s'
           | (Raise e, s') => if caught e then handler s' else (Raise e, s')
           end.

Definition is_ActionFailed (e : exn) : bool :=
  match e with ActionFailed => true | _ => false end.

(** [for x in l: body] *)
Fixpoint for_each {A} (l : list A) (body : A -> M unit) : M unit :=
  match l with
  | [] => mret tt
  | x :: rest => body x;; for_each rest body
  end.

(** [await bot.send_group_msg(group_id=..., message=...)]: the call is
    recorded, and it returns or raises as the bot answers it. The plugin
    neither reads the answer nor catches the failure. *)
Definition await_send_group_msg (bot : Bot) (group_id : Z) (message : outbound) : M unit :=
  fun s => await (send_group_msg bot (sent s) group_id message)
             {| _message_cache := _message_cache s;
                sent := sent s ++ [(group_id, message)] |}.

(** [d.pop(key, None)] on an association list. *)
Fixpoint pop {V : Type} (d : list (cache_key * V)) (key : cache_key)
  : option V * list (cache_key * V) :=
  match d with
  | [] => (None, [])
  | (k, v) :: rest =>
      if key_eqb k key then (Some v, rest)
      else let '(found, rest') := pop rest key in (found, (k, v) :: rest')
  end.

(** [_message_cache.pop(key, None)] *)
Definition cache_pop (key : cache_key) : M (option Message) :=
  fun s => let '(found, cache') := pop (_message_cache s) key in
           (Ok found, {| _message_cache := cache'; sent := sent s |}).

(** [_message_cache[key] = message] *)
Definition cache_set (key : cache_key) (message : Message) : M unit :=
  fun s => (Ok tt, {| _message_cache := Py.set key_eqb (_message_cache s) key message;
                      sent := sent s |}).

(** [len(_message_cache)] *)
Definition cache_len : M Z :=
  fun s => (Ok (Z.of_nat (length (_message_cache s))), s).

(** [next(iter(_message_cache))]: the first key in insertion order; not
    called on an empty cache. *)
Definition cache_first : M (option cache_key) :=
  fun s => (Ok (fst <$> head (_message_cache s)), s).

(** ** nonebot_plugin_recall/__init__.py *)

Definition _cache_max_size : Z := 5000.

Section Plugin.

(** [repr()] of floats, sequences and dicts; see [Py.str]. *)
Variable repr : pyval -> string.

(** [plugin_config], read once when the module is loaded. *)
Variable plugin_config : Config.

(** The adapter's [Message(...)] on a value that is not a [Message]; it
    may raise. *)
Variable Message_of : pyval -> result Message.

Definition _in_whitelist (group_id : Z) : bool :=
  bool_decide (group_id ∈ recall_group_whitelist plugin_config).

Definition _is_unsupported_face (segment : MessageSegment) : bool :=
  if negb (String.eqb (type segment) "face") then false
  else
    match Py.get_or_none (data segment) "raw" with
    | PyDict raw =>
        let face_type := Py.get_or_none raw "faceType" in
        match Py.int face_type with
        | Ok n => n =? 3
        | Raise _ => false
        end
    | _ => false
    end.

Definition _unsupported_face_placeholder (segment : MessageSegment) : string :=
  let raw := Py.get_or_none (data segment) "raw" in
  let face_text :=
    match raw with
    | PyDict raw => Text.strip (Py.str repr (Py.get_default raw "faceText" (PyStr "")))
    | _ => ""
    end in
  if negb (Text.is_empty face_text) then "[表情:" +:+ face_text +:+ "]"
  else
    match Py.get_or_none (data segment) "id" with
    | PyNone => "[表情]"
    | face_id => "[表情:" +:+ Py.str repr face_id +:+ "]"
    end.

(** One turn of the loop of [_build_non_voice_message]. *)
Definition build_step (content : Message) (segment : MessageSegment) : Message :=
  let segment_type := type segment in
  if existsb (String.eqb segment_type) ["at"; "reply"; "record"] then content
  else if String.eqb segment_type "text" then
    let text := Py.str repr (Py.get_default (data segment) "text" (PyStr "")) in
    if negb (Text.is_empty text) then content ++ [MessageSegment_text text]
    else content
  else if String.eqb segment_type "image" then content ++ [segment]
  else if String.eqb segment_type "face" then
    if _is_unsupported_face segment
    then content ++ [MessageSegment_text (_unsupported_face_placeholder segment)]
    else content ++ [segment]
  else if String.eqb segment_type "video" then content ++ [MessageSegment_text "[视频]"]
  else if String.eqb segment_type "file" then content ++ [MessageSegment_text "[文件]"]
  else content ++ [MessageSegment_text ("[" +:+ segment_type +:+ "]")].

Definition _build_non_voice_message (message : Message) : Message :=
  fold_left build_step message [].

(** What one segment adds to the content: the loop body run on an empty
    [content]. *)
Definition rendered (segment : MessageSegment) : Message := build_step [] segment.

Definition _get_member_name (bot : Bot) (group_id user_id : Z) : M string :=
  try_except
    (await (get_group_member_info bot group_id user_id))
    is_ActionFailed
    (mret (Py.str repr (PyInt user_id)))
    (fun member =>
       let card :=
         Text.strip (Py.str repr (Py.or (Py.get_or_none member "card") (PyStr ""))) in
       let nickname :=
         Text.strip (Py.str repr (Py.or (Py.get_or_none member "nickname") (PyStr ""))) in
       mret (if negb (Text.is_empty card) then card
             else if negb (Text.is_empty nickname) then nickname
             else Py.str repr (PyInt user_id))).

(** The warning written to the log when the answer cannot be read is left
    out. *)
Definition _get_recalled_message (bot : Bot) (message_id : Z) : M (option Message) :=
  try_except
    (await (get_msg bot message_id))
    is_ActionFailed
    (mret None)
    (fun data =>
       let raw_message := Py.get_default data "message" (Raw (PyStr "")) in
       match raw_message with
       | IsMessage message => mret (Some message)
       | Raw value =>
           match Message_of value with
           | Ok message => mret (Some message)
           | Raise _ => mret None
           end
       end).

(** The handler of [cache_group_message]. *)
Definition cache_group_message (event : GroupMessageEvent.t) : M unit :=
  if negb (_in_whitelist (GroupMessageEvent.group_id event)) then mret tt
  else
    let key := (GroupMessageEvent.group_id event, GroupMessageEvent.message_id event) in
    cache_set key (GroupMessageEvent.get_message event);;
    size ← cache_len;
    if _cache_max_size <? size then
      oldest ← cache_first;
      match oldest with
      | Some oldest => cache_pop oldest;; mret tt
      | None => mret tt
      end
    else mret tt.

(** The handler of [group_recall]. *)
Definition group_recall (bot : Bot) (event : GroupRecallNoticeEvent.t) : M unit :=
  let group_id := GroupRecallNoticeEvent.group_id event in
  let user_id := GroupRecallNoticeEvent.user_id event in
  let message_id := GroupRecallNoticeEvent.message_id event in
  if negb (_in_whitelist group_id) then mret tt
  else if negb (user_id =? GroupRecallNoticeEvent.operator_id event) then mret tt
  else
    name ← _get_member_name bot group_id user_id;
    let cache_key := (group_id, message_id) in
    recalled ← cache_pop cache_key;
    recalled ← match recalled with
                | None => _get_recalled_message bot message_id
                | Some message => mret (Some message)
                end;
    match recalled with
    | None =>
        await_send_group_msg bot group_id (Plain (name +:+ "撤回了一条消息：[内容未捕获]"))
    | Some recalled =>
        let voice_segments :=
          List.filter (fun segment => String.eqb (type segment) "record") recalled in
        match voice_segments with
        | _ :: _ =>
            await_send_group_msg bot group_id (Plain (name +:+ "撤回了一条语音"));;
            for_each voice_segments
              (fun segment => await_send_group_msg bot group_id (Segments [segment]))
        | [] =>
            let content := _build_non_voice_message recalled in
            match content with
            | [] =>
                await_send_group_msg bot group_id (Plain (name +:+ "撤回了一条消息：[空消息]"))
            | _ :: _ =>
                match Message_of (PyStr (name +:+ "撤回了一条消息：")) with
                | Ok out => await_send_group_msg bot group_id (Segments (out ++ content))
                | Raise e => raise e
                end
            end
        end
    end.

End Plugin.

(** ** [json.loads], as the C scanner of CPython reads a [str]

    Not covered: the interpreter's recursion limit and its limit on the
    number of digits of an [int] literal. *)

Module Json.

Inductive scanned (A : Type) :=
| Scanned (a : A) (rest : list ascii)
| Invalid
| Exhausted.
Arguments Scanned {A} a rest.
Arguments Invalid {A}.
Arguments Exhausted {A}.

Definition byte_is (c : ascii) (n : Z) : bool := Text.code c =? n.

(** The JSON blanks: space, tab, line feed, carriage return. *)
Definition blank (c : ascii) : bool := byte_is c 32 || byte_is c 9 || byte_is c 10 || byte_is c 13.

Fixpoint skip_ws (l : list ascii) : list ascii :=
  match l with
  | c :: r => if blank c then skip_ws r else l
  | [] => []
  end.

(** [l] without the leading [word], when it starts with it. *)
Fixpoint after (word l : list ascii) : option (list ascii) :=
  match word, l with
  | [], _ => Some l
  | w :: word', c :: r => if Ascii.eqb w c then after word' r else None
  | _ :: _, [] => None
  end.

(** *** Numbers *)

(** The longest run of digits at the front: its value, how many digits
    it has, and what follows. *)
Fixpoint digit_run (acc : Z) (count : Z) (l : list ascii) : Z * Z * list ascii :=
  match l with
  | c :: r => match Text.ascii_digit c with
              | Some d => digit_run (10 * acc + d) (count + 1) r
              | None => (acc, count, l)
              end
  | [] => (acc, count, [])
  end.

(** The double nearest to [p / q] for [0 < p] and [0 < q], ties to the
    even mantissa. *)
Definition nearest_double (negative : bool) (p q : Z) : pyfloat :=
  let t := Z.log2 p - Z.log2 q in
  let above := if 0 <=? t then q * 2 ^ t <=? p else q <=? p * 2 ^ (- t) in
  let lg := if above then t else t - 1 in
  let e := Z.max (lg - 52) (-1074) in
  let a := if 0 <=? e then p else p * 2 ^ (- e) in
  let b := if 0 <=? e then q * 2 ^ e else q in
  let m := a / b in
  let r := a mod b in
  let m := if (b <? 2 * r) || ((b =? 2 * r) && Z.odd m) then m + 1 else m in
  if 2 ^ 1024 <=? m * 2 ^ e then Infinite negative
  else Finite (if negative then - m else m) e.

(** [float(text)] for the literal with digits [n] and decimal exponent [k]. *)
Definition float_literal (negative : bool) (n k : Z) : pyfloat :=
  if n =? 0 then Finite 0 0
  else if 0 <=? k then nearest_double negative (n * 10 ^ k) 1
  else nearest_double negative n (10 ^ (- k)).

(** The integer part: a single [0], or a digit [1-9] and all digits after it. *)
Definition int_part (l : list ascii) : option (Z * list ascii) :=
  match l with
  | c :: r =>
      match Text.ascii_digit c with
      | Some 0 => Some (0, r)
      | Some d => let '(n, _, r') := digit_run d 1 r in Some (n, r')
      | None => None
      end
  | [] => None
  end.

(** [.digits], when a digit follows the point. *)
Definition frac_part (n : Z) (l : list ascii) : option (Z * Z * list ascii) :=
  match l with
  | p :: d :: r =>
      if byte_is p 46 && bool_decide (is_Some (Text.ascii_digit d))
      then Some (digit_run n 0 (d :: r)) else None
  | _ => None
  end.

(** [e], an optional sign, and digits, when there is a digit. *)
Definition exp_part (l : list ascii) : option (Z * list ascii) :=
  match l with
  | e :: r =>
      if byte_is e 101 || byte_is e 69 then
        let '(negative, r) :=
          match r with
          | sg :: (_ :: _) as r' =>
              if byte_is sg 45 then (true, r') else if byte_is sg 43 then (false, r') else (false, r)
          | _ => (false, r)
          end in
        let '(x, count, r') := digit_run 0 0 r in
        if 0 <? count then Some (if negative then - x else x, r') else None
      else None
  | [] => None
  end.

Definition scan_number (l : list ascii) : scanned pyval :=
  let '(negative, l1) :=
    match l with
    | c :: r => if byte_is c 45 then (true, r) else (false, l)
    | [] => (false, l)
    end in
  match int_part l1 with
  | None => Invalid
  | Some (n, l2) =>
      let '(frac, n', digits, l3) :=
        match frac_part n l2 with
        | Some (n', digits, l3) => (true, n', digits, l3)
        | None => (false, n, 0, l2)
        end in
      let '(expo, x, l4) :=
        match exp_part l3 with
        | Some (x, l4) => (true, x, l4)
        | None => (false, 0, l3)
        end in
      if frac || expo
      then Scanned (PyFloat (float_literal negative n' (x - digits))) l4
      else Scanned (PyInt (if negative then - n else n)) l4
  end.

(** *** Strings *)

Definition byte (n : Z) : ascii := ascii_of_N (Z.to_N n).

(** The UTF-8 bytes of a code point. *)
Definition utf8 (cp : Z) : list ascii :=
  if cp <? 128 then [byte cp]
  else if cp <? 2048 then [byte (192 + cp / 64); byte (128 + cp mod 64)]
  else if cp <? 65536 then
    [byte (224 + cp / 4096); byte (128 + (cp / 64) mod 64); byte (128 + cp mod 64)]
  else
    [byte (240 + cp / 262144); byte (128 + (cp / 4096) mod 64);
     byte (128 + (cp / 64) mod 64); byte (128 + cp mod 64)].

Definition hex (c : ascii) : option Z :=
  let n := Text.code c in
  if (48 <=? n) && (n <=? 57) then Some (n - 48)
  else if (97 <=? n) && (n <=? 102) then Some (n - 87)
  else if (65 <=? n) && (n <=? 70) then Some (n - 55)
  else None.

(** Four hex digits at the front. *)
Definition hex4 (l : list ascii) : option (Z * list ascii) :=
  match l with
  | a :: b :: c :: d :: r =>
      match hex a, hex b, hex c, hex d with
      | Some a, Some b, Some c, Some d => Some (4096 * a + 256 * b + 16 * c + d, r)
      | _, _, _, _ => None
      end
  | _ => None
  end.

(** [\uXXXX] at the front. *)
Definition escape_u (l : list ascii) : option (Z * list ascii) :=
  match l with
  | b :: u :: r => if byte_is b 92 && byte_is u 117 then hex4 r else None
  | _ => None
  end.

(** The text of a string literal, read after its opening quote. *)
Fixpoint scan_string (fuel : nat) (acc : list ascii) (l : list ascii)
  : scanned (list ascii) :=
  match fuel with
  | O => Exhausted
  | S fuel =>
      match l with
      | [] => Invalid
      | c :: r =>
          if byte_is c 34 then Scanned (rev acc) r
          else if Text.code c <=? 31 then Invalid
          else if byte_is c 92 then
            match r with
            | [] => Invalid
            | x :: r' =>
                if byte_is x 117 then
                  match hex4 r' with
                  | None => Invalid
                  | Some (cp, r'') =>
                      let '(cp, r'') :=
                        if (55296 <=? cp) && (cp <=? 56319) then
                          match escape_u r'' with
                          | Some (lo, r3) =>
                              if (56320 <=? lo) && (lo <=? 57343)
                              then (65536 + (cp - 55296) * 1024 + (lo - 56320), r3)
                              else (cp, r'')
                          | None => (cp, r'')
                          end
                        else (cp, r'') in
                      scan_string fuel (rev_append (utf8 cp) acc) r''
                  end
                else
                  let plain :=
                    if byte_is x 34 || byte_is x 92 || byte_is x 47 then Some x
                    else if byte_is x 98 then Some (byte 8)
                    else if byte_is x 102 then Some (byte 12)
                    else if byte_is x 110 then Some (byte 10)
                    else if byte_is x 114 then Some (byte 13)
                    else if byte_is x 116 then Some (byte 9)
                    else None in
                  match plain with
                  | Some y => scan_string fuel (y :: acc) r'
                  | None => Invalid
                  end
            end
          else scan_string fuel (c :: acc) r
      end
  end.

(** *** Values *)

Definition map_scanned {A B} (f : A -> B) (x : scanned A) : scanned B :=
  match x with
  | Scanned a rest => Scanned (f a) rest
  | Invalid => Invalid
  | Exhausted => Exhausted
  end.

Fixpoint scan_once (fuel : nat) (l : list ascii) : scanned pyval :=
  match fuel with
  | O => Exhausted
  | S fuel =>
      match l with
      | [] => Invalid
      | c :: r =>
          if byte_is c 34 then
            map_scanned (fun t => PyStr (Text.text t)) (scan_string (S (length r)) [] r)
          else if byte_is c 123 then
            match skip_ws r with
            | c' :: r' =>
                if byte_is c' 125 then Scanned (PyDict []) r'
                else scan_pairs fuel [] (c' :: r')
            | [] => Invalid
            end
          else if byte_is c 91 then
            match skip_ws r with
            | c' :: r' =>
                if byte_is c' 93 then Scanned (PyList []) r'
                else scan_items fuel [] (c' :: r')
            | [] => Invalid
            end
          else
            match after (Text.chars "null") l, after (Text.chars "true") l,
                  after (Text.chars "false") l, after (Text.chars "NaN") l,
                  after (Text.chars "Infinity") l, after (Text.chars "-Infinity") l with
            | Some r', _, _, _, _, _ => Scanned PyNone r'
            | _, Some r', _, _, _, _ => Scanned (PyBool true) r'
            | _, _, Some r', _, _, _ => Scanned (PyBool false) r'
            | _, _, _, Some r', _, _ => Scanned (PyFloat NaN) r'
            | _, _, _, _, Some r', _ => Scanned (PyFloat (Infinite false)) r'
            | _, _, _, _, _, Some r' => Scanned (PyFloat (Infinite true)) r'
            | None, None, None, None, None, None => scan_number l
            end
      end
  end

(** The items of an array after its [[]; [acc] holds those read, last first. *)
with scan_items (fuel : nat) (acc : list pyval) (l : list ascii) : scanned pyval :=
  match fuel with
  | O => Exhausted
  | S fuel =>
      match scan_once fuel l with
      | Scanned v r =>
          match skip_ws r with
          | c :: r' =>
              if byte_is c 93 then Scanned (PyList (rev (v :: acc))) r'
              else if byte_is c 44 then scan_items fuel (v :: acc) (skip_ws r')
              else Invalid
          | [] => Invalid
          end
      | Invalid => Invalid
      | Exhausted => Exhausted
      end
  end

(** The pairs of an object after its [{]; a key read again takes the new
    value. *)
with scan_pairs (fuel : nat) (acc : list (string * pyval)) (l : list ascii)
  : scanned pyval :=
  match fuel with
  | O => Exhausted
  | S fuel =>
      match l with
      | q :: r =>
          if byte_is q 34 then
            match scan_string (S (length r)) [] r with
            | Scanned key r =>
                match skip_ws r with
                | colon :: r =>
                    if byte_is colon 58 then
                      match scan_once fuel (skip_ws r) with
                      | Scanned v r =>
                          let acc := Py.set String.eqb acc (Text.text key) v in
                          match skip_ws r with
                          | c :: r' =>
                              if byte_is c 125 then Scanned (PyDict acc) r'
                              else if byte_is c 44 then scan_pairs fuel acc (skip_ws r')
                              else Invalid
                          | [] => Invalid
                          end
                      | Invalid => Invalid
                      | Exhausted => Exhausted
                      end
                    else Invalid
                | [] => Invalid
                end
            | Invalid => Invalid
            | Exhausted => Exhausted
            end
          else Invalid
      | [] => Invalid
      end
  end.

(** [json.loads(s)]: [None] stands for the [JSONDecodeError]. *)
Definition loads (s : string) : option pyval :=
  let l := Text.chars s in
  if bool_decide (is_Some (after (utf8 65279) l)) then None
  else
    match scan_once (2 * length l + 2) (skip_ws l) with
    | Scanned v r => match skip_ws r with [] => Some v | _ :: _ => None end
    | Invalid => None
    | Exhausted => None
    end.

End Json.

(** ** nonebot_plugin_recall/config.py *)

(** [raw.replace("，", ",")]: every full-width comma (U+FF0C) becomes a comma. *)
Fixpoint replace_fullwidth_comma (l : list ascii) : list ascii :=
  match l with
  | c1 :: r1 =>
      match r1 with
      | c2 :: c3 :: r3 =>
          if Json.byte_is c1 239 && Json.byte_is c2 188 && Json.byte_is c3 140
          then Json.byte 44 :: replace_fullwidth_comma r3
          else c1 :: replace_fullwidth_comma r1
      | _ => c1 :: replace_fullwidth_comma r1
      end
  | [] => []
  end.

(** [text.split(",")]; [cur] holds the item being read, last character first. *)
Fixpoint split_comma (cur : list ascii) (l : list ascii) : list (list ascii) :=
  match l with
  | [] => [rev cur]
  | c :: r => if Json.byte_is c 44 then rev cur :: split_comma [] r
              else split_comma (c :: cur) r
  end.

(** [{int(item) for item in items}]; the first item that [int] refuses
    raises. *)
Fixpoint int_set (items : list pyval) : result (gset Z) :=
  match items with
  | [] => Ok ∅
  | item :: rest =>
      match Py.int item with
      | Ok n => match int_set rest with
                | Ok ns => Ok ({[n]} ∪ ns)
                | Raise e => Raise e
                end
      | Raise e => Raise e
      end
  end.

(** The validator of [Config.recall_group_whitelist], run on the raw
    setting before pydantic reads it. *)
Definition _parse_recall_group_whitelist (value : pyval) : result (gset Z) :=
  match value with
  | PyNone => Ok ∅
  | _ =>
      (* the [str] case either returns or goes on with the decoded value *)
      let decoded : result (gset Z) + pyval :=
        match value with
        | PyStr s =>
            let raw := Text.strip s in
            if Text.is_empty raw then inl (Ok ∅)
            else
              match Json.loads raw with
              | Some value => inr value
              | None =>
                  let parts :=
                    map (fun item => Text.text (Text.strip_with Text.space1 item))
                        (split_comma [] (replace_fullwidth_comma (Text.chars raw))) in
                  inl (int_set (map PyStr (List.filter (fun item => negb (Text.is_empty item)) parts)))
              end
        | _ => inr value
        end in
      match decoded with
      | inl returned => returned
      | inr (PyList items) => int_set items
      | inr value =>
          match Py.int value with
          | Ok n => Ok {[n]}
          | Raise e => Raise e
          end
      end
  end.

(** The field [recall_group_whitelist] of [Config]: the default
    [set()] when the setting is absent, the validator's answer otherwise. *)
Definition load_recall_group_whitelist (setting : option pyval) : result (gset Z) :=
  match setting with
  | None => Ok ∅
  | Some value => _parse_recall_group_whitelist value
  end.

(** ** Vocabulary of the statements *)

(** A repr that prints nothing, for running the plugin on data without
    floats, sequences or dicts to print. *)
Definition no_repr (v : pyval) : string := "".

(** The trimmed [faceText] of a face, empty when there is no raw map. *)
Definition face_text (repr : pyval -> string) (segment : MessageSegment) : string :=
  match Py.get (data segment) "raw" with
  | Some (PyDict raw) => Text.strip (Py.str repr (Py.get_default raw "faceText" (PyStr "")))
  | _ => ""
  end.

(** [str(member.get(key) or "").strip()] *)
Definition field_text (repr : pyval -> string) (member : list (string * pyval))
    (key : string) : string :=
  Text.strip (Py.str repr (Py.or (Py.get_or_none member key) (PyStr ""))).

(** The content a recall notice resolves to: the cached message of the
    key when there is one, else what the live fetch gives. *)
Inductive resolved (Message_of : pyval -> result Message) (bot : Bot) (s : State)
    (key : cache_key) : option Message -> Prop :=
| resolved_cached message :
    fst (pop (_message_cache s) key) = Some message ->
    resolved Message_of bot s key (Some message)
| resolved_fetched fetched :
    fst (pop (_message_cache s) key) = None ->
    fst (_get_recalled_message Message_of bot (snd key) s) = Ok fetched ->
    resolved Message_of bot s key fetched.

Definition is_record (segment : MessageSegment) : bool :=
  String.eqb (type segment) "record".

(** What a handler gets for a call of [send_group_msg] made after the
    calls [history]: nothing when the bot answers it, [ActionFailed] when the
    bot refuses it. *)
Definition send_outcome (bot : Bot) (history : list (Z * outbound)) (call : Z * outbound)
  : result unit :=
  match send_group_msg bot history (fst call) (snd call) with
  | Returned _ => Ok tt
  | Failed => Raise ActionFailed
  end.

(** The bot answers every one of the calls, made one after the other
    after the calls [history]. *)
Fixpoint all_answered (bot : Bot) (history : list (Z * outbound))
    (calls : list (Z * outbound)) : Prop :=
  match calls with
  | [] => True
  | call :: rest =>
      send_outcome bot history call = Ok tt /\ all_answered bot (history ++ [call]) rest
  end.

(** [await bot.send_group_msg(...)] for each of the calls in turn. *)
Definition send_all (bot : Bot) (calls : list (Z * outbound)) : M unit :=
  for_each calls (fun call => await_send_group_msg bot (fst call) (snd call)).

(** A notice that starts with the name: one of the three texts of the
    recall handler, or the message the adapter builds from the text
    "<name>撤回了一条消息：" with recalled content after it. *)
Definition names_member (Message_of : pyval -> result Message) (name : string)
    (message : outbound) : Prop :=
  message = Plain (name +:+ "撤回了一条消息：[内容未捕获]")
  \/ message = Plain (name +:+ "撤回了一条语音")
  \/ message = Plain (name +:+ "撤回了一条消息：[空消息]")
  \/ exists out content,
       Message_of (PyStr (name +:+ "撤回了一条消息：")) = Ok out
       /\ content <> [] /\ message = Segments (out ++ content).

(** [str.isspace()] of a character, by its code point. *)
Definition isspace (cp : Z) : bool :=
  ((9 <=? cp) && (cp <=? 13)) || ((28 <=? cp) && (cp <=? 32))
  || (cp =? 133) || (cp =? 160) || (cp =? 5760)
  || ((8192 <=? cp) && (cp <=? 8202)) || (cp =? 8232) || (cp =? 8233)
  || (cp =? 8239) || (cp =? 8287) || (cp =? 12288).

(** A character, by its code point, that is no blank. *)
Definition visible (cp : Z) : Prop := 0 <= cp < 1114112 /\ isspace cp = false.

(** The text made of the characters with these code points. *)
Definition of_code_points (cps : list Z) : string :=
  Text.text (flat_map Json.utf8 cps).

(** A text that neither starts nor ends with a blank, by its code points. *)
Definition trimmed (cps : list Z) : Prop :=
  (forall first rest, cps = first :: rest -> visible first)
  /\ (forall front last, cps = front ++ [last] -> visible last).

(** The key and the entry a received message is cached under. *)
Definition key_of (event : GroupMessageEvent.t) : cache_key :=
  (GroupMessageEvent.group_id event, GroupMessageEvent.message_id event).

Definition entry_of (event : GroupMessageEvent.t) : cache_key * Message :=
  (key_of event, GroupMessageEvent.get_message event).

(** The events the two matchers handle. *)
Inductive event :=
| Received (e : GroupMessageEvent.t)
| Recalled (bot : Bot) (e : GroupRecallNoticeEvent.t).

Section Dispatch.
Variable repr : pyval -> string.
Variable plugin_config : Config.
Variable Message_of : pyval -> result Message.

Definition handle (ev : event) : M unit :=
  match ev with
  | Received e => cache_group_message plugin_config e
  | Recalled bot e => group_recall repr plugin_config Message_of bot e
  end.

(** The state after the handlers ran on the events, one after the other;
    a handler that raises ends alone. *)
Definition handle_all (events : list event) (s : State) : State :=
  fold_left (fun s ev => snd (handle ev s)) events s.
End Dispatch.

Definition initial : State := {| _message_cache := []; sent := [] |}.

(** A segment the normalizer leaves out: an [at], [reply] or [record]
    segment, or a [text] segment whose text prints as the empty string. *)
Definition left_out (repr : pyval -> string) (segment : MessageSegment) : Prop :=
  type segment ∈ ["at"; "reply"; "record"]
  \/ (type segment = "text"
      /\ Py.str repr (Py.get_default (data segment) "text" (PyStr "")) = "").

(** The keys of a cache, oldest first. *)
Definition keys (cache : list (cache_key * Message)) : list cache_key := map fst cache.

(** The group an event comes from. *)
Definition event_group (ev : event) : Z :=
  match ev with
  | Received e => GroupMessageEvent.group_id e
  | Recalled _ e => GroupRecallNoticeEvent.group_id e
  end.

(** ** Whitelist texts

    The decimal numerals of integers, joined by commas, bare or between
    brackets, as one writes a whitelist by hand. *)

(** A character of a numeral: a digit or the minus sign. *)
Definition numeral_char (c : ascii) : Prop :=
  48 <= Text.code c <= 57 \/ Text.code c = 45.

(** The items with a comma between each two. *)
Fixpoint join_comma (items : list (list ascii)) : list ascii :=
  match items with
  | [] => []
  | item :: rest =>
      match rest with
      | [] => item
      | _ :: _ => item ++ Json.byte 44 :: join_comma rest
      end
  end.

(** The numerals [str(n)] of the integers. *)
Definition numerals (ns : list Z) : list (list ascii) :=
  map (fun n => Text.chars (Text.of_Z n)) ns.

(** The integers written with commas between them, like [1,2,3]. *)
Definition comma_separated (ns : list Z) : string :=
  Text.text (join_comma (numerals ns)).

(** The integers written as a JSON array, like [[1,2,3]]. *)
Definition json_array (ns : list Z) : string :=
  Text.text (Json.byte 91 :: join_comma (numerals ns) ++ [Json.byte 93]).

(** A character of a whitelist text: a digit, a minus sign, a comma or a
    bracket. *)
Definition list_char (c : ascii) : Prop :=
  numeral_char c \/ Text.code c = 44 \/ Text.code c = 91 \/ Text.code c = 93.

(** What may follow a numeral in such a text: nothing, a comma or the
    closing bracket. *)
Definition ends_number (rest : list ascii) : Prop :=
  match rest with
  | [] => True
  | c :: _ => Text.code c = 44 \/ Text.code c = 93
  end.

(** ** Sample data *)

Module Sample.

Definition config : Config := {| recall_group_whitelist := {[100; 200]} |}.

(** A bot that knows its members, has lost every message and sends
    whatever it is asked to. *)
Definition bot : Bot :=
  {| get_group_member_info := fun _ _ =>
       Returned [("card", PyStr " Ann "); ("nickname", PyStr "ann")];
     get_msg := fun _ => Failed;
     send_group_msg := fun _ _ _ => Returned tt |}.

(** An adapter constructor that reads a [str] as one text segment and
    refuses everything else. *)
Definition Message_of (value : pyval) : result Message :=
  match value with
  | PyStr text => Ok [MessageSegment_text text]
  | _ => Raise ValueError
  end.


Definition record (file : string) : MessageSegment :=
  {| type := "record"; data := [("file", PyStr file)] |}.

Definition image (file : string) : MessageSegment :=
  {| type := "image"; data := [("file", PyStr file)] |}.

Definition voice_message : Message :=
  [MessageSegment_text "hi"; record "a.amr"; image "b.png"; record "c.amr"].

Definition mixed_message : Message :=
  [MessageSegment_text "hi"; {| type := "at"; data := [("qq", PyStr "123")] |};
   image "b.png"; {| type := "video"; data := [("file", PyStr "v.mp4")] |}].

Definition self_recall : GroupRecallNoticeEvent.t :=
  {| GroupRecallNoticeEvent.group_id := 100;
     GroupRecallNoticeEvent.user_id := 7;
     GroupRecallNoticeEvent.operator_id := 7;
     GroupRecallNoticeEvent.message_id := 42 |}.

Definition moderator_recall : GroupRecallNoticeEvent.t :=
  {| GroupRecallNoticeEvent.group_id := 100;
     GroupRecallNoticeEvent.user_id := 7;
     GroupRecallNoticeEvent.operator_id := 1;
     GroupRecallNoticeEvent.message_id := 42 |}.

Definition cached_voice : State :=
  {| _message_cache := [((100, 41), mixed_message); ((100, 42), voice_message)];
     sent := [] |}.

Definition received (message_id : Z) : GroupMessageEvent.t :=
  {| GroupMessageEvent.group_id := 100;
     GroupMessageEvent.message_id := message_id;
     GroupMessageEvent.get_message := [MessageSegment_text "hi"] |}.

(** Messages 1, 2, ..., [_cache_max_size + 1] of group 100. *)
Definition burst : list GroupMessageEvent.t :=
  map received (seqZ 1 (_cache_max_size + 1)).

Definition mention : MessageSegment :=
  {| type := "at"; data := [("qq", PyStr "123")] |}.

Definition reply : MessageSegment :=
  {| type := "reply"; data := [("id", PyStr "9")] |}.

Definition cached_text : State :=
  {| _message_cache := [((100, 42), mixed_message)]; sent := [] |}.

Definition cached_mentions : State :=
  {| _message_cache := [((100, 42), [mention; reply])]; sent := [] |}.


(** The bot when it has been muted in the group: every send is refused. *)
Definition muted_bot : Bot :=
  {| get_group_member_info := get_group_member_info bot;
     get_msg := get_msg bot;
     send_group_msg := fun _ _ _ => Failed |}.

(** The bot when it may send text but no voice. *)
Definition text_only_bot : Bot :=
  {| get_group_member_info := get_group_member_info bot;
     get_msg := get_msg bot;
     send_group_msg := fun _ _ message =>
       match message with
       | Plain _ => Returned tt
       | Segments _ => Failed
       end |}.

(** A bot whose member has a blank card and a nickname between a tab and
    a line feed. *)
Definition nickname_bot : Bot :=
  {| get_group_member_info := fun _ _ =>
       Returned [("card", PyStr "　 "); ("nickname", PyStr (of_code_points [9; 97; 110; 110; 10]))];
     get_msg := fun _ => Failed;
     send_group_msg := fun _ _ _ => Returned tt |}.

(** A bot whose member has no card and an empty nickname, and a bot that
    cannot look members up. *)
Definition nameless_bot : Bot :=
  {| get_group_member_info := fun _ _ => Returned [("card", PyNone); ("nickname", PyStr "")];
     get_msg := fun _ => Failed;
     send_group_msg := fun _ _ _ => Returned tt |}.

Definition stranger_bot : Bot :=
  {| get_group_member_info := fun _ _ => Failed;
     get_msg := fun _ => Failed;
     send_group_msg := fun _ _ _ => Returned tt |}.

Definition one_voice : State :=
  {| _message_cache := [((100, 42), [record "a.amr"])]; sent := [] |}.

End Sample.

(** * Properties *)

(** ** Text and values *)

Example strip_ascii : Text.strip "  a b
" = "a b".
Proof. reflexivity. Qed.

Example strip_ideographic : Text.strip "　赞　" = "赞".
Proof. reflexivity. Qed.

Example of_Z_76 : Text.of_Z 76 = "76" /\ Text.of_Z (-5) = "-5" /\ Text.of_Z 0 = "0".
Proof. repeat split; reflexivity. Qed.

Example to_Z_samples :
  Text.to_Z " 3 " = Some 3 /\ Text.to_Z "-12" = Some (-12) /\ Text.to_Z "+1_000" = Some 1000
  /\ Text.to_Z "3.0" = None /\ Text.to_Z "" = None /\ Text.to_Z "1__0" = None
  /\ Text.to_Z "- 1" = None /\ Text.to_Z "007" = Some 7.
Proof. repeat split; reflexivity. Qed.

Example to_Z_scripts :
  Text.to_Z "３" = Some 3 /\ Text.to_Z "١٢٣" = Some 123 /\ Text.to_Z "１_２" = Some 12
  /\ Text.to_Z "-１" = Some (-1) /\ Text.to_Z "　7３　" = Some 73
  /\ Text.to_Z "３.０" = None /\ Text.to_Z "−1" = None /\ Text.to_Z "三" = None.
Proof. repeat split; reflexivity. Qed.

(** Every decimal digit character is read by [int()] as its value. *)
Lemma decimal_digits_are_read zero d :
  zero ∈ Text.decimal_zeros -> 0 <= d <= 9 ->
  Text.to_Z (of_code_points [zero + d]) = Some d.
Proof.
  intros Hzero Hd.
  assert (forallb
            (fun zero =>
               forallb
                 (fun d => bool_decide (Text.to_Z (of_code_points [zero + d]) = Some d))
                 (seqZ 0 10))
            Text.decimal_zeros = true) as Hall by (vm_compute; reflexivity).
  rewrite forallb_forall in Hall.
  specialize (Hall zero (proj1 (list_elem_of_In _ _) Hzero)).
  rewrite forallb_forall in Hall.
  eapply bool_decide_eq_true_1, Hall, list_elem_of_In, elem_of_seqZ. lia.
Qed.

Lemma is_empty_true s : Text.is_empty s = true <-> s = "".
Proof. destruct s; simpl; split; congruence. Qed.

Lemma is_empty_false s : Text.is_empty s = false <-> s <> "".
Proof. destruct s; simpl; split; congruence. Qed.

Lemma chars_text l : Text.chars (Text.text l) = l.
Proof. apply list_ascii_of_string_of_list_ascii. Qed.

(** ** Trimming *)

Lemma code_byte n : 0 <= n < 256 -> Text.code (Json.byte n) = n.
Proof.
  intros Hn. unfold Text.code, Json.byte.
  rewrite N_ascii_embedding by lia. lia.
Qed.

Lemma code_range c : 0 <= Text.code c < 256.
Proof.
  unfold Text.code. pose proof (N_ascii_bounded c). lia.
Qed.

(** The bytes of a character. *)
Lemma utf8_shape cp :
  0 <= cp < 1114112 ->
  (cp < 128 /\ exists b1, Json.utf8 cp = [b1] /\ Text.code b1 = cp)
  \/ (128 <= cp < 2048
      /\ exists b1 b2, Json.utf8 cp = [b1; b2]
           /\ Text.code b1 = 192 + cp / 64 /\ Text.code b2 = 128 + cp mod 64)
  \/ (2048 <= cp < 65536
      /\ exists b1 b2 b3, Json.utf8 cp = [b1; b2; b3]
           /\ Text.code b1 = 224 + cp / 4096
           /\ Text.code b2 = 128 + (cp / 64) mod 64
           /\ Text.code b3 = 128 + cp mod 64)
  \/ (65536 <= cp
      /\ exists b1 b2 b3 b4, Json.utf8 cp = [b1; b2; b3; b4]
           /\ Text.code b1 = 240 + cp / 262144
           /\ Text.code b2 = 128 + (cp / 4096) mod 64
           /\ Text.code b3 = 128 + (cp / 64) mod 64
           /\ Text.code b4 = 128 + cp mod 64).
Proof.
  intros Hcp. unfold Json.utf8.
  destruct (Z.ltb_spec cp 128).
  { left. split; [lia|]. eexists. split; [reflexivity|]. apply code_byte. lia. }
  destruct (Z.ltb_spec cp 2048).
  { right. left. split; [lia|]. eexists _, _. split; [reflexivity|].
    split; apply code_byte; Z.div_mod_to_equations; lia. }
  destruct (Z.ltb_spec cp 65536).
  { right. right. left. split; [lia|]. eexists _, _, _. split; [reflexivity|].
    repeat split; apply code_byte; Z.div_mod_to_equations; lia. }
  right. right. right. split; [lia|]. eexists _, _, _, _. split; [reflexivity|].
  repeat split; apply code_byte; Z.div_mod_to_equations; lia.
Qed.

Lemma drop_blank_stop sp1 fwd c1 r1 :
  sp1 c1 = false ->
  (forall c2 r2, r1 = c2 :: r2 -> Text.sp2 fwd c1 c2 = false) ->
  (forall c2 c3 r3, r1 = c2 :: c3 :: r3 -> Text.sp3 fwd c1 c2 c3 = false) ->
  Text.drop_blank sp1 fwd (c1 :: r1) = c1 :: r1.
Proof.
  intros H1 H2 H3. cbn [Text.drop_blank]. rewrite H1.
  destruct r1 as [|c2 [|c3 r3]]; [reflexivity|..].
  - now rewrite (H2 c2 []).
  - now rewrite (H2 c2 (c3 :: r3)), (H3 c2 c3 r3).
Qed.

Ltac bytes_arith :=
  unfold Text.space1, Text.space2, Text.space3, isspace in *; cbv zeta;
  repeat match goal with
         | H : Text.code ?b = _ |- _ => rewrite H in *; clear H
         end;
  repeat match goal with
         | |- context [Text.code ?b] =>
             pose proof (code_range b); generalize dependent (Text.code b); intros
         end;
  Z.div_mod_to_equations; lia.

(** A character that is no blank stops the trimming, from the front and
    from the back. *)
Lemma visible_stops_front cp l :
  visible cp ->
  Text.drop_blank Text.space1 true (Json.utf8 cp ++ l) = Json.utf8 cp ++ l.
Proof.
  intros [Hcp Hvis].
  destruct (utf8_shape cp Hcp)
    as [(Hr & b1 & -> & E1)
       | [(Hr & b1 & b2 & -> & E1 & E2)
         | [(Hr & b1 & b2 & b3 & -> & E1 & E2 & E3)
           | (Hr & b1 & b2 & b3 & b4 & -> & E1 & E2 & E3 & E4)]]];
    cbn [app]; apply drop_blank_stop; unfold Text.sp2, Text.sp3;
    intros; simplify_eq; bytes_arith.
Qed.

Lemma visible_stops_back cp l :
  visible cp ->
  Text.drop_blank Text.space1 false (rev (Json.utf8 cp) ++ l) = rev (Json.utf8 cp) ++ l.
Proof.
  intros [Hcp Hvis].
  destruct (utf8_shape cp Hcp)
    as [(Hr & b1 & -> & E1)
       | [(Hr & b1 & b2 & -> & E1 & E2)
         | [(Hr & b1 & b2 & b3 & -> & E1 & E2 & E3)
           | (Hr & b1 & b2 & b3 & b4 & -> & E1 & E2 & E3 & E4)]]];
    cbn [rev app]; apply drop_blank_stop; unfold Text.sp2, Text.sp3;
    intros; simplify_eq; bytes_arith.
Qed.

Lemma isspace_cases cp :
  isspace cp = true ->
  cp ∈ [9; 10; 11; 12; 13; 28; 29; 30; 31; 32; 133; 160; 5760; 8192; 8193; 8194; 8195;
        8196; 8197; 8198; 8199; 8200; 8201; 8202; 8232; 8233; 8239; 8287; 12288].
Proof.
  intros Hsp. rewrite !elem_of_cons, elem_of_nil. unfold isspace in Hsp. lia.
Qed.

(** A blank is trimmed, from the front and from the back. *)
Lemma blank_is_dropped cp l :
  isspace cp = true ->
  Text.drop_blank Text.space1 true (Json.utf8 cp ++ l)
  = Text.drop_blank Text.space1 true l
  /\ Text.drop_blank Text.space1 false (rev (Json.utf8 cp) ++ l)
     = Text.drop_blank Text.space1 false l.
Proof.
  intros Hsp. apply isspace_cases in Hsp.
  rewrite !elem_of_cons, elem_of_nil in Hsp.
  repeat (destruct Hsp as [-> | Hsp]; [split; reflexivity|]).
  destruct Hsp.
Qed.

Lemma blanks_are_dropped_front blanks l :
  Forall (fun cp => isspace cp = true) blanks ->
  Text.drop_blank Text.space1 true (flat_map Json.utf8 blanks ++ l)
  = Text.drop_blank Text.space1 true l.
Proof.
  induction 1 as [|cp blanks Hcp _ IH]; [reflexivity|].
  cbn [flat_map]. rewrite <- app_assoc.
  now rewrite (proj1 (blank_is_dropped cp _ Hcp)).
Qed.

Lemma rev_flat_map_utf8 cps :
  rev (flat_map Json.utf8 cps) = flat_map (fun cp => rev (Json.utf8 cp)) (rev cps).
Proof.
  induction cps as [|cp cps IH]; [reflexivity|].
  cbn [flat_map rev]. rewrite rev_app_distr, IH, flat_map_app. cbn [flat_map].
  now rewrite app_nil_r.
Qed.

Lemma blanks_are_dropped_back blanks l :
  Forall (fun cp => isspace cp = true) blanks ->
  Text.drop_blank Text.space1 false (flat_map (fun cp => rev (Json.utf8 cp)) blanks ++ l)
  = Text.drop_blank Text.space1 false l.
Proof.
  induction 1 as [|cp blanks Hcp _ IH]; [reflexivity|].
  cbn [flat_map]. rewrite <- app_assoc.
  now rewrite (proj2 (blank_is_dropped cp _ Hcp)).
Qed.

(** [strip()] takes the blanks off both ends of a text, and nothing
    else. *)
Lemma strip_trims (before core after : list Z) :
  Forall (fun cp => isspace cp = true) before ->
  Forall (fun cp => isspace cp = true) after ->
  trimmed core ->
  Text.strip (of_code_points (before ++ core ++ after)) = of_code_points core.
Proof.
  intros Hbefore Hafter [Hfirst Hlast].
  unfold Text.strip, of_code_points, Text.strip_with. rewrite chars_text. f_equal.
  rewrite !flat_map_app, blanks_are_dropped_front by exact Hbefore.
  destruct core as [|first rest].
  { cbn [flat_map app].
    rewrite <- (app_nil_r (flat_map Json.utf8 after)).
    rewrite blanks_are_dropped_front by exact Hafter. reflexivity. }
  destruct (exists_last (l := first :: rest)) as (front & last & Hcore); [discriminate|].
  cbn [flat_map]. rewrite <- app_assoc.
  rewrite visible_stops_front by (apply (Hfirst first rest eq_refl)).
  rewrite app_assoc.
  change (Json.utf8 first ++ flat_map Json.utf8 rest) with (flat_map Json.utf8 (first :: rest)).
  rewrite rev_app_distr, rev_flat_map_utf8.
  rewrite blanks_are_dropped_back by (now apply Forall_rev).
  rewrite Hcore at 1. rewrite rev_flat_map_utf8, rev_app_distr. cbn [rev app flat_map].
  rewrite visible_stops_back by (apply (Hlast front last Hcore)).
  change (rev (Json.utf8 last) ++ flat_map (fun cp => rev (Json.utf8 cp)) (rev front))
    with (flat_map (fun cp => rev (Json.utf8 cp)) (last :: rev front)).
  change (last :: rev front) with (rev [last] ++ rev front).
  rewrite <- rev_app_distr, <- Hcore, <- rev_flat_map_utf8, rev_involutive.
  reflexivity.
Qed.

Lemma trimmed_nothing : trimmed [].
Proof.
  split; [discriminate|]. intros front last Heq. now destruct front.
Qed.


Lemma trimmed_ends first middle last :
  visible first -> visible last -> trimmed (first :: middle ++ [last]).
Proof.
  intros Hfirst Hlast. split; [now intros first' rest [= <- _]|].
  intros front last' Heq.
  change (first :: middle ++ [last]) with ((first :: middle) ++ [last]) in Heq.
  apply app_inj_tail in Heq as [_ <-]. exact Hlast.
Qed.

(** ** [json.loads] reads every text to its end

    The scanner is given twice the length of the text as fuel and never
    uses it up, so [Json.loads] answers [None] only for text that is not
    JSON. *)

Lemma skip_ws_length l : (length (Json.skip_ws l) <= length l)%nat.
Proof. induction l as [|c l IH]; simpl; [lia|]. destruct (Json.blank c); simpl; lia. Qed.

Lemma after_length word l r :
  Json.after word l = Some r -> (length r + length word = length l)%nat.
Proof.
  revert l. induction word as [|w word IH]; intros l; simpl.
  - intros [= ->]. lia.
  - destruct l as [|c l]; [discriminate|]. destruct (Ascii.eqb w c); [|discriminate].
    intros H. apply IH in H. simpl. lia.
Qed.

Lemma digit_run_length acc count l :
  (length (snd (Json.digit_run acc count l)) <= length l)%nat.
Proof.
  revert acc count. induction l as [|c l IH]; intros acc count; simpl; [lia|].
  destruct (Text.ascii_digit c); simpl; [|lia]. specialize (IH (10 * acc + z) (count + 1)). lia.
Qed.

Lemma int_part_length l n r :
  Json.int_part l = Some (n, r) -> (length r < length l)%nat.
Proof.
  unfold Json.int_part. destruct l as [|c l]; [discriminate|].
  destruct (Text.ascii_digit c) as [d|]; [|discriminate].
  pose proof (digit_run_length d 1 l) as H.
  destruct (Json.digit_run d 1 l) as [[m k] r'].
  destruct d; intros [= <- <-]; simpl in *; lia.
Qed.

Lemma frac_part_length n l m k r :
  Json.frac_part n l = Some (m, k, r) -> (length r <= length l)%nat.
Proof.
  unfold Json.frac_part. destruct l as [|p [|d l]]; try discriminate.
  destruct (_ && _); [|discriminate].
  pose proof (digit_run_length n 0 (d :: l)) as H.
  destruct (Json.digit_run n 0 (d :: l)) as [[m' k'] r'].
  intros [= <- <- <-]. simpl in *. lia.
Qed.

Lemma exp_part_length l x r :
  Json.exp_part l = Some (x, r) -> (length r <= length l)%nat.
Proof.
  unfold Json.exp_part. destruct l as [|e l]; [discriminate|].
  destruct (_ || _); [|discriminate].
  match goal with
  | |- context [let '(negative, r) := ?t in _] =>
      assert (length (snd t) <= length l)%nat as Hsign; [|destruct t as [negative r0]]
  end.
  { destruct l as [|sg [|c l']]; simpl; try lia.
    destruct (Json.byte_is sg 45); simpl; [lia|].
    destruct (Json.byte_is sg 43); simpl; lia. }
  pose proof (digit_run_length 0 0 r0) as H.
  destruct (Json.digit_run 0 0 r0) as [[y count] r'].
  destruct (0 <? count); [|discriminate]. intros [= <- <-]. simpl in *. lia.
Qed.

Lemma scan_number_length l v r :
  Json.scan_number l = Json.Scanned v r -> (length r < length l)%nat.
Proof.
  unfold Json.scan_number.
  match goal with
  | |- context [let '(negative, l1) := ?t in _] =>
      assert (length (snd t) <= length l)%nat as Hsign; [|destruct t as [negative l1]]
  end.
  { destruct l as [|c l']; simpl; [lia|]. destruct (Json.byte_is c 45); simpl; lia. }
  simpl in Hsign.
  destruct (Json.int_part l1) as [[n l2]|] eqn:Hint; [|discriminate].
  apply int_part_length in Hint.
  destruct (Json.frac_part n l2) as [[[n' digits] l3]|] eqn:Hfrac.
  - apply frac_part_length in Hfrac.
    destruct (Json.exp_part l3) as [[x l4]|] eqn:Hexp.
    + apply exp_part_length in Hexp. simpl. intros [= <- <-]. lia.
    + simpl. intros [= <- <-]. lia.
  - destruct (Json.exp_part l2) as [[x l4]|] eqn:Hexp.
    + apply exp_part_length in Hexp. simpl. intros [= <- <-]. lia.
    + simpl. intros [= <- <-]. lia.
Qed.

Lemma hex4_length l cp r : Json.hex4 l = Some (cp, r) -> (length r + 4 = length l)%nat.
Proof.
  unfold Json.hex4. destruct l as [|a [|b [|c [|d l]]]]; try discriminate.
  destruct (Json.hex a), (Json.hex b), (Json.hex c), (Json.hex d); try discriminate.
  intros [= <- <-]. simpl. lia.
Qed.

Lemma escape_u_length l cp r : Json.escape_u l = Some (cp, r) -> (length r + 6 = length l)%nat.
Proof.
  unfold Json.escape_u. destruct l as [|b [|u l]]; try discriminate.
  destruct (_ && _); [|discriminate]. intros H. apply hex4_length in H. simpl. lia.
Qed.

Lemma scan_string_spec fuel acc l :
  (length l < fuel)%nat ->
  Json.scan_string fuel acc l <> Json.Exhausted
  /\ forall t r, Json.scan_string fuel acc l = Json.Scanned t r -> (length r < length l)%nat.
Proof.
  revert acc l. induction fuel as [|fuel IH]; intros acc l Hfuel; [lia|].
  destruct l as [|c r]; simpl; [split; [discriminate | intros; discriminate]|].
  destruct (Json.byte_is c 34).
  { split; [discriminate|]. intros t r' [= <- <-]. lia. }
  destruct (Text.code c <=? 31); [split; [discriminate | intros; discriminate]|].
  destruct (Json.byte_is c 92).
  - destruct r as [|x r']; [split; [discriminate | intros; discriminate]|].
    destruct (Json.byte_is x 117).
    + destruct (Json.hex4 r') as [[cp r'']|] eqn:Hhex;
        [|split; [discriminate | intros; discriminate]].
      apply hex4_length in Hhex.
      match goal with
      | |- context [let '(cp, r'') := ?t in _] =>
          assert (length (snd t) <= length r'')%nat as Hpair; [|destruct t as [cp' r3]]
      end.
      { destruct (_ && _); simpl; [|lia].
        destruct (Json.escape_u r'') as [[lo r3]|] eqn:Hlo; simpl; [|lia].
        apply escape_u_length in Hlo. destruct (_ && _); simpl; lia. }
      simpl in *. destruct (IH (rev_append (Json.utf8 cp') acc) r3) as [Hne Hlen]; [lia|].
      split; [exact Hne|]. intros t r0 Hs. apply Hlen in Hs. lia.
    + match goal with
      | |- context [match ?p with Some y => _ | None => _ end] => destruct p as [y|]
      end; [|split; [discriminate | intros; discriminate]].
      simpl in *. destruct (IH (y :: acc) r') as [Hne Hlen]; [lia|].
      split; [exact Hne|]. intros t r0 Hs. apply Hlen in Hs. lia.
  - simpl in *. destruct (IH (c :: acc) r) as [Hne Hlen]; [lia|].
    split; [exact Hne|]. intros t r0 Hs. apply Hlen in Hs. lia.
Qed.

Ltac literal H :=
  match goal with
  | |- context [Json.after ?w ?l] =>
      destruct (Json.after w l) as [?r|] eqn:H;
      [intros [= <- <-]; apply after_length in H; simpl in *; lia|]
  end.

Lemma scan_shrinks fuel :
  (forall l v r, Json.scan_once fuel l = Json.Scanned v r -> (length r < length l)%nat)
  /\ (forall acc l v r,
        Json.scan_items fuel acc l = Json.Scanned v r -> (length r < length l)%nat)
  /\ (forall acc l v r,
        Json.scan_pairs fuel acc l = Json.Scanned v r -> (length r < length l)%nat).
Proof.
  induction fuel as [|fuel (IHonce & IHitems & IHpairs)].
  { repeat split; intros; discriminate. }
  split; [|split].
  - intros l v r. cbn [Json.scan_once]. destruct l as [|c l']; [discriminate|].
    destruct (Json.byte_is c 34).
    { destruct (Json.scan_string (S (length l')) [] l') as [t r'| |] eqn:Hs;
        simpl; try discriminate.
      intros [= <- <-]. apply scan_string_spec in Hs; simpl; lia. }
    destruct (Json.byte_is c 123).
    { pose proof (skip_ws_length l') as Hws.
      destruct (Json.skip_ws l') as [|c' r']; [discriminate|].
      destruct (Json.byte_is c' 125); [intros [= <- <-]; simpl in *; lia|].
      intros Hp. apply IHpairs in Hp. simpl in *. lia. }
    destruct (Json.byte_is c 91).
    { pose proof (skip_ws_length l') as Hws.
      destruct (Json.skip_ws l') as [|c' r']; [discriminate|].
      destruct (Json.byte_is c' 93); [intros [= <- <-]; simpl in *; lia|].
      intros Hp. apply IHitems in Hp. simpl in *. lia. }
    literal H1. literal H2. literal H3. literal H4. literal H5. literal H6.
    apply scan_number_length.
  - intros acc l v r. cbn [Json.scan_items].
    destruct (Json.scan_once fuel l) as [v' r'| |] eqn:Hv; try discriminate.
    apply IHonce in Hv. pose proof (skip_ws_length r') as Hws.
    destruct (Json.skip_ws r') as [|c r'']; [discriminate|].
    destruct (Json.byte_is c 93); [intros [= <- <-]; simpl in *; lia|].
    destruct (Json.byte_is c 44); [|discriminate].
    intros Hi. apply IHitems in Hi. pose proof (skip_ws_length r''). simpl in *. lia.
  - intros acc l v r. cbn [Json.scan_pairs].
    destruct l as [|q l']; [discriminate|].
    destruct (Json.byte_is q 34); [|discriminate].
    destruct (Json.scan_string (S (length l')) [] l') as [key r1| |] eqn:Hs; try discriminate.
    apply scan_string_spec in Hs; [|lia].
    pose proof (skip_ws_length r1) as Hws1.
    destruct (Json.skip_ws r1) as [|colon r2]; [discriminate|].
    destruct (Json.byte_is colon 58); [|discriminate].
    pose proof (skip_ws_length r2) as Hws2.
    destruct (Json.scan_once fuel (Json.skip_ws r2)) as [v' r3| |] eqn:Hv; try discriminate.
    apply IHonce in Hv. pose proof (skip_ws_length r3) as Hws3.
    destruct (Json.skip_ws r3) as [|c r4]; [discriminate|].
    destruct (Json.byte_is c 125); [intros [= <- <-]; simpl in *; lia|].
    destruct (Json.byte_is c 44); [|discriminate].
    intros Hi. apply IHpairs in Hi. pose proof (skip_ws_length r4). simpl in *. lia.
Qed.

Lemma scan_has_fuel fuel :
  (forall l, (2 * length l + 1 <= fuel)%nat -> Json.scan_once fuel l <> Json.Exhausted)
  /\ (forall acc l, (2 * length l + 2 <= fuel)%nat ->
        Json.scan_items fuel acc l <> Json.Exhausted)
  /\ (forall acc l, (2 * length l + 2 <= fuel)%nat ->
        Json.scan_pairs fuel acc l <> Json.Exhausted).
Proof.
  induction fuel as [|fuel (IHonce & IHitems & IHpairs)].
  { repeat split; intros; lia. }
  split; [|split].
  - intros l Hfuel. cbn [Json.scan_once]. destruct l as [|c l']; [discriminate|].
    simpl in Hfuel.
    destruct (Json.byte_is c 34).
    { pose proof (scan_string_spec (S (length l')) [] l') as [Hne _]; [lia|].
      destruct (Json.scan_string (S (length l')) [] l'); simpl; congruence. }
    destruct (Json.byte_is c 123).
    { pose proof (skip_ws_length l') as Hws.
      destruct (Json.skip_ws l') as [|c' r']; [discriminate|].
      destruct (Json.byte_is c' 125); [discriminate|].
      apply IHpairs. simpl in *. lia. }
    destruct (Json.byte_is c 91).
    { pose proof (skip_ws_length l') as Hws.
      destruct (Json.skip_ws l') as [|c' r']; [discriminate|].
      destruct (Json.byte_is c' 93); [discriminate|].
      apply IHitems. simpl in *. lia. }
    repeat match goal with
           | |- context [Json.after ?w ?l] => destruct (Json.after w l); [discriminate|]
           end.
    unfold Json.scan_number.
    repeat match goal with
           | |- context [match ?x with _ => _ end] => destruct x
           end; discriminate.
  - intros acc l Hfuel. cbn [Json.scan_items].
    destruct (Json.scan_once fuel l) as [v' r'| |] eqn:Hv; [|discriminate|].
    + apply (proj1 (scan_shrinks fuel)) in Hv. pose proof (skip_ws_length r') as Hws.
      destruct (Json.skip_ws r') as [|c r'']; [discriminate|].
      destruct (Json.byte_is c 93); [discriminate|].
      destruct (Json.byte_is c 44); [|discriminate].
      apply IHitems. pose proof (skip_ws_length r''). simpl in *. lia.
    + exfalso. revert Hv. apply IHonce. lia.
  - intros acc l Hfuel. cbn [Json.scan_pairs].
    destruct l as [|q l']; [discriminate|].
    destruct (Json.byte_is q 34); [|discriminate].
    pose proof (scan_string_spec (S (length l')) [] l') as [Hne Hshrink]; [lia|].
    destruct (Json.scan_string (S (length l')) [] l') as [key r1| |]; [|discriminate|congruence].
    specialize (Hshrink _ _ eq_refl).
    pose proof (skip_ws_length r1) as Hws1.
    destruct (Json.skip_ws r1) as [|colon r2]; [discriminate|].
    destruct (Json.byte_is colon 58); [|discriminate].
    pose proof (skip_ws_length r2) as Hws2.
    destruct (Json.scan_once fuel (Json.skip_ws r2)) as [v' r3| |] eqn:Hv; [|discriminate|].
    + apply (proj1 (scan_shrinks fuel)) in Hv. pose proof (skip_ws_length r3) as Hws3.
      destruct (Json.skip_ws r3) as [|c r4]; [discriminate|].
      destruct (Json.byte_is c 125); [discriminate|].
      destruct (Json.byte_is c 44); [|discriminate].
      apply IHpairs. pose proof (skip_ws_length r4). simpl in *. lia.
    + exfalso. revert Hv. apply IHonce. simpl in *. lia.
Qed.

Lemma loads_has_fuel s :
  Json.scan_once (2 * length (Text.chars s) + 2) (Json.skip_ws (Text.chars s))
  <> Json.Exhausted.
Proof.
  apply (proj1 (scan_has_fuel _)). pose proof (skip_ws_length (Text.chars s)). lia.
Qed.

Example loads_samples :
  Json.loads "[1,2,3]" = Some (PyList [PyInt 1; PyInt 2; PyInt 3])
  /\ Json.loads "1,2, 3" = None
  /\ Json.loads "true" = Some (PyBool true)
  /\ Json.loads "null" = Some PyNone
  /\ Json.loads "1.5" = Some (PyFloat (Finite 6755399441055744 (-52)))
  /\ Json.loads "[1, [2.0e0], {}]"
     = Some (PyList [PyInt 1; PyList [PyFloat (Finite 4503599627370496 (-51))]; PyDict []])
  /\ Json.loads "[1,]" = None
  /\ Json.loads "01" = None
  /\ Json.loads "abc" = None.
Proof. repeat split; vm_compute; reflexivity. Qed.

Example int_of_float_samples :
  Py.int (PyFloat (Finite 6755399441055744 (-52))) = Ok 1
  /\ Py.int (PyFloat (Finite (-7) (-1))) = Ok (-3)
  /\ Py.int (PyFloat (Finite 3 2)) = Ok 12
  /\ Py.int (PyFloat (Infinite false)) = Raise OverflowError.
Proof. repeat split; reflexivity. Qed.

(** ** The content normalizer, [_build_non_voice_message] *)

Section Normalizer.

Variable repr : pyval -> string.

(** The loop body only ever appends to [content]. *)
Lemma build_step_appends content segment :
  build_step repr content segment = content ++ rendered repr segment.
Proof.
  unfold rendered, build_step.
  repeat match goal with
         | |- context [if ?b then _ else _] => destruct b
         end; simpl; try rewrite app_nil_r; reflexivity.
Qed.

Lemma fold_build_step message content :
  fold_left (build_step repr) message content = content ++ flat_map (rendered repr) message.
Proof.
  revert content. induction message as [|segment message IH]; intros content; simpl.
  - now rewrite app_nil_r.
  - rewrite IH, build_step_appends, <- app_assoc. reflexivity.
Qed.

(** The normalized content is the segments' renderings, in the order of
    the segments. *)
Lemma build_flat_map message :
  _build_non_voice_message repr message = flat_map (rendered repr) message.
Proof. unfold _build_non_voice_message. now rewrite fold_build_step. Qed.

Lemma build_app m1 m2 :
  _build_non_voice_message repr (m1 ++ m2)
  = _build_non_voice_message repr m1 ++ _build_non_voice_message repr m2.
Proof. rewrite !build_flat_map. apply flat_map_app. Qed.

End Normalizer.

Lemma rendered_dropped repr segment :
  type segment ∈ ["at"; "reply"; "record"] -> rendered repr segment = [].
Proof.
  intros Hin. unfold rendered, build_step.
  assert (type segment = "at" \/ type segment = "reply" \/ type segment = "record") as Hk.
  { rewrite !elem_of_cons in Hin. rewrite elem_of_nil in Hin. tauto. }
  destruct Hk as [-> | [-> | ->]]; reflexivity.
Qed.

Lemma rendered_text repr segment :
  type segment = "text" ->
  rendered repr segment =
    let text := Py.str repr (Py.get_default (data segment) "text" (PyStr "")) in
    if Text.is_empty text then [] else [MessageSegment_text text].
Proof.
  intros Hk. unfold rendered, build_step. rewrite Hk. simpl.
  destruct (Text.is_empty _); reflexivity.
Qed.

Lemma rendered_fresh_text repr text :
  text <> "" -> rendered repr (MessageSegment_text text) = [MessageSegment_text text].
Proof.
  intros Hne. rewrite rendered_text by reflexivity. simpl.
  apply is_empty_false in Hne. now rewrite Hne.
Qed.

Lemma rendered_image repr segment :
  type segment = "image" -> rendered repr segment = [segment].
Proof. intros Hk. unfold rendered, build_step. now rewrite Hk. Qed.

Lemma rendered_face repr segment :
  type segment = "face" ->
  rendered repr segment =
    if _is_unsupported_face segment
    then [MessageSegment_text (_unsupported_face_placeholder repr segment)]
    else [segment].
Proof.
  intros Hk. unfold rendered, build_step. rewrite Hk. simpl.
  destruct (_is_unsupported_face segment); reflexivity.
Qed.

Lemma rendered_video repr segment :
  type segment = "video" -> rendered repr segment = [MessageSegment_text "[视频]"].
Proof. intros Hk. unfold rendered, build_step. now rewrite Hk. Qed.

Lemma rendered_file repr segment :
  type segment = "file" -> rendered repr segment = [MessageSegment_text "[文件]"].
Proof. intros Hk. unfold rendered, build_step. now rewrite Hk. Qed.

Lemma rendered_other repr segment :
  type segment ∉ ["at"; "reply"; "record"; "text"; "image"; "face"; "video"; "file"] ->
  rendered repr segment = [MessageSegment_text ("[" +:+ type segment +:+ "]")].
Proof.
  intros Hout. unfold rendered, build_step.
  rewrite !not_elem_of_cons in Hout.
  destruct Hout as (H1 & H2 & H3 & H4 & H5 & H6 & H7 & H8 & _).
  apply String.eqb_neq in H1, H2, H3, H4, H5, H6, H7, H8.
  simpl. now rewrite H1, H2, H3, H4, H5, H6, H7, H8.
Qed.

(** C3, as the code has it. The normalizer renders the segments one by one
    in their order: [at], [reply] and [record] segments give nothing; a [text]
    segment gives a text segment holding [str] of its text when that string is
    not empty (so a text segment with a non-empty string is kept as it is,
    blank text included) and nothing when it is empty; an [image] is kept; a
    [video] becomes the text "[视频]", a [file] the text "[文件]", and a kind
    not named here or in the face rule the text "[<kind>]". So
    [text("hi"), at, image, record] gives [text("hi"), image]. *)
Theorem normalizer_by_kind (repr : pyval -> string) :
  (forall message,
      _build_non_voice_message repr message = flat_map (rendered repr) message)
  /\ (forall segment,
        type segment ∈ ["at"; "reply"; "record"] -> rendered repr segment = [])
  /\ (forall segment, type segment = "text" ->
        let text := Py.str repr (Py.get_default (data segment) "text" (PyStr "")) in
        (text <> "" -> rendered repr segment = [MessageSegment_text text])
        /\ (text = "" -> rendered repr segment = []))
  /\ (forall text, text <> "" ->
        rendered repr (MessageSegment_text text) = [MessageSegment_text text])
  /\ (forall segment, type segment = "image" -> rendered repr segment = [segment])
  /\ (forall segment, type segment = "video" ->
        rendered repr segment = [MessageSegment_text "[视频]"])
  /\ (forall segment, type segment = "file" ->
        rendered repr segment = [MessageSegment_text "[文件]"])
  /\ (forall segment,
        type segment ∉ ["at"; "reply"; "record"; "text"; "image"; "face"; "video"; "file"] ->
        rendered repr segment = [MessageSegment_text ("[" +:+ type segment +:+ "]")])
  /\ (forall at_data image_data record_data,
        _build_non_voice_message repr
          [MessageSegment_text "hi"; {| type := "at"; data := at_data |};
           {| type := "image"; data := image_data |};
           {| type := "record"; data := record_data |}]
        = [MessageSegment_text "hi"; {| type := "image"; data := image_data |}]).
Proof.
  split; [apply build_flat_map|].
  split; [apply rendered_dropped|].
  split.
  { intros segment Hk text. rewrite (rendered_text repr segment Hk).
    subst text. cbv zeta.
    split; intros Ht.
    - apply is_empty_false in Ht. now rewrite Ht.
    - apply is_empty_true in Ht. now rewrite Ht. }
  split; [apply rendered_fresh_text|].
  split; [apply rendered_image|].
  split; [apply rendered_video|].
  split; [apply rendered_file|].
  split; [apply rendered_other|].
  reflexivity.
Qed.

(** C3 as worded fails: were a text segment kept exactly when its text is
    non-empty after trimming, the blank text " " would be dropped, but the
    code does not trim and keeps it. *)
Lemma blank_text_is_kept :
  ~ (forall repr segment, type segment = "text" ->
       (rendered repr segment = [segment]
        <-> Text.strip (Py.str repr (Py.get_default (data segment) "text" (PyStr ""))) <> "")).
Proof.
  intros Hclaim.
  destruct (Hclaim no_repr (MessageSegment_text " ") eq_refl) as [Hkept _].
  apply Hkept; reflexivity.
Qed.

(** ** Faces *)


Lemma placeholder_cases repr segment :
  _unsupported_face_placeholder repr segment =
    if negb (Text.is_empty (face_text repr segment))
    then "[表情:" +:+ face_text repr segment +:+ "]"
    else match Py.get (data segment) "id" with
         | None | Some PyNone => "[表情]"
         | Some face_id => "[表情:" +:+ Py.str repr face_id +:+ "]"
         end.
Proof.
  unfold _unsupported_face_placeholder, face_text, Py.get_or_none, Py.get_default.
  destruct (Py.get (data segment) "raw") as [[| | | | | |raw]|];
    destruct (Py.get (data segment) "id") as [[| | | | | |]|]; reflexivity.
Qed.




(** ** Normalizing twice *)

Lemma placeholder_not_empty repr segment :
  Text.is_empty (_unsupported_face_placeholder repr segment) = false.
Proof.
  rewrite placeholder_cases.
  destruct (negb _); [reflexivity|].
  destruct (Py.get (data segment) "id") as [[| | | | | |]|]; reflexivity.
Qed.

(** Every text segment the normalizer makes holds a non-empty string, so
    rendering a rendered segment gives it back. *)
Lemma rendered_twice repr segment :
  flat_map (rendered repr) (rendered repr segment) = rendered repr segment.
Proof.
  assert (forall text, Text.is_empty text = false ->
          flat_map (rendered repr) [MessageSegment_text text] = [MessageSegment_text text])
    as Htext.
  { intros text Hne. simpl. rewrite app_nil_r.
    apply rendered_fresh_text. now apply is_empty_false. }
  destruct (decide (type segment ∈ ["at"; "reply"; "record"])) as [Hd|Hd].
  { now rewrite rendered_dropped. }
  destruct (decide (type segment = "text")) as [Ht|Ht].
  { rewrite (rendered_text repr segment Ht). cbv zeta.
    destruct (Text.is_empty _) eqn:He; [reflexivity|]. now apply Htext. }
  destruct (decide (type segment = "image")) as [Hi|Hi].
  { rewrite (rendered_image repr segment Hi). simpl.
    now rewrite app_nil_r, rendered_image. }
  destruct (decide (type segment = "face")) as [Hf|Hf].
  { rewrite (rendered_face repr segment Hf).
    destruct (_is_unsupported_face segment) eqn:Hu.
    - apply Htext, placeholder_not_empty.
    - simpl. now rewrite app_nil_r, rendered_face, Hu. }
  destruct (decide (type segment = "video")) as [Hv|Hv].
  { rewrite (rendered_video repr segment Hv). now apply Htext. }
  destruct (decide (type segment = "file")) as [Hl|Hl].
  { rewrite (rendered_file repr segment Hl). now apply Htext. }
  rewrite rendered_other.
  - now apply Htext.
  - rewrite !not_elem_of_cons in Hd. rewrite !not_elem_of_cons. tauto.
Qed.


(** C9. On a normalized output that holds only [text] and [image] segments
    the normalizer changes nothing. *)
Theorem normalizer_idempotent (repr : pyval -> string) (message : Message)
    (Honly : forall segment,
        segment ∈ _build_non_voice_message repr message ->
        type segment = "text" \/ type segment = "image") :
  _build_non_voice_message repr (_build_non_voice_message repr message)
  = _build_non_voice_message repr message.
Proof.
  rewrite !build_flat_map.
  induction message as [|segment message IH]; [reflexivity|].
  simpl. rewrite flat_map_app, rendered_twice. f_equal.
  apply IH. intros seg Hin. apply Honly.
  rewrite build_flat_map in *. simpl. apply elem_of_app. now right.
Qed.

(** ** Running the handlers *)

Ltac run :=
  repeat (unfold mbind, M_bind, mret, M_ret, await, raise, try_except,
            await_send_group_msg, cache_pop, cache_set, cache_len, cache_first;
          simpl).

Lemma key_eqb_eq a b : key_eqb a b = true <-> a = b.
Proof.
  destruct a as [a1 a2], b as [b1 b2]. unfold key_eqb. simpl.
  rewrite andb_true_iff, !Z.eqb_eq. split; [intros [-> ->] | intros [= -> ->]]; auto.
Qed.

Lemma key_eqb_refl a : key_eqb a a = true.
Proof. now apply key_eqb_eq. Qed.

Lemma key_eqb_neq a b : key_eqb a b = false <-> a <> b.
Proof.
  rewrite <- key_eqb_eq. destruct (key_eqb a b); split; congruence.
Qed.

Lemma pop_absent {V} (d : list (cache_key * V)) key :
  (forall v, (key, v) ∉ d) -> pop d key = (None, d).
Proof.
  induction d as [|[k v] d IH]; intros Habsent; [reflexivity|].
  simpl. destruct (key_eqb k key) eqn:Hk.
  - apply key_eqb_eq in Hk. subst k. destruct (Habsent v). left.
  - rewrite IH; [reflexivity|]. intros w Hin. apply (Habsent w). now right.
Qed.

Lemma pop_found_in {V} (d : list (cache_key * V)) key v :
  fst (pop d key) = Some v -> (key, v) ∈ d.
Proof.
  induction d as [|[k w] d IH]; simpl; [discriminate|].
  destruct (key_eqb k key) eqn:Hk.
  - apply key_eqb_eq in Hk. subst k. simpl. intros [= ->]. left.
  - destruct (pop d key) as [found rest]. simpl in *. intros Hf. right. auto.
Qed.

Lemma pop_length {V} (d : list (cache_key * V)) key :
  (length (snd (pop d key)) <= length d)%nat.
Proof.
  induction d as [|[k w] d IH]; simpl; [lia|].
  destruct (key_eqb k key); simpl; [lia|].
  destruct (pop d key) as [found rest]. simpl in *. lia.
Qed.

(** The name lookup always answers, and leaves the state alone. *)
Lemma get_member_name_returns repr bot group_id user_id :
  exists name, forall s, _get_member_name repr bot group_id user_id s = (Ok name, s).
Proof.
  unfold _get_member_name. run.
  destruct (get_group_member_info bot group_id user_id) as [member|]; run; eauto.
Qed.

(** So does the live fetch. *)
Lemma get_recalled_message_returns Message_of bot message_id :
  exists fetched, forall s,
    _get_recalled_message Message_of bot message_id s = (Ok fetched, s).
Proof.
  unfold _get_recalled_message. run.
  destruct (get_msg bot message_id) as [answer|]; run; eauto.
  destruct (Py.get_default answer "message" (Raw (PyStr ""))) as [m|value]; run; eauto.
  destruct (Message_of value); run; eauto.
Qed.

(** A send records its call and gives what the bot answers. *)
Lemma await_send_run bot group_id message s :
  await_send_group_msg bot group_id message s
  = (send_outcome bot (sent s) (group_id, message),
     {| _message_cache := _message_cache s; sent := sent s ++ [(group_id, message)] |}).
Proof.
  unfold await_send_group_msg, send_outcome, await. simpl.
  destruct (send_group_msg bot (sent s) group_id message) as [[]|]; reflexivity.
Qed.

Lemma send_outcome_cases bot history call :
  send_outcome bot history call = Ok tt
  \/ send_outcome bot history call = Raise ActionFailed.
Proof.
  unfold send_outcome. destruct (send_group_msg _ _ _ _); [left | right]; reflexivity.
Qed.

Lemma send_all_one bot call s :
  send_all bot [call] s
  = (send_outcome bot (sent s) call,
     {| _message_cache := _message_cache s; sent := sent s ++ [call] |}).
Proof.
  unfold send_all. cbn [for_each]. unfold mbind, M_bind. rewrite await_send_run.
  destruct call as [g m]. simpl.
  destruct (send_outcome_cases bot (sent s) (g, m)) as [-> | ->]; reflexivity.
Qed.

Lemma send_all_cons bot call calls s :
  send_all bot (call :: calls) s
  = match send_outcome bot (sent s) call with
    | Ok _ => send_all bot calls
                {| _message_cache := _message_cache s; sent := sent s ++ [call] |}
    | Raise e => (Raise e, {| _message_cache := _message_cache s;
                              sent := sent s ++ [call] |})
    end.
Proof.
  unfold send_all. cbn [for_each]. unfold mbind, M_bind. rewrite await_send_run.
  destruct call as [g m]. simpl.
  destruct (send_outcome bot (sent s) (g, m)) as [[]|e]; reflexivity.
Qed.

(** Sends in turn: the calls are made in order up to the first one the
    bot refuses, which ends the run with [ActionFailed]. *)
Lemma send_all_spec bot calls s :
  exists outcome made,
    send_all bot calls s
    = (outcome, {| _message_cache := _message_cache s; sent := sent s ++ made |})
    /\ made `prefix_of` calls
    /\ (forall first rest, calls = first :: rest -> exists rest', made = first :: rest')
    /\ (all_answered bot (sent s) calls -> outcome = Ok tt /\ made = calls)
    /\ (outcome = Ok tt -> all_answered bot (sent s) calls)
    /\ (forall e, outcome = Raise e ->
          e = ActionFailed
          /\ exists before call,
               made = before ++ [call]
               /\ all_answered bot (sent s) before
               /\ send_outcome bot (sent s ++ before) call = Raise ActionFailed).
Proof.
  revert s. induction calls as [|call calls IH]; intros s.
  - exists (Ok tt), []. split; [unfold send_all; simpl; now rewrite app_nil_r; destruct s|].
    split; [reflexivity|]. split; [discriminate|]. split; [auto|]. split; [constructor|].
    discriminate.
  - rewrite send_all_cons.
    destruct (send_outcome_cases bot (sent s) call) as [Hok | Hno]; rewrite ?Hok, ?Hno.
    + destruct (IH {| _message_cache := _message_cache s; sent := sent s ++ [call] |})
        as (outcome & made & -> & Hprefix & _ & Hall & Hback & Hraise).
      cbn [_message_cache sent] in *.
      exists outcome, (call :: made). rewrite <- app_assoc.
      split; [reflexivity|]. split; [now apply prefix_cons|].
      split; [intros first rest [= <- <-]; eauto|].
      split.
      { intros [_ Hrest]. destruct (Hall Hrest) as [-> ->]. auto. }
      split.
      { intros Hout. split; [exact Hok | now apply Hback]. }
      intros e He. destruct (Hraise e He) as (-> & before & last & -> & Hbefore & Hlast).
      split; [reflexivity|]. exists (call :: before), last.
      split; [reflexivity|]. split; [now split|].
      now rewrite <- app_assoc in Hlast.
    + exists (Raise ActionFailed), [call].
      split; [reflexivity|]. split; [apply prefix_cons, prefix_nil|].
      split; [intros first rest [= <- <-]; eauto|].
      split; [intros [Hok _]; congruence|]. split; [discriminate|].
      intros e [= <-]. split; [reflexivity|]. exists [], call.
      split; [reflexivity|]. split; [constructor|]. now rewrite app_nil_r.
Qed.

Lemma for_each_map {A B} (f : A -> B) (l : list A) (body : B -> M unit) s :
  for_each (map f l) body s = for_each l (fun x => body (f x)) s.
Proof.
  revert s. induction l as [|x l IH]; intros s; [reflexivity|].
  cbn [map for_each]. unfold mbind, M_bind.
  destruct (body (f x) s) as [[[]|e] s']; [apply IH | reflexivity].
Qed.

(** ** The recall handler *)

Lemma send_one bot group_id message s :
  await_send_group_msg bot group_id message s = send_all bot [(group_id, message)] s.
Proof. now rewrite await_send_run, send_all_one. Qed.

Lemma send_voice bot group_id summary (segments : list MessageSegment) s :
  (await_send_group_msg bot group_id summary;;
   for_each segments (fun segment => await_send_group_msg bot group_id (Segments [segment]))) s
  = send_all bot
      ((group_id, summary) :: map (fun segment => (group_id, Segments [segment])) segments) s.
Proof.
  unfold send_all. cbn [for_each fst snd]. unfold mbind, M_bind.
  destruct (await_send_group_msg bot group_id summary s) as [[[]|e] s']; [|reflexivity].
  now rewrite for_each_map.
Qed.

(** After the two gates, the handler's run is fixed by the name and the
    resolved content. *)
Lemma group_recall_accepted repr cfg Message_of bot event s name content :
  _in_whitelist cfg (GroupRecallNoticeEvent.group_id event) = true ->
  GroupRecallNoticeEvent.user_id event = GroupRecallNoticeEvent.operator_id event ->
  (forall s0, _get_member_name repr bot (GroupRecallNoticeEvent.group_id event)
                (GroupRecallNoticeEvent.user_id event) s0 = (Ok name, s0)) ->
  resolved Message_of bot s
    (GroupRecallNoticeEvent.group_id event, GroupRecallNoticeEvent.message_id event)
    content ->
  group_recall repr cfg Message_of bot event s =
    match content with
    | None =>
        send_all bot [(GroupRecallNoticeEvent.group_id event,
                       Plain (name +:+ "撤回了一条消息：[内容未捕获]"))]
    | Some recalled =>
        match List.filter is_record recalled with
        | _ :: _ =>
            send_all bot
              ((GroupRecallNoticeEvent.group_id event, Plain (name +:+ "撤回了一条语音"))
               :: map (fun segment =>
                         (GroupRecallNoticeEvent.group_id event, Segments [segment]))
                    (List.filter is_record recalled))
        | [] =>
            match _build_non_voice_message repr recalled with
            | [] =>
                send_all bot [(GroupRecallNoticeEvent.group_id event,
                               Plain (name +:+ "撤回了一条消息：[空消息]"))]
            | _ :: _ =>
                match Message_of (PyStr (name +:+ "撤回了一条消息：")) with
                | Ok out =>
                    send_all bot
                      [(GroupRecallNoticeEvent.group_id event,
                        Segments (out ++ _build_non_voice_message repr recalled))]
                | Raise e => raise e
                end
            end
        end
    end
      {| _message_cache :=
           snd (pop (_message_cache s)
                  (GroupRecallNoticeEvent.group_id event,
                   GroupRecallNoticeEvent.message_id event));
         sent := sent s |}.
Proof.
  intros Hwl Hself Hname Hres.
  apply Z.eqb_eq in Hself.
  unfold group_recall. rewrite Hwl, Hself. simpl.
  unfold mbind at 1, M_bind at 1. rewrite Hname.
  unfold mbind at 1, M_bind at 1, cache_pop.
  destruct (get_recalled_message_returns Message_of bot
              (GroupRecallNoticeEvent.message_id event)) as [fetched Hfetch].
  assert (forall st,
    match content with
    | None =>
        await_send_group_msg bot (GroupRecallNoticeEvent.group_id event)
          (Plain (name +:+ "撤回了一条消息：[内容未捕获]"))
    | Some recalled =>
        match List.filter (fun segment => String.eqb (type segment) "record") recalled with
        | _ :: _ =>
            await_send_group_msg bot (GroupRecallNoticeEvent.group_id event)
              (Plain (name +:+ "撤回了一条语音"));;
            for_each (List.filter (fun segment => String.eqb (type segment) "record") recalled)
              (fun segment =>
                 await_send_group_msg bot (GroupRecallNoticeEvent.group_id event)
                   (Segments [segment]))
        | [] =>
            match _build_non_voice_message repr recalled with
            | [] =>
                await_send_group_msg bot (GroupRecallNoticeEvent.group_id event)
                  (Plain (name +:+ "撤回了一条消息：[空消息]"))
            | _ :: _ =>
                match Message_of (PyStr (name +:+ "撤回了一条消息：")) with
                | Ok out =>
                    await_send_group_msg bot (GroupRecallNoticeEvent.group_id event)
                      (Segments (out ++ _build_non_voice_message repr recalled))
                | Raise e => raise e
                end
            end
        end
    end st
    = match content with
      | None =>
          send_all bot [(GroupRecallNoticeEvent.group_id event,
                         Plain (name +:+ "撤回了一条消息：[内容未捕获]"))]
      | Some recalled =>
          match List.filter is_record recalled with
          | _ :: _ =>
              send_all bot
                ((GroupRecallNoticeEvent.group_id event, Plain (name +:+ "撤回了一条语音"))
                 :: map (fun segment =>
                           (GroupRecallNoticeEvent.group_id event, Segments [segment]))
                      (List.filter is_record recalled))
          | [] =>
              match _build_non_voice_message repr recalled with
              | [] =>
                  send_all bot [(GroupRecallNoticeEvent.group_id event,
                                 Plain (name +:+ "撤回了一条消息：[空消息]"))]
              | _ :: _ =>
                  match Message_of (PyStr (name +:+ "撤回了一条消息：")) with
                  | Ok out =>
                      send_all bot
                        [(GroupRecallNoticeEvent.group_id event,
                          Segments (out ++ _build_non_voice_message repr recalled))]
                  | Raise e => raise e
                  end
              end
          end
      end st) as Hsends.
  { intros st. destruct content as [recalled|]; [|apply send_one].
    change (fun segment : MessageSegment => String.eqb (type segment) "record")
      with is_record.
    destruct (List.filter is_record recalled) as [|voice voices]; [|apply send_voice].
    destruct (_build_non_voice_message repr recalled); [apply send_one|].
    destruct (Message_of _); [apply send_one | reflexivity]. }
  inversion Hres as [message Hpop | fetched' Hpop Hf]; subst;
    destruct (pop _ _) as [found cache'] eqn:Hp; simpl in Hpop; subst found; simpl.
  - apply (Hsends {| _message_cache := cache'; sent := sent s |}).
  - simpl in Hf. rewrite Hfetch in Hf. simpl in Hf. injection Hf as ->.
    unfold mbind at 1, M_bind at 1. rewrite Hfetch.
    apply (Hsends {| _message_cache := cache'; sent := sent s |}).
Qed.

(** C1, as the code has it. A self-recall in a whitelisted group whose
    resolved content holds n voice segments sets out to make 1 + n calls of
    [send_group_msg]: the text "<name>撤回了一条语音", then one message per voice
    segment holding that segment alone, in the segments' order. The calls are
    made in this order, the summary always, and nothing else is sent. When the
    bot answers every call these are exactly the 1 + n sends, two for one voice
    segment, and the handler returns; a call the bot refuses is the last one
    made, and the handler ends with its [ActionFailed]. *)
Theorem voice_recall_sends (repr : pyval -> string) (cfg : Config)
    (Message_of : pyval -> result Message) (bot : Bot)
    (event : GroupRecallNoticeEvent.t) (s : State) (recalled : Message)
    (Hwhitelisted : _in_whitelist cfg (GroupRecallNoticeEvent.group_id event) = true)
    (Hself : GroupRecallNoticeEvent.user_id event = GroupRecallNoticeEvent.operator_id event)
    (Hresolved : resolved Message_of bot s
                   (GroupRecallNoticeEvent.group_id event,
                    GroupRecallNoticeEvent.message_id event)
                   (Some recalled))
    (Hvoice : List.filter is_record recalled <> []) :
  exists name made,
    let calls :=
      (GroupRecallNoticeEvent.group_id event, Plain (name +:+ "撤回了一条语音"))
      :: map (fun segment => (GroupRecallNoticeEvent.group_id event, Segments [segment]))
           (List.filter is_record recalled) in
    (forall s0, _get_member_name repr bot (GroupRecallNoticeEvent.group_id event)
                  (GroupRecallNoticeEvent.user_id event) s0 = (Ok name, s0))
    /\ sent (snd (group_recall repr cfg Message_of bot event s)) = sent s ++ made
    (* the calls made *)
    /\ made `prefix_of` calls
    /\ (exists voices,
          made = (GroupRecallNoticeEvent.group_id event, Plain (name +:+ "撤回了一条语音"))
                 :: voices)
    (* when the bot answers *)
    /\ (all_answered bot (sent s) calls ->
        fst (group_recall repr cfg Message_of bot event s) = Ok tt
        /\ made = calls
        /\ length made = (1 + length (List.filter is_record recalled))%nat
        /\ forall segment, List.filter is_record recalled = [segment] ->
             made = [(GroupRecallNoticeEvent.group_id event, Plain (name +:+ "撤回了一条语音"));
                     (GroupRecallNoticeEvent.group_id event, Segments [segment])])
    (* when it refuses *)
    /\ (fst (group_recall repr cfg Message_of bot event s) = Ok tt ->
        all_answered bot (sent s) calls)
    /\ (forall e, fst (group_recall repr cfg Message_of bot event s) = Raise e ->
          e = ActionFailed
          /\ exists before call,
               made = before ++ [call]
               /\ all_answered bot (sent s) before
               /\ send_outcome bot (sent s ++ before) call = Raise ActionFailed).
Proof.
  destruct (get_member_name_returns repr bot (GroupRecallNoticeEvent.group_id event)
              (GroupRecallNoticeEvent.user_id event)) as [name Hname].
  exists name.
  rewrite (group_recall_accepted _ _ _ _ _ _ name (Some recalled)
             Hwhitelisted Hself Hname Hresolved).
  destruct (List.filter is_record recalled) as [|voice voices] eqn:Hfilter; [congruence|].
  destruct (send_all_spec bot
              ((GroupRecallNoticeEvent.group_id event, Plain (name +:+ "撤回了一条语音"))
               :: map (fun segment =>
                         (GroupRecallNoticeEvent.group_id event, Segments [segment]))
                    (voice :: voices))
              {| _message_cache :=
                   snd (pop (_message_cache s)
                          (GroupRecallNoticeEvent.group_id event,
                           GroupRecallNoticeEvent.message_id event));
                 sent := sent s |})
    as (outcome & made & -> & Hprefix & Hfirst & Hall & Hback & Hraise).
  cbn [fst snd sent _message_cache] in *.
  exists made. cbv zeta.
  split; [exact Hname|]. split; [reflexivity|]. split; [exact Hprefix|].
  split; [exact (Hfirst _ _ eq_refl)|].
  split; [|split; [exact Hback | exact Hraise]].
  intros Hanswered. destruct (Hall Hanswered) as [-> ->].
  split; [reflexivity|]. split; [reflexivity|].
  split; [simpl; now rewrite length_map|].
  intros segment [= -> ->]. reflexivity.
Qed.

(** C1 as worded fails when the bot refuses a send. Ann recalls her
    cached message of one voice clip while the bot is muted: the summary is the
    one call made, not two, the voice clip is never sent, and the handler ends
    with [ActionFailed]. When only the voice message is refused, both calls are
    made and the handler ends with [ActionFailed] all the same. *)
Lemma refused_send_ends_voice_recall :
  _in_whitelist Sample.config (GroupRecallNoticeEvent.group_id Sample.self_recall) = true
  /\ GroupRecallNoticeEvent.user_id Sample.self_recall
     = GroupRecallNoticeEvent.operator_id Sample.self_recall
  /\ resolved Sample.Message_of Sample.muted_bot Sample.one_voice (100, 42)
       (Some [Sample.record "a.amr"])
  /\ List.filter is_record [Sample.record "a.amr"] = [Sample.record "a.amr"]
  /\ group_recall no_repr Sample.config Sample.Message_of Sample.muted_bot
       Sample.self_recall Sample.one_voice
     = (Raise ActionFailed,
        {| _message_cache := []; sent := [(100, Plain "Ann撤回了一条语音")] |})
  /\ length (sent (snd (group_recall no_repr Sample.config Sample.Message_of
                          Sample.muted_bot Sample.self_recall Sample.one_voice)))
     <> 2%nat
  /\ group_recall no_repr Sample.config Sample.Message_of Sample.text_only_bot
       Sample.self_recall Sample.one_voice
     = (Raise ActionFailed,
        {| _message_cache := [];
           sent := [(100, Plain "Ann撤回了一条语音");
                    (100, Segments [Sample.record "a.amr"])] |}).
Proof.
  assert (group_recall no_repr Sample.config Sample.Message_of Sample.muted_bot
            Sample.self_recall Sample.one_voice
          = (Raise ActionFailed,
             {| _message_cache := []; sent := [(100, Plain "Ann撤回了一条语音")] |}))
    as Hrun by (vm_compute; reflexivity).
  split; [vm_compute; reflexivity|]. split; [reflexivity|].
  split; [apply resolved_cached; reflexivity|]. split; [reflexivity|].
  split; [exact Hrun|]. split; [rewrite Hrun; discriminate|].
  vm_compute. reflexivity.
Qed.

(** C5. A self-recall in a whitelisted group whose message is not in the
    cache and whose live fetch fails, or answers with content the adapter
    cannot read, makes exactly one call of [send_group_msg], with the text
    "<name>撤回了一条消息：[内容未捕获]", and leaves the cache alone. The
    failed fetch does not end the handler: what the handler gives is what that
    one send gives, so the handler returns normally when the bot answers the
    send. *)
Theorem uncaptured_recall_notice (repr : pyval -> string) (cfg : Config)
    (Message_of : pyval -> result Message) (bot : Bot)
    (event : GroupRecallNoticeEvent.t) (s : State)
    (Hwhitelisted : _in_whitelist cfg (GroupRecallNoticeEvent.group_id event) = true)
    (Hself : GroupRecallNoticeEvent.user_id event = GroupRecallNoticeEvent.operator_id event)
    (Hmiss : forall message,
        ((GroupRecallNoticeEvent.group_id event, GroupRecallNoticeEvent.message_id event),
         message) ∉ _message_cache s)
    (Hfetch : get_msg bot (GroupRecallNoticeEvent.message_id event) = Failed
              \/ exists answer value e,
                   get_msg bot (GroupRecallNoticeEvent.message_id event) = Returned answer
                   /\ Py.get_default answer "message" (Raw (PyStr "")) = Raw value
                   /\ Message_of value = Raise e) :
  exists name,
    (forall s0, _get_member_name repr bot (GroupRecallNoticeEvent.group_id event)
                  (GroupRecallNoticeEvent.user_id event) s0 = (Ok name, s0))
    /\ group_recall repr cfg Message_of bot event s =
         (send_outcome bot (sent s)
            (GroupRecallNoticeEvent.group_id event,
             Plain (name +:+ "撤回了一条消息：[内容未捕获]")),
          {| _message_cache := _message_cache s;
             sent := sent s ++ [(GroupRecallNoticeEvent.group_id event,
                                 Plain (name +:+ "撤回了一条消息：[内容未捕获]"))] |})
    /\ (forall answer,
          send_group_msg bot (sent s) (GroupRecallNoticeEvent.group_id event)
            (Plain (name +:+ "撤回了一条消息：[内容未捕获]")) = Returned answer ->
          fst (group_recall repr cfg Message_of bot event s) = Ok tt).
Proof.
  destruct (get_member_name_returns repr bot (GroupRecallNoticeEvent.group_id event)
              (GroupRecallNoticeEvent.user_id event)) as [name Hname].
  exists name. split; [exact Hname|].
  pose proof (pop_absent _ _ Hmiss) as Hpop.
  assert (resolved Message_of bot s
            (GroupRecallNoticeEvent.group_id event, GroupRecallNoticeEvent.message_id event)
            None) as Hres.
  { apply resolved_fetched; [now rewrite Hpop|].
    unfold _get_recalled_message. run.
    destruct Hfetch as [-> | (answer & value & e & -> & Hraw & Hbad)]; run; [reflexivity|].
    rewrite Hraw, Hbad. reflexivity. }
  rewrite (group_recall_accepted _ _ _ _ _ _ name None Hwhitelisted Hself Hname Hres).
  rewrite Hpop, send_all_one. cbn [fst snd sent _message_cache].
  split; [reflexivity|].
  intros answer Hanswer. unfold send_outcome. cbn [fst snd]. now rewrite Hanswer.
Qed.

Lemma group_recall_rejected repr cfg Message_of bot event s :
  _in_whitelist cfg (GroupRecallNoticeEvent.group_id event) = false
  \/ GroupRecallNoticeEvent.user_id event <> GroupRecallNoticeEvent.operator_id event ->
  group_recall repr cfg Message_of bot event s = (Ok tt, s).
Proof.
  intros Hrejected. unfold group_recall.
  destruct (_in_whitelist cfg (GroupRecallNoticeEvent.group_id event)); simpl.
  - destruct Hrejected as [? | Hother]; [discriminate|].
    apply Z.eqb_neq in Hother. rewrite Hother. reflexivity.
  - reflexivity.
Qed.

(** C6. A recall notice from a group outside the whitelist, or of a
    message recalled by someone other than its author, does nothing: nothing is
    sent and the cache keeps every entry. *)
Theorem rejected_recall_is_noop (repr : pyval -> string) (cfg : Config)
    (Message_of : pyval -> result Message) (bot : Bot)
    (event : GroupRecallNoticeEvent.t) (s : State)
    (Hrejected : _in_whitelist cfg (GroupRecallNoticeEvent.group_id event) = false
                 \/ GroupRecallNoticeEvent.user_id event
                    <> GroupRecallNoticeEvent.operator_id event) :
  group_recall repr cfg Message_of bot event s = (Ok tt, s).
Proof.
  unfold group_recall.
  destruct (_in_whitelist cfg (GroupRecallNoticeEvent.group_id event)); simpl.
  - destruct Hrejected as [? | Hother]; [discriminate|].
    apply Z.eqb_neq in Hother. rewrite Hother. reflexivity.
  - reflexivity.
Qed.

Lemma field_text_of_str repr member key text :
  Py.get member key = Some (PyStr text) -> field_text repr member key = Text.strip text.
Proof.
  intros Hget. unfold field_text, Py.get_or_none, Py.get_default, Py.or.
  rewrite Hget. simpl. now destruct text.
Qed.

(** The sends of an accepted recall: a notice that starts with the name,
    then nothing but the voice segments of the recalled message, one a
    message. There is no send at all only when the adapter refuses the text of
    the notice. *)
Lemma notices_carry_the_name repr cfg Message_of bot event s name :
  _in_whitelist cfg (GroupRecallNoticeEvent.group_id event) = true ->
  GroupRecallNoticeEvent.user_id event = GroupRecallNoticeEvent.operator_id event ->
  (forall s0, _get_member_name repr bot (GroupRecallNoticeEvent.group_id event)
                (GroupRecallNoticeEvent.user_id event) s0 = (Ok name, s0)) ->
  exists new,
    sent (snd (group_recall repr cfg Message_of bot event s)) = sent s ++ new
    /\ match new with
       | [] => exists e, Message_of (PyStr (name +:+ "撤回了一条消息：")) = Raise e
       | first :: voices =>
           names_member Message_of name (snd first)
           /\ Forall (fun call => exists segment,
                          is_record segment = true /\ snd call = Segments [segment])
                voices
       end.
Proof.
  intros Hwl Hself Hname.
  destruct (get_recalled_message_returns Message_of bot
              (GroupRecallNoticeEvent.message_id event)) as [fetched Hfetch].
  assert (exists content,
            resolved Message_of bot s
              (GroupRecallNoticeEvent.group_id event, GroupRecallNoticeEvent.message_id event)
              content) as [content Hres].
  { destruct (fst (pop (_message_cache s)
                     (GroupRecallNoticeEvent.group_id event,
                      GroupRecallNoticeEvent.message_id event))) as [m|] eqn:Hpop.
    - exists (Some m). now apply resolved_cached.
    - exists fetched. apply resolved_fetched; [exact Hpop|]. simpl. now rewrite Hfetch. }
  rewrite (group_recall_accepted _ _ _ _ _ _ name content Hwl Hself Hname Hres).
  assert (forall message cache',
            names_member Message_of name message ->
            exists new,
              sent (snd (send_all bot [(GroupRecallNoticeEvent.group_id event, message)]
                           {| _message_cache := cache'; sent := sent s |}))
              = sent s ++ new
              /\ match new with
                 | [] => exists e, Message_of (PyStr (name +:+ "撤回了一条消息：")) = Raise e
                 | first :: voices =>
                     names_member Message_of name (snd first)
                     /\ Forall (fun call => exists segment,
                                    is_record segment = true
                                    /\ snd call = Segments [segment])
                          voices
                 end) as Hone.
  { intros message cache' Hnames. rewrite send_all_one. eexists. split; [reflexivity|].
    split; [exact Hnames | constructor]. }
  destruct content as [recalled|];
    [|apply Hone; left; reflexivity].
  destruct (List.filter is_record recalled) as [|voice voices] eqn:Hfilter.
  - destruct (_build_non_voice_message repr recalled) as [|c content] eqn:Hbuild;
      [apply Hone; right; right; left; reflexivity|].
    destruct (Message_of _) as [out|e] eqn:Hout.
    + apply Hone. right. right. right. exists out, (c :: content). now rewrite Hout.
    + exists []. split; [simpl; now rewrite app_nil_r | eauto].
  - destruct (send_all_spec bot
                ((GroupRecallNoticeEvent.group_id event, Plain (name +:+ "撤回了一条语音"))
                 :: map (fun segment =>
                           (GroupRecallNoticeEvent.group_id event, Segments [segment]))
                      (voice :: voices))
                {| _message_cache :=
                     snd (pop (_message_cache s)
                            (GroupRecallNoticeEvent.group_id event,
                             GroupRecallNoticeEvent.message_id event));
                   sent := sent s |})
      as (outcome & made & -> & Hprefix & Hfirst & _).
    cbn [snd sent]. exists made. split; [reflexivity|].
    destruct (Hfirst _ _ eq_refl) as [rest ->].
    split; [right; left; reflexivity|].
    apply prefix_cons_inv_2 in Hprefix.
    apply Forall_forall. intros call Hin.
    apply (elem_of_prefix _ _ _ Hin) in Hprefix.
    apply list_elem_of_fmap in Hprefix as (segment & -> & Hseg).
    exists segment. split; [|reflexivity].
    rewrite <- Hfilter in Hseg. now apply list_elem_of_In, filter_In in Hseg as [_ Hrec].
Qed.

(** C10. When the member lookup answers, the name is the trimmed text of
    the [card] field if that is not empty, else the trimmed text of the
    [nickname] field if that is not empty, else [str(user_id)]; when the
    lookup raises [ActionFailed] the name is [str(user_id)]. Either way
    [_get_member_name] returns a name and raises nothing. Trimming takes the
    blanks off both ends of the field's text and nothing else; a field that is
    absent or [None] reads as empty. Every notice of the recall handler starts
    with that name: the first send of an accepted recall is one of the three
    texts "<name>撤回了一条…" or the message built from "<name>撤回了一条消息："
    and the content, and the only sends after it are the voice segments. *)
Theorem member_name_resolution (repr : pyval -> string) (bot : Bot)
    (group_id user_id : Z) (s : State) :
  (forall member, get_group_member_info bot group_id user_id = Returned member ->
     exists name,
       _get_member_name repr bot group_id user_id s = (Ok name, s)
       /\ (field_text repr member "card" <> "" -> name = field_text repr member "card")
       /\ (field_text repr member "card" = "" ->
           field_text repr member "nickname" <> "" ->
           name = field_text repr member "nickname")
       /\ (field_text repr member "card" = "" ->
           field_text repr member "nickname" = "" ->
           name = Text.of_Z user_id))
  /\ (get_group_member_info bot group_id user_id = Failed ->
      _get_member_name repr bot group_id user_id s = (Ok (Text.of_Z user_id), s))
  /\ (exists name, _get_member_name repr bot group_id user_id s = (Ok name, s))
  (* the text of a field *)
  /\ (forall member key text,
        Py.get member key = Some (PyStr text) ->
        field_text repr member key = Text.strip text)
  /\ (forall member key before core after,
        Py.get member key = Some (PyStr (of_code_points (before ++ core ++ after))) ->
        Forall (fun cp => isspace cp = true) before ->
        Forall (fun cp => isspace cp = true) after ->
        trimmed core ->
        field_text repr member key = of_code_points core)
  /\ (forall member key,
        Py.get member key = None \/ Py.get member key = Some PyNone ->
        field_text repr member key = "")
  (* the notices *)
  /\ (forall cfg Message_of event name s1,
        GroupRecallNoticeEvent.group_id event = group_id ->
        GroupRecallNoticeEvent.user_id event = user_id ->
        _in_whitelist cfg group_id = true ->
        GroupRecallNoticeEvent.operator_id event = user_id ->
        _get_member_name repr bot group_id user_id s = (Ok name, s) ->
        exists new,
          sent (snd (group_recall repr cfg Message_of bot event s1)) = sent s1 ++ new
          /\ match new with
             | [] => exists e, Message_of (PyStr (name +:+ "撤回了一条消息：")) = Raise e
             | first :: voices =>
                 names_member Message_of name (snd first)
                 /\ Forall (fun call => exists segment,
                                is_record segment = true
                                /\ snd call = Segments [segment])
                      voices
             end).
Proof.
  split.
  { intros member Hok. unfold _get_member_name. run. rewrite Hok. run.
    fold (field_text repr member "card"). fold (field_text repr member "nickname").
    eexists. split; [reflexivity|].
    destruct (Text.is_empty (field_text repr member "card")) eqn:Hc;
      [apply is_empty_true in Hc | apply is_empty_false in Hc];
      (destruct (Text.is_empty (field_text repr member "nickname")) eqn:Hn;
       [apply is_empty_true in Hn | apply is_empty_false in Hn]);
      simpl; repeat split; intros; congruence. }
  split.
  { intros Hfail. unfold _get_member_name. run. rewrite Hfail. reflexivity. }
  split.
  { destruct (get_member_name_returns repr bot group_id user_id) as [name Hname]. eauto. }
  split; [intros member key text; apply field_text_of_str|].
  split.
  { intros member key before core after Hget Hbefore Hafter Hcore.
    rewrite (field_text_of_str _ _ _ _ Hget). now apply strip_trims. }
  split.
  { intros member key [Hget | Hget];
      unfold field_text, Py.get_or_none, Py.get_default, Py.or;
      rewrite Hget; reflexivity. }
  intros cfg Message_of event name s1 <- <- Hwl Hself Hname.
  apply notices_carry_the_name; [exact Hwl | now rewrite Hself |].
  intros s0.
  destruct (get_member_name_returns repr bot (GroupRecallNoticeEvent.group_id event)
              (GroupRecallNoticeEvent.user_id event)) as [name' Hname'].
  rewrite Hname' in Hname. injection Hname as <-. apply Hname'.
Qed.


(** ** The message cache *)

Lemma set_fresh {V} (d : list (cache_key * V)) key v :
  (forall w, (key, w) ∉ d) -> Py.set key_eqb d key v = d ++ [(key, v)].
Proof.
  induction d as [|[k w] d IH]; intros Hfresh; [reflexivity|].
  simpl. destruct (key_eqb k key) eqn:Hk.
  - apply key_eqb_eq in Hk. subst k. destruct (Hfresh w). left.
  - rewrite IH; [reflexivity|]. intros u Hin. apply (Hfresh u). now right.
Qed.

Lemma set_length {V} (d : list (cache_key * V)) key v :
  (length (Py.set key_eqb d key v) <= S (length d))%nat.
Proof.
  induction d as [|[k w] d IH]; simpl; [lia|].
  destruct (key_eqb k key); simpl; lia.
Qed.

Lemma set_not_empty {V} (d : list (cache_key * V)) key v :
  Py.set key_eqb d key v <> [].
Proof. destruct d as [|[k w] d]; simpl; [|destruct (key_eqb k key)]; discriminate. Qed.

(** The handler of received messages, in one step: the message is put
    under its key, and when that made the cache larger than
    [_cache_max_size] the first entry goes. *)
Lemma cache_group_message_accepted cfg event s :
  _in_whitelist cfg (GroupMessageEvent.group_id event) = true ->
  cache_group_message cfg event s =
    (Ok tt,
     {| _message_cache :=
          if _cache_max_size
             <? Z.of_nat (length (Py.set key_eqb (_message_cache s) (key_of event)
                                    (GroupMessageEvent.get_message event)))
          then tail (Py.set key_eqb (_message_cache s) (key_of event)
                       (GroupMessageEvent.get_message event))
          else Py.set key_eqb (_message_cache s) (key_of event)
                 (GroupMessageEvent.get_message event);
        sent := sent s |}).
Proof.
  intros Hwl. unfold cache_group_message. rewrite Hwl. simpl.
  fold (key_of event). run.
  destruct (_ <? _); [|reflexivity].
  destruct (Py.set key_eqb (_message_cache s) (key_of event)
              (GroupMessageEvent.get_message event)) as [|[k m] rest] eqn:Hset.
  - now destruct (set_not_empty _ _ _ Hset).
  - run. rewrite key_eqb_refl. reflexivity.
Qed.

Lemma cache_group_message_rejected cfg event s :
  _in_whitelist cfg (GroupMessageEvent.group_id event) = false ->
  cache_group_message cfg event s = (Ok tt, s).
Proof. intros Hwl. unfold cache_group_message. now rewrite Hwl. Qed.

Lemma for_each_app {A} (l1 l2 : list A) (body : A -> M unit) s :
  for_each (l1 ++ l2) body s =
    match for_each l1 body s with
    | (Ok _, s') => for_each l2 body s'
    | (Raise e, s') => (Raise e, s')
    end.
Proof.
  revert s. induction l1 as [|x l1 IH]; intros s; simpl; [reflexivity|].
  unfold mbind, M_bind. destruct (body x s) as [[[]|e] s']; [apply IH | reflexivity].
Qed.

(** While the cache has room, messages with new keys are added at the end. *)
Lemma received_within_capacity cfg events cache sent0 :
  (forall e, e ∈ events -> _in_whitelist cfg (GroupMessageEvent.group_id e) = true) ->
  NoDup (map key_of events) ->
  (forall e m, e ∈ events -> (key_of e, m) ∉ cache) ->
  Z.of_nat (length cache + length events) <= _cache_max_size ->
  for_each events (cache_group_message cfg) {| _message_cache := cache; sent := sent0 |}
  = (Ok tt, {| _message_cache := cache ++ map entry_of events; sent := sent0 |}).
Proof.
  revert cache. induction events as [|e events IH]; intros cache Hwl Hnodup Hfresh Hroom.
  - simpl. now rewrite app_nil_r.
  - cbn [for_each]. unfold mbind, M_bind.
    rewrite cache_group_message_accepted by (apply Hwl; left). cbn [_message_cache sent].
    rewrite set_fresh by (intros m; apply Hfresh; left).
    rewrite length_app. simpl in *.
    destruct (Z.ltb_spec _cache_max_size (Z.of_nat (length cache + 1))) as [Hfull|_]; [lia|].
    apply NoDup_cons in Hnodup as [Hnew Hnodup].
    rewrite IH.
    + rewrite <- app_assoc. reflexivity.
    + intros e' He'. apply Hwl. now right.
    + exact Hnodup.
    + intros e' m He' Hin. apply elem_of_app in Hin as [Hin | Hin].
      * apply (Hfresh e' m); [now right | exact Hin].
      * apply list_elem_of_singleton in Hin.
        assert (key_of e' = key_of e) as Hkey by congruence.
        apply Hnew. rewrite <- Hkey. apply list_elem_of_fmap. eauto.
    + rewrite length_app. simpl. lia.
Qed.

(** A put that makes the cache larger than [_cache_max_size] drops
    exactly the first entry of the cache, the oldest one. *)
Lemma put_over_capacity cfg event s :
  _in_whitelist cfg (GroupMessageEvent.group_id event) = true ->
  _cache_max_size
  < Z.of_nat (length (Py.set key_eqb (_message_cache s) (key_of event)
                        (GroupMessageEvent.get_message event))) ->
  exists oldest,
    Py.set key_eqb (_message_cache s) (key_of event) (GroupMessageEvent.get_message event)
    = oldest :: _message_cache (snd (cache_group_message cfg event s)).
Proof.
  intros Hwl Hover. rewrite cache_group_message_accepted by exact Hwl. simpl.
  apply Z.ltb_lt in Hover. rewrite Hover.
  destruct (Py.set key_eqb (_message_cache s) (key_of event)
              (GroupMessageEvent.get_message event)) as [|oldest rest] eqn:Hset.
  - now destruct (set_not_empty _ _ _ Hset).
  - now exists oldest.
Qed.

(** C2. From an empty cache, [_cache_max_size + 1] received messages with
    distinct keys leave [_cache_max_size] entries: all but the one received
    first, in the order received. In general a put that makes the cache larger
    than [_cache_max_size] drops exactly its first entry, the oldest. *)
Theorem overflow_evicts_first_inserted (cfg : Config) (events : list GroupMessageEvent.t)
    (Hwhitelisted : forall e, e ∈ events ->
                      _in_whitelist cfg (GroupMessageEvent.group_id e) = true)
    (Hdistinct : NoDup (map key_of events))
    (Hcount : Z.of_nat (length events) = _cache_max_size + 1) :
  (exists s',
      for_each events (cache_group_message cfg) initial = (Ok tt, s')
      /\ Z.of_nat (length (_message_cache s')) = _cache_max_size
      /\ _message_cache s' = tail (map entry_of events)
      /\ (forall first rest, events = first :: rest ->
            (forall m, (key_of first, m) ∉ _message_cache s')
            /\ (forall e, e ∈ rest -> entry_of e ∈ _message_cache s')))
  /\ (forall s event,
        _in_whitelist cfg (GroupMessageEvent.group_id event) = true ->
        _cache_max_size
        < Z.of_nat (length (Py.set key_eqb (_message_cache s) (key_of event)
                              (GroupMessageEvent.get_message event))) ->
        exists oldest,
          Py.set key_eqb (_message_cache s) (key_of event)
            (GroupMessageEvent.get_message event)
          = oldest :: _message_cache (snd (cache_group_message cfg event s))).
Proof.
  split; [|intros s event; apply put_over_capacity].
  destruct (exists_last (l := events)) as (init & last & Hev).
  { intros ->. simpl in Hcount. unfold _cache_max_size in Hcount. lia. }
  assert (Z.of_nat (length init) = _cache_max_size) as Hinit.
  { rewrite Hev, length_app in Hcount. simpl in Hcount. lia. }
  assert (NoDup (map key_of init) /\ forall m, (key_of last, m) ∉ map entry_of init)
    as [Hnodup Hlast].
  { rewrite Hev, map_app in Hdistinct. apply NoDup_app in Hdistinct as (Hn & Hdisj & _).
    split; [exact Hn|]. intros m Hin.
    apply list_elem_of_fmap in Hin as (e & Heq & He).
    assert (key_of last = key_of e) as Hkey by (unfold entry_of in Heq; congruence).
    apply (Hdisj (key_of last)).
    - rewrite Hkey. apply list_elem_of_fmap. eauto.
    - left. }
  assert (for_each events (cache_group_message cfg) initial
          = (Ok tt, {| _message_cache := tail (map entry_of events); sent := [] |})) as Hrun.
  { rewrite Hev at 1. rewrite for_each_app. unfold initial.
    rewrite received_within_capacity; simpl.
    - unfold mbind, M_bind.
      rewrite cache_group_message_accepted
        by (apply Hwhitelisted; rewrite Hev; apply elem_of_app; right; left).
      simpl. rewrite set_fresh by exact Hlast.
      rewrite length_app, length_map. simpl.
      destruct (Z.ltb_spec _cache_max_size (Z.of_nat (length init + 1))) as [_|Hroom]; [|lia].
      run. rewrite Hev, map_app. reflexivity.
    - intros e He. apply Hwhitelisted. rewrite Hev. apply elem_of_app. now left.
    - exact Hnodup.
    - intros e m _ Hin. now apply elem_of_nil in Hin.
    - lia. }
  eexists. split; [exact Hrun|]. simpl.
  split.
  { destruct events as [|first rest]; [discriminate|]. simpl in *.
    rewrite length_map. lia. }
  split; [reflexivity|].
  intros first rest ->. simpl. split.
  - intros m Hin. apply list_elem_of_fmap in Hin as (e & Heq & He).
    assert (key_of first = key_of e) as Hkey by (unfold entry_of in Heq; congruence).
    simpl in Hdistinct.
    apply NoDup_cons in Hdistinct as [Hnew _]. apply Hnew.
    rewrite Hkey. apply list_elem_of_fmap. eauto.
  - intros e He. apply list_elem_of_fmap. eauto.
Qed.

(** The recall handler leaves the cache alone or pops one key from it. *)
Lemma group_recall_cache repr cfg Message_of bot event s :
  _message_cache (snd (group_recall repr cfg Message_of bot event s)) = _message_cache s
  \/ _message_cache (snd (group_recall repr cfg Message_of bot event s))
     = snd (pop (_message_cache s)
              (GroupRecallNoticeEvent.group_id event, GroupRecallNoticeEvent.message_id event)).
Proof.
  destruct (_in_whitelist cfg (GroupRecallNoticeEvent.group_id event)) eqn:Hwl;
    [|left; rewrite group_recall_rejected by (now left); reflexivity].
  destruct (decide (GroupRecallNoticeEvent.user_id event
                    = GroupRecallNoticeEvent.operator_id event)) as [Hself|Hother];
    [|left; rewrite group_recall_rejected by (now right); reflexivity].
  right.
  destruct (get_member_name_returns repr bot (GroupRecallNoticeEvent.group_id event)
              (GroupRecallNoticeEvent.user_id event)) as [name Hname].
  destruct (get_recalled_message_returns Message_of bot
              (GroupRecallNoticeEvent.message_id event)) as [fetched Hfetch].
  assert (exists content,
            resolved Message_of bot s
              (GroupRecallNoticeEvent.group_id event, GroupRecallNoticeEvent.message_id event)
              content) as [content Hres].
  { destruct (fst (pop (_message_cache s)
                     (GroupRecallNoticeEvent.group_id event,
                      GroupRecallNoticeEvent.message_id event))) as [m|] eqn:Hpop.
    - exists (Some m). now apply resolved_cached.
    - exists fetched. apply resolved_fetched; [exact Hpop|]. simpl. now rewrite Hfetch. }
  rewrite (group_recall_accepted _ _ _ _ _ _ name content Hwl Hself Hname Hres).
  assert (forall calls st, _message_cache (snd (send_all bot calls st)) = _message_cache st)
    as Hsends.
  { intros calls st.
    now destruct (send_all_spec bot calls st) as (outcome & made & -> & _). }
  destruct content as [recalled|]; [|apply Hsends].
  destruct (List.filter is_record recalled) as [|voice voices]; [|apply Hsends].
  destruct (_build_non_voice_message repr recalled); [apply Hsends|].
  destruct (Message_of _); [apply Hsends | reflexivity].
Qed.

Lemma handlers_keep_bound repr cfg Message_of s :
  Z.of_nat (length (_message_cache s)) <= _cache_max_size ->
  (forall event,
      Z.of_nat (length (_message_cache (snd (cache_group_message cfg event s))))
      <= _cache_max_size)
  /\ (forall bot event,
        Z.of_nat (length (_message_cache
                            (snd (group_recall repr cfg Message_of bot event s))))
        <= _cache_max_size).
Proof.
  intros Hbounded. split.
  - intros event.
    destruct (_in_whitelist cfg (GroupMessageEvent.group_id event)) eqn:Hwl.
    + rewrite cache_group_message_accepted by exact Hwl. simpl.
      pose proof (set_length (_message_cache s) (key_of event)
                    (GroupMessageEvent.get_message event)) as Hlen.
      destruct (Z.ltb_spec _cache_max_size
                  (Z.of_nat (length (Py.set key_eqb (_message_cache s) (key_of event)
                                       (GroupMessageEvent.get_message event)))))
        as [Hover|Hfits]; [|exact Hfits].
      destruct (Py.set key_eqb (_message_cache s) (key_of event)
                  (GroupMessageEvent.get_message event)); simpl in *; lia.
    + rewrite cache_group_message_rejected by exact Hwl. exact Hbounded.
  - intros bot event.
    destruct (group_recall_cache repr cfg Message_of bot event s) as [-> | ->];
      [exact Hbounded|].
    pose proof (pop_length (_message_cache s)
                  (GroupRecallNoticeEvent.group_id event,
                   GroupRecallNoticeEvent.message_id event)).
    lia.
Qed.

(** C8. A cache of at most [_cache_max_size] entries has at most
    [_cache_max_size] entries after either handler ran, whatever the event:
    a put that goes over drops the first, oldest entry. *)
Theorem cache_stays_within_capacity (repr : pyval -> string) (cfg : Config)
    (Message_of : pyval -> result Message) (s : State)
    (Hbounded : Z.of_nat (length (_message_cache s)) <= _cache_max_size) :
  (forall event,
      Z.of_nat (length (_message_cache (snd (cache_group_message cfg event s))))
      <= _cache_max_size)
  /\ (forall bot event,
        Z.of_nat (length (_message_cache
                            (snd (group_recall repr cfg Message_of bot event s))))
        <= _cache_max_size)
  /\ (forall event,
        _in_whitelist cfg (GroupMessageEvent.group_id event) = true ->
        _cache_max_size
        < Z.of_nat (length (Py.set key_eqb (_message_cache s) (key_of event)
                              (GroupMessageEvent.get_message event))) ->
        exists oldest,
          Py.set key_eqb (_message_cache s) (key_of event)
            (GroupMessageEvent.get_message event)
          = oldest :: _message_cache (snd (cache_group_message cfg event s))).
Proof.
  destruct (handlers_keep_bound repr cfg Message_of s Hbounded) as [Hput Hpop].
  split; [exact Hput|]. split; [exact Hpop|].
  intros event. apply put_over_capacity.
Qed.

(** Hence the cache never holds more than [_cache_max_size] entries,
    whatever events the plugin has handled since it was loaded. *)
Lemma cache_bounded_always repr cfg Message_of events :
  Z.of_nat (length (_message_cache (handle_all repr cfg Message_of events initial)))
  <= _cache_max_size.
Proof.
  assert (forall s, Z.of_nat (length (_message_cache s)) <= _cache_max_size ->
          Z.of_nat (length (_message_cache (handle_all repr cfg Message_of events s)))
          <= _cache_max_size) as Hinv.
  { induction events as [|ev events IH]; intros s Hs; [exact Hs|].
    simpl. apply IH.
    destruct (handlers_keep_bound repr cfg Message_of s Hs) as [Hput Hpop].
    destruct ev as [e | bot e]; simpl; [apply Hput | apply Hpop]. }
  apply Hinv. unfold initial, _cache_max_size. simpl. lia.
Qed.

(** ** The whitelist setting *)

Lemma int_set_of_ints (groups : list Z) :
  int_set (map PyInt groups) = Ok (list_to_set groups).
Proof.
  induction groups as [|n groups IH]; simpl; [reflexivity|]. now rewrite IH.
Qed.

Lemma int_set_ok items groups :
  int_set items = Ok groups
  <-> exists ns, Forall2 (fun item n => Py.int item = Ok n) items ns
                 /\ groups = list_to_set ns.
Proof.
  revert groups. induction items as [|item items IH]; intros groups; simpl.
  - split.
    + intros [= <-]. exists []. split; [constructor | reflexivity].
    + intros (ns & Hall & ->). inversion Hall. reflexivity.
  - destruct (Py.int item) as [n|e] eqn:Hitem.
    + destruct (int_set items) as [rest|e] eqn:Hrest.
      * split.
        -- intros [= <-]. destruct (proj1 (IH rest) eq_refl) as (ns & Hall & ->).
           exists (n :: ns). split; [now constructor | reflexivity].
        -- intros (ns & Hall & ->). inversion Hall as [|? n' ? ns' Hn Hns]; subst.
           assert (n' = n) as -> by congruence.
           f_equal. simpl. f_equal.
           assert (Ok rest = Ok (list_to_set ns' : gset Z)) as Heq
               by (apply IH; eauto).
           now injection Heq.
      * split; [discriminate|].
        intros (ns & Hall & ->). inversion Hall as [|? n' ? ns' Hn Hns]; subst.
        assert (Raise e = Ok (list_to_set ns' : gset Z)) as Heq by (apply IH; eauto).
        discriminate.
    + split; [discriminate|].
      intros (ns & Hall & ->). inversion Hall; subst. congruence.
Qed.

Lemma int_set_raise items e :
  int_set items = Raise e
  <-> exists good bad rest,
        items = good ++ bad :: rest
        /\ Forall (fun item => exists n, Py.int item = Ok n) good
        /\ Py.int bad = Raise e.
Proof.
  induction items as [|item items IH]; simpl.
  - split; [discriminate|]. intros (good & bad & rest & Heq & _).
    now destruct good.
  - destruct (Py.int item) as [n|e'] eqn:Hitem.
    + destruct (int_set items) as [ns|e'] eqn:Hrest.
      * split; [discriminate|].
        intros ([|g good] & bad & rest & Heq & Hgood & Hbad); simpl in Heq.
        -- injection Heq as -> _. congruence.
        -- injection Heq as -> ->. apply Forall_cons in Hgood as [_ Hgood].
           assert (Ok ns = Raise e) as Hno by (apply IH; eauto 6). discriminate.
      * split.
        -- intros [= ->]. destruct (proj1 IH eq_refl) as (good & bad & rest & -> & Hg & Hb).
           exists (item :: good), bad, rest. split; [reflexivity|].
           split; [|exact Hb]. constructor; eauto.
        -- intros ([|g good] & bad & rest & Heq & Hgood & Hbad); simpl in Heq.
           ++ injection Heq as -> _. congruence.
           ++ injection Heq as -> ->. apply Forall_cons in Hgood as [_ Hgood].
              apply IH. eauto 6.
    + split.
      * intros [= ->]. exists [], item, items. auto.
      * intros ([|g good] & bad & rest & Heq & Hgood & Hbad); simpl in Heq.
        -- injection Heq as -> _. congruence.
        -- injection Heq as -> _. apply Forall_cons in Hgood as [[n Hn] _]. congruence.
Qed.

(** C7, as the code has it. An absent setting and [None] give the empty
    set; a list of integers gives their set; "[1,2,3]" and "1,2, 3", also with
    full-width commas, give {1,2,3}. A blank string gives the empty set. Every
    other value is read with [int]: a list item by item; a string that holds
    JSON as the value it holds, an array item by item; a string that is no
    JSON item by item between its commas, the items trimmed and the empty ones
    skipped; any other value as a whole, to the set of that one number. So "7",
    "true" and "1.5" give {7}, {1} and {1}, and the setting fails to parse
    exactly when [int] refuses the value or an item, with what [int] raised. *)
Theorem whitelist_parsing :
  load_recall_group_whitelist None = Ok ∅
  /\ _parse_recall_group_whitelist PyNone = Ok ∅
  /\ (forall groups : list Z,
        _parse_recall_group_whitelist (PyList (map PyInt groups)) = Ok (list_to_set groups))
  /\ _parse_recall_group_whitelist (PyStr "[1,2,3]") = Ok {[1; 2; 3]}
  /\ _parse_recall_group_whitelist (PyStr "1,2, 3") = Ok {[1; 2; 3]}
  /\ _parse_recall_group_whitelist (PyStr "1，2， 3") = Ok {[1; 2; 3]}
  /\ (forall s, Text.strip s = "" -> _parse_recall_group_whitelist (PyStr s) = Ok ∅)
  (* a value that is no string *)
  /\ (forall items, _parse_recall_group_whitelist (PyList items) = int_set items)
  /\ (forall value,
        value <> PyNone -> (forall s, value <> PyStr s) ->
        (forall items, value <> PyList items) ->
        _parse_recall_group_whitelist value
        = match Py.int value with Ok n => Ok {[n]} | Raise e => Raise e end)
  (* a string that holds JSON *)
  /\ (forall s items,
        Text.strip s <> "" -> Json.loads (Text.strip s) = Some (PyList items) ->
        _parse_recall_group_whitelist (PyStr s) = int_set items)
  /\ (forall s value,
        Text.strip s <> "" -> Json.loads (Text.strip s) = Some value ->
        (forall items, value <> PyList items) ->
        _parse_recall_group_whitelist (PyStr s)
        = match Py.int value with Ok n => Ok {[n]} | Raise e => Raise e end)
  (* a string that is no JSON *)
  /\ (forall s,
        Text.strip s <> "" -> Json.loads (Text.strip s) = None ->
        _parse_recall_group_whitelist (PyStr s)
        = int_set
            (map PyStr
               (List.filter (fun item => negb (Text.is_empty item))
                  (map (fun item => Text.text (Text.strip_with Text.space1 item))
                     (split_comma []
                        (replace_fullwidth_comma (Text.chars (Text.strip s))))))))
  (* the items *)
  /\ (forall items groups,
        int_set items = Ok groups
        <-> exists ns, Forall2 (fun item n => Py.int item = Ok n) items ns
                       /\ groups = list_to_set ns)
  /\ (forall items e,
        int_set items = Raise e
        <-> exists good bad rest,
              items = good ++ bad :: rest
              /\ Forall (fun item => exists n, Py.int item = Ok n) good
              /\ Py.int bad = Raise e)
  (* settings that parse, and settings that do not *)
  /\ _parse_recall_group_whitelist (PyInt 7) = Ok {[7]}
  /\ _parse_recall_group_whitelist (PyStr "7") = Ok {[7]}
  /\ _parse_recall_group_whitelist (PyStr "true") = Ok {[1]}
  /\ _parse_recall_group_whitelist (PyStr "1.5") = Ok {[1]}
  /\ _parse_recall_group_whitelist (PyStr "１，２") = Ok {[1; 2]}
  /\ _parse_recall_group_whitelist (PyList [PyStr "１"; PyInt 2]) = Ok {[1; 2]}
  /\ _parse_recall_group_whitelist (PyStr "abc") = Raise ValueError
  /\ _parse_recall_group_whitelist (PyStr "1,x") = Raise ValueError
  /\ _parse_recall_group_whitelist (PyStr "null") = Raise TypeError
  /\ _parse_recall_group_whitelist (PyStr "[1,null]") = Raise TypeError
  /\ _parse_recall_group_whitelist (PyDict [("a", PyInt 1)]) = Raise TypeError.
Proof.
  split; [reflexivity|]. split; [reflexivity|].
  split; [intros groups; apply int_set_of_ints|].
  split; [vm_compute; reflexivity|].
  split; [vm_compute; reflexivity|].
  split; [vm_compute; reflexivity|].
  split.
  { intros s Hblank. unfold _parse_recall_group_whitelist. now rewrite Hblank. }
  split; [reflexivity|].
  split.
  { intros value Hnone Hstr Hlist.
    destruct value; try reflexivity; [now destruct Hnone | now destruct (Hstr s) |
                                      now destruct (Hlist items)]. }
  split.
  { intros s items Hfilled Hjson. unfold _parse_recall_group_whitelist.
    apply is_empty_false in Hfilled. now rewrite Hfilled, Hjson. }
  split.
  { intros s value Hfilled Hjson Hlist. unfold _parse_recall_group_whitelist.
    apply is_empty_false in Hfilled. rewrite Hfilled, Hjson.
    destruct value; try reflexivity. now destruct (Hlist items). }
  split.
  { intros s Hfilled Hjson. unfold _parse_recall_group_whitelist.
    apply is_empty_false in Hfilled. now rewrite Hfilled, Hjson. }
  split; [apply int_set_ok|]. split; [apply int_set_raise|].
  repeat split; vm_compute; reflexivity.
Qed.

(** C7 as worded fails on its last part: the string "true" is neither a
    list, nor a JSON array, nor comma-separated integers, yet it parses, to the
    whitelist {1}; and the blank string " " parses to the empty whitelist. *)
Lemma odd_settings_are_accepted :
  _parse_recall_group_whitelist (PyStr "true") = Ok {[1]}
  /\ _parse_recall_group_whitelist (PyStr " ") = Ok ∅.
Proof. split; vm_compute; reflexivity. Qed.

(** ** The statements at work on sample data *)

Lemma sample_group_whitelisted : _in_whitelist Sample.config 100 = true.
Proof. vm_compute. reflexivity. Defined.

Lemma sample_name s :
  _get_member_name no_repr Sample.bot 100 7 s = (Ok "Ann", s).
Proof. reflexivity. Defined.

Lemma sample_bot_answers history calls : all_answered Sample.bot history calls.
Proof.
  revert history. induction calls as [|call calls IH]; intros history; simpl; auto.
Defined.

(** Ann recalls her cached message with two voice clips: three sends,
    when the bot answers them. *)
Lemma voice_recall_sends_sample :
  _in_whitelist Sample.config (GroupRecallNoticeEvent.group_id Sample.self_recall) = true
  /\ GroupRecallNoticeEvent.user_id Sample.self_recall
     = GroupRecallNoticeEvent.operator_id Sample.self_recall
  /\ List.filter is_record Sample.voice_message <> []
  /\ sent (snd (group_recall no_repr Sample.config Sample.Message_of Sample.bot
                  Sample.self_recall Sample.cached_voice))
     = [(100, Plain "Ann撤回了一条语音");
        (100, Segments [Sample.record "a.amr"]);
        (100, Segments [Sample.record "c.amr"])]
  /\ fst (group_recall no_repr Sample.config Sample.Message_of Sample.bot
            Sample.self_recall Sample.cached_voice)
     = Ok tt.
Proof.
  assert (resolved Sample.Message_of Sample.bot Sample.cached_voice (100, 42)
            (Some Sample.voice_message)) as Hres.
  { apply resolved_cached. reflexivity. }
  assert (List.filter is_record Sample.voice_message <> []) as Hvoice.
  { discriminate. }
  split; [exact sample_group_whitelisted|]. split; [reflexivity|]. split; [exact Hvoice|].
  destruct (voice_recall_sends no_repr Sample.config Sample.Message_of Sample.bot
              Sample.self_recall Sample.cached_voice Sample.voice_message
              sample_group_whitelisted eq_refl Hres Hvoice)
    as (name & made & Hname & Hsent & _ & _ & Hanswered & _).
  specialize (Hname initial). rewrite sample_name in Hname. injection Hname as <-.
  destruct (Hanswered (sample_bot_answers _ _)) as (Hok & Hmade & _).
  rewrite Hsent, Hmade, Hok. split; reflexivity.
Defined.

(** Ann's card is " Ann ": her name is "Ann", and her notice starts with
    it. A blank card gives way to the nickname, trimmed as well; without card
    and nickname, and when the lookup fails, the name is the user id. *)
Lemma member_name_resolution_sample :
  get_group_member_info Sample.bot 100 7
  = Returned [("card", PyStr " Ann "); ("nickname", PyStr "ann")]
  /\ _get_member_name no_repr Sample.bot 100 7 initial = (Ok "Ann", initial)
  /\ sent (snd (group_recall no_repr Sample.config Sample.Message_of Sample.bot
                  Sample.self_recall Sample.cached_text))
     = [(100, Segments [MessageSegment_text "Ann撤回了一条消息：";
                        MessageSegment_text "hi"; Sample.image "b.png";
                        MessageSegment_text "[视频]"])]
  /\ _get_member_name no_repr Sample.nickname_bot 100 7 initial = (Ok "ann", initial)
  /\ _get_member_name no_repr Sample.nameless_bot 100 7 initial = (Ok "7", initial)
  /\ _get_member_name no_repr Sample.stranger_bot 100 7 initial = (Ok "7", initial).
Proof.
  split; [reflexivity|].
  destruct (member_name_resolution no_repr Sample.bot 100 7 initial)
    as (Hanswered & _ & _ & _ & Htrim & _ & Hnotices).
  destruct (Hanswered _ eq_refl) as (name & Hname & Hcard & _).
  assert (field_text no_repr [("card", PyStr " Ann "); ("nickname", PyStr "ann")] "card"
          = "Ann") as Hfield.
  { apply (Htrim [("card", PyStr " Ann "); ("nickname", PyStr "ann")] "card"
             [32] [65; 110; 110] [32] eq_refl).
    - repeat constructor.
    - repeat constructor.
    - apply (trimmed_ends 65 [110] 110); split; (lia || reflexivity). }
  rewrite Hfield in Hcard. rewrite (Hcard ltac:(discriminate)) in Hname.
  split; [exact Hname|].
  split.
  { destruct (Hnotices Sample.config Sample.Message_of Sample.self_recall "Ann"
                Sample.cached_text eq_refl eq_refl sample_group_whitelisted eq_refl Hname)
      as (new & Hsent & _).
    reflexivity. }
  split.
  { destruct (member_name_resolution no_repr Sample.nickname_bot 100 7 initial)
      as (Hnick & _ & _ & _ & Htrim' & _).
    destruct (Hnick _ eq_refl) as (name' & Hname' & _ & Hnickname & _).
    rewrite Hname'. f_equal. f_equal. apply Hnickname.
    - apply (Htrim' [("card", PyStr "　 ");
                     ("nickname", PyStr (of_code_points [9; 97; 110; 110; 10]))] "card"
               [12288; 32] [] [] eq_refl).
      + repeat constructor.
      + constructor.
      + apply trimmed_nothing.
    - assert (field_text no_repr
                [("card", PyStr "　 ");
                 ("nickname", PyStr (of_code_points [9; 97; 110; 110; 10]))] "nickname"
              = "ann") as ->; [|discriminate].
      apply (Htrim' [("card", PyStr "　 ");
                     ("nickname", PyStr (of_code_points [9; 97; 110; 110; 10]))] "nickname"
               [9] [97; 110; 110] [10] eq_refl).
      + repeat constructor.
      + repeat constructor.
      + apply (trimmed_ends 97 [110] 110); split; (lia || reflexivity). }
  split; reflexivity.
Defined.

(** Ann recalls a message that is neither cached nor fetchable: one send. *)
Lemma uncaptured_recall_notice_sample :
  _in_whitelist Sample.config (GroupRecallNoticeEvent.group_id Sample.self_recall) = true
  /\ get_msg Sample.bot (GroupRecallNoticeEvent.message_id Sample.self_recall) = Failed
  /\ group_recall no_repr Sample.config Sample.Message_of Sample.bot
       Sample.self_recall initial
     = (Ok tt, {| _message_cache := [];
                  sent := [(100, Plain "Ann撤回了一条消息：[内容未捕获]")] |}).
Proof.
  split; [exact sample_group_whitelisted|]. split; [reflexivity|].
  destruct (uncaptured_recall_notice no_repr Sample.config Sample.Message_of Sample.bot
              Sample.self_recall initial sample_group_whitelisted eq_refl
              (fun message => not_elem_of_nil _) (or_introl eq_refl))
    as (name & Hname & Hrun & _).
  rewrite Hrun.
  specialize (Hname initial). rewrite sample_name in Hname.
  injection Hname as <-. reflexivity.
Defined.

(** A moderator recalls Ann's cached message: nothing happens. *)
Lemma rejected_recall_is_noop_sample :
  GroupRecallNoticeEvent.user_id Sample.moderator_recall
  <> GroupRecallNoticeEvent.operator_id Sample.moderator_recall
  /\ group_recall no_repr Sample.config Sample.Message_of Sample.bot
       Sample.moderator_recall Sample.cached_voice
     = (Ok tt, Sample.cached_voice).
Proof.
  assert (GroupRecallNoticeEvent.user_id Sample.moderator_recall
          <> GroupRecallNoticeEvent.operator_id Sample.moderator_recall) as Hother.
  { discriminate. }
  split; [exact Hother|].
  exact (rejected_recall_is_noop no_repr Sample.config Sample.Message_of Sample.bot
           Sample.moderator_recall Sample.cached_voice (or_intror Hother)).
Defined.

(** Normalizing [text, at, image, video] gives text and image segments
    only, and normalizing those again changes nothing. *)
Lemma normalizer_idempotent_sample :
  (forall segment,
      segment ∈ _build_non_voice_message no_repr Sample.mixed_message ->
      type segment = "text" \/ type segment = "image")
  /\ _build_non_voice_message no_repr
       [MessageSegment_text "hi"; Sample.image "b.png"; MessageSegment_text "[视频]"]
     = [MessageSegment_text "hi"; Sample.image "b.png"; MessageSegment_text "[视频]"].
Proof.
  assert (forall segment,
      segment ∈ _build_non_voice_message no_repr Sample.mixed_message ->
      type segment = "text" \/ type segment = "image") as Honly.
  { intros segment Hin.
    change (_build_non_voice_message no_repr Sample.mixed_message)
      with [MessageSegment_text "hi"; Sample.image "b.png"; MessageSegment_text "[视频]"]
      in Hin.
    rewrite !elem_of_cons in Hin. rewrite elem_of_nil in Hin.
    destruct Hin as [-> | [-> | [-> | []]]]; [left | right | left]; reflexivity. }
  split; [exact Honly|].
  exact (normalizer_idempotent no_repr Sample.mixed_message Honly).
Defined.

(** The handlers run on small caches. *)
Lemma cache_stays_within_capacity_sample :
  Z.of_nat (length (_message_cache Sample.cached_voice)) <= _cache_max_size
  /\ Z.of_nat (length (_message_cache
                         (snd (cache_group_message Sample.config (Sample.received 43)
                                 Sample.cached_voice))))
     <= _cache_max_size
  /\ Z.of_nat (length (_message_cache
                         (snd (group_recall no_repr Sample.config Sample.Message_of
                                 Sample.bot Sample.self_recall Sample.cached_voice))))
     <= _cache_max_size.
Proof.
  assert (Z.of_nat (length (_message_cache Sample.cached_voice)) <= _cache_max_size)
    as Hsmall.
  { vm_compute. discriminate. }
  split; [exact Hsmall|].
  destruct (cache_stays_within_capacity no_repr Sample.config Sample.Message_of
              Sample.cached_voice Hsmall) as (Hput & Hpop & _).
  split; [apply Hput | apply Hpop].
Defined.

(** 5001 messages of a whitelisted group arrive at an empty cache: 5000
    stay, the first one is gone and the last one is there. *)
Lemma overflow_evicts_first_inserted_sample :
  (forall e, e ∈ Sample.burst ->
     _in_whitelist Sample.config (GroupMessageEvent.group_id e) = true)
  /\ NoDup (map key_of Sample.burst)
  /\ Z.of_nat (length Sample.burst) = _cache_max_size + 1
  /\ exists s',
       for_each Sample.burst (cache_group_message Sample.config) initial = (Ok tt, s')
       /\ Z.of_nat (length (_message_cache s')) = 5000
       /\ (forall m, ((100, 1), m) ∉ _message_cache s')
       /\ ((100, 5001), [MessageSegment_text "hi"]) ∈ _message_cache s'.
Proof.
  assert (forall e, e ∈ Sample.burst ->
            _in_whitelist Sample.config (GroupMessageEvent.group_id e) = true) as Hwl.
  { intros e He. apply list_elem_of_fmap in He as (i & -> & _).
    exact sample_group_whitelisted. }
  assert (NoDup (map key_of Sample.burst)) as Hdistinct.
  { unfold Sample.burst. rewrite map_map.
    assert (Inj eq eq (fun i => key_of (Sample.received i))) as Hinj.
    { intros i j Heq. now injection Heq. }
    apply (NoDup_fmap_2 _ _ (NoDup_seqZ _ _)). }
  assert (Z.of_nat (length Sample.burst) = _cache_max_size + 1) as Hcount.
  { vm_compute. reflexivity. }
  split; [exact Hwl|]. split; [exact Hdistinct|]. split; [exact Hcount|].
  destruct (overflow_evicts_first_inserted Sample.config Sample.burst Hwl Hdistinct Hcount)
    as [(s' & Hrun & Hsize & _ & Hkeys) _].
  exists s'. split; [exact Hrun|]. split; [exact Hsize|].
  assert (Sample.burst
          = Sample.received 1 :: map Sample.received (seqZ 2 _cache_max_size)) as Hburst.
  { vm_compute. reflexivity. }
  destruct (Hkeys _ _ Hburst) as [Hfirst Hrest].
  split; [exact Hfirst|].
  apply (Hrest (Sample.received 5001)).
  apply list_elem_of_fmap. exists 5001. split; [reflexivity|].
  apply elem_of_seqZ. unfold _cache_max_size. lia.
Defined.

(** * Further properties of the code *)

(** ** More on the normalizer *)

Lemma rendered_at_most_one repr segment : (length (rendered repr segment) <= 1)%nat.
Proof.
  unfold rendered, build_step.
  repeat match goal with
         | |- context [if ?b then _ else _] => destruct b
         end; simpl; lia.
Qed.

(** X1. The normalizer works segment by segment: the content of two
    messages put together is the two contents put together (neighbouring texts
    are not merged), and no segment gives more than one, so the content is
    never longer than the message. *)
Theorem normalizer_is_segmentwise (repr : pyval -> string) (m1 m2 : Message) :
  _build_non_voice_message repr (m1 ++ m2)
  = _build_non_voice_message repr m1 ++ _build_non_voice_message repr m2
  /\ (length (_build_non_voice_message repr m1) <= length m1)%nat.
Proof.
  split.
  - rewrite !build_flat_map. apply flat_map_app.
  - rewrite build_flat_map. induction m1 as [|segment m1 IH]; simpl; [lia|].
    rewrite length_app. pose proof (rendered_at_most_one repr segment). lia.
Qed.

Lemma rendered_shape repr segment out :
  out ∈ rendered repr segment ->
  (exists text, text <> "" /\ out = MessageSegment_text text)
  \/ (out = segment /\ type segment = "image")
  \/ (out = segment /\ type segment = "face" /\ _is_unsupported_face segment = false).
Proof.
  assert (forall text, Text.is_empty text = false -> out ∈ [MessageSegment_text text] ->
          exists text, text <> "" /\ out = MessageSegment_text text) as Htext.
  { intros text Hne Hin. apply list_elem_of_singleton in Hin.
    exists text. split; [now apply is_empty_false | exact Hin]. }
  destruct (decide (type segment ∈ ["at"; "reply"; "record"])) as [Hd|Hd].
  { rewrite rendered_dropped by exact Hd. intros Hin. now apply elem_of_nil in Hin. }
  destruct (decide (type segment = "text")) as [Ht|Ht].
  { rewrite (rendered_text repr segment Ht). cbv zeta.
    destruct (Text.is_empty _) eqn:He.
    - intros Hin. now apply elem_of_nil in Hin.
    - intros Hin. left. now apply (Htext _ He). }
  destruct (decide (type segment = "image")) as [Hi|Hi].
  { rewrite (rendered_image repr segment Hi). intros Hin.
    apply list_elem_of_singleton in Hin. right. left. now split. }
  destruct (decide (type segment = "face")) as [Hf|Hf].
  { rewrite (rendered_face repr segment Hf).
    destruct (_is_unsupported_face segment) eqn:Hu; intros Hin.
    - left. apply (Htext _ (placeholder_not_empty repr segment) Hin).
    - apply list_elem_of_singleton in Hin. right. right. now repeat split. }
  destruct (decide (type segment = "video")) as [Hv|Hv].
  { rewrite (rendered_video repr segment Hv). intros Hin. left. now apply (Htext "[视频]"). }
  destruct (decide (type segment = "file")) as [Hl|Hl].
  { rewrite (rendered_file repr segment Hl). intros Hin. left. now apply (Htext "[文件]"). }
  rewrite rendered_other.
  - intros Hin. left. now apply (Htext ("[" +:+ type segment +:+ "]")).
  - rewrite !not_elem_of_cons in Hd. rewrite !not_elem_of_cons. tauto.
Qed.

(** X2. Whatever the message, its normalized content holds only three
    sorts of segments: text segments made by the normalizer, each with a
    non-empty string; images of the message; and faces of the message that are
    not of the unsupported sort. No [at], [reply], [record], [video] or [file]
    segment and no unsupported face comes through. *)
Theorem normalizer_output_kinds (repr : pyval -> string) (message : Message)
    (out : MessageSegment) :
  out ∈ _build_non_voice_message repr message ->
  ((exists text, text <> "" /\ out = MessageSegment_text text)
   \/ (type out = "image" /\ out ∈ message)
   \/ (type out = "face" /\ out ∈ message))
  /\ type out ∈ ["text"; "image"; "face"]
  /\ _is_unsupported_face out = false.
Proof.
  rewrite build_flat_map. intros Hin.
  apply list_elem_of_In, in_flat_map in Hin as (segment & Hseg & Hin).
  apply list_elem_of_In in Hseg, Hin.
  destruct (rendered_shape repr segment out Hin)
    as [(text & Hne & ->) | [[-> Hk] | [-> [Hk Hu]]]].
  - split; [left; eauto|]. split; [left | reflexivity].
  - split; [right; left; now split|]. split.
    + rewrite Hk. right. left.
    + unfold _is_unsupported_face. now rewrite Hk.
  - split; [right; right; now split|]. split; [|exact Hu].
    rewrite Hk. right. right. left.
Qed.

(** X3. Normalizing is idempotent on every message, faces included:
    normalizing the normalized content gives it back unchanged. *)
Theorem normalizer_idempotent_everywhere (repr : pyval -> string) (message : Message) :
  _build_non_voice_message repr (_build_non_voice_message repr message)
  = _build_non_voice_message repr message.
Proof.
  rewrite !build_flat_map.
  induction message as [|segment message IH]; [reflexivity|].
  simpl. now rewrite flat_map_app, rendered_twice, IH.
Qed.

Lemma rendered_nothing repr segment :
  rendered repr segment = [] <-> left_out repr segment.
Proof.
  unfold left_out. split.
  - intros Hnone.
    destruct (decide (type segment ∈ ["at"; "reply"; "record"])) as [Hd|Hd]; [now left|].
    right.
    destruct (decide (type segment = "text")) as [Ht|Ht].
    { split; [exact Ht|]. rewrite (rendered_text repr segment Ht) in Hnone. cbv zeta in Hnone.
      destruct (Text.is_empty _) eqn:He; [now apply is_empty_true | discriminate]. }
    exfalso.
    destruct (decide (type segment = "image")) as [Hi|Hi].
    { now rewrite (rendered_image repr segment Hi) in Hnone. }
    destruct (decide (type segment = "face")) as [Hf|Hf].
    { rewrite (rendered_face repr segment Hf) in Hnone.
      now destruct (_is_unsupported_face segment). }
    destruct (decide (type segment = "video")) as [Hv|Hv].
    { now rewrite (rendered_video repr segment Hv) in Hnone. }
    destruct (decide (type segment = "file")) as [Hl|Hl].
    { now rewrite (rendered_file repr segment Hl) in Hnone. }
    rewrite rendered_other in Hnone; [discriminate|].
    rewrite !not_elem_of_cons in Hd. rewrite !not_elem_of_cons. tauto.
  - intros [Hd | [Ht Hempty]].
    + now apply rendered_dropped.
    + rewrite (rendered_text repr segment Ht). cbv zeta.
      apply is_empty_true in Hempty. now rewrite Hempty.
Qed.

Lemma build_nothing repr message :
  _build_non_voice_message repr message = []
  <-> forall segment, segment ∈ message -> left_out repr segment.
Proof.
  rewrite build_flat_map. induction message as [|segment message IH]; simpl.
  - split; [|reflexivity]. intros _ seg Hin. now apply elem_of_nil in Hin.
  - split.
    + intros Hnil. apply app_eq_nil in Hnil as [Hone Hrest].
      intros seg Hin. apply elem_of_cons in Hin as [-> | Hin].
      * now apply rendered_nothing.
      * now apply IH.
    + intros Hall.
      rewrite (proj2 (rendered_nothing repr segment)) by (apply Hall; left).
      apply IH. intros seg Hin. apply Hall. now right.
Qed.

(** X4. The normalized content is empty exactly when every segment of the
    message is left out: each is an [at], [reply] or [record] segment or a
    [text] whose text prints as the empty string. One image, face, video, file
    or segment of an unknown kind is enough for content. *)
Theorem normalizer_empty_iff (repr : pyval -> string) (message : Message) :
  (_build_non_voice_message repr message = []
   <-> forall segment, segment ∈ message -> left_out repr segment)
  /\ (forall segment, segment ∈ message ->
        type segment ∉ ["at"; "reply"; "record"; "text"] ->
        _build_non_voice_message repr message <> []).
Proof.
  split; [apply build_nothing|].
  intros segment Hin Hkind Hnil.
  destruct (proj1 (build_nothing repr message) Hnil segment Hin) as [Hd | [Ht _]].
  - apply Hkind. rewrite !elem_of_cons in Hd. rewrite !elem_of_cons. tauto.
  - apply Hkind. rewrite Ht. do 3 right. left.
Qed.

(** ** More on the cache *)

Lemma in_keys (cache : list (cache_key * Message)) key :
  key ∈ keys cache <-> exists message, (key, message) ∈ cache.
Proof.
  unfold keys. split.
  - intros Hin. apply list_elem_of_fmap in Hin as ([k m] & -> & Hin). eauto.
  - intros [m Hin]. apply list_elem_of_fmap. exists (key, m). now split.
Qed.

Lemma keys_set_fresh (cache : list (cache_key * Message)) key message :
  key ∉ keys cache -> Py.set key_eqb cache key message = cache ++ [(key, message)].
Proof.
  intros Hfresh. apply set_fresh. intros w Hin. apply Hfresh, in_keys. eauto.
Qed.

Lemma keys_set_present (cache : list (cache_key * Message)) key message :
  key ∈ keys cache -> keys (Py.set key_eqb cache key message) = keys cache.
Proof.
  unfold keys. induction cache as [|[k m] cache IH]; intros Hin.
  - now apply elem_of_nil in Hin.
  - simpl. destruct (key_eqb k key) eqn:Hk; [reflexivity|].
    simpl. f_equal. apply IH. simpl in Hin. apply elem_of_cons in Hin as [-> | Hin].
    + now rewrite key_eqb_refl in Hk.
    + exact Hin.
Qed.

Lemma pop_set (cache : list (cache_key * Message)) key message :
  fst (pop (Py.set key_eqb cache key message) key) = Some message.
Proof.
  induction cache as [|[k m] cache IH]; simpl.
  - now rewrite key_eqb_refl.
  - destruct (key_eqb k key) eqn:Hk; simpl; rewrite Hk; [reflexivity|].
    destruct (pop (Py.set key_eqb cache key message) key). exact IH.
Qed.

Lemma pop_app_absent (older newer : list (cache_key * Message)) key :
  key ∉ keys older ->
  fst (pop (older ++ newer) key) = fst (pop newer key).
Proof.
  unfold keys. induction older as [|[k m] older IH]; intros Hfresh; [reflexivity|].
  simpl in *. apply not_elem_of_cons in Hfresh as [Hne Hfresh].
  destruct (key_eqb k key) eqn:Hk.
  - apply key_eqb_eq in Hk. congruence.
  - specialize (IH Hfresh). destruct (pop (older ++ newer) key). exact IH.
Qed.

Lemma keys_pop_sublist (cache : list (cache_key * Message)) key :
  keys (snd (pop cache key)) `sublist_of` keys cache.
Proof.
  unfold keys. induction cache as [|[k m] cache IH]; simpl; [constructor|].
  destruct (key_eqb k key); simpl.
  - now apply sublist_cons.
  - destruct (pop cache key) as [found rest]. simpl in *. now apply sublist_skip.
Qed.

Lemma pop_keeps_others (cache : list (cache_key * Message)) key k message :
  k <> key -> ((k, message) ∈ snd (pop cache key) <-> (k, message) ∈ cache).
Proof.
  intros Hother. induction cache as [|[k' m] cache IH]; simpl; [reflexivity|].
  destruct (key_eqb k' key) eqn:Hk; simpl.
  - apply key_eqb_eq in Hk. subst k'. rewrite elem_of_cons.
    split; [now right | intros [[= ? ?] | Hin]; [congruence | exact Hin]].
  - destruct (pop cache key) as [found rest]. simpl in *.
    rewrite !elem_of_cons, IH. reflexivity.
Qed.

Lemma pop_removes_key (cache : list (cache_key * Message)) key :
  NoDup (keys cache) -> key ∉ keys (snd (pop cache key)).
Proof.
  unfold keys. induction cache as [|[k m] cache IH]; intros Hnodup; simpl.
  - apply not_elem_of_nil.
  - simpl in Hnodup. apply NoDup_cons in Hnodup as [Hnew Hnodup].
    destruct (key_eqb k key) eqn:Hk; simpl.
    + apply key_eqb_eq in Hk. now subst k.
    + specialize (IH Hnodup). destruct (pop cache key) as [found rest]. simpl in *.
      apply not_elem_of_cons. split; [|exact IH].
      apply key_eqb_neq in Hk. congruence.
Qed.

(** X5. The caching handler sends nothing and raises nothing, whatever
    the event; for a group outside the whitelist it leaves the cache as it
    is. *)
Theorem caching_is_silent (cfg : Config) (event : GroupMessageEvent.t) (s : State) :
  (exists cache',
      cache_group_message cfg event s
      = (Ok tt, {| _message_cache := cache'; sent := sent s |}))
  /\ (_in_whitelist cfg (GroupMessageEvent.group_id event) = false ->
      cache_group_message cfg event s = (Ok tt, s)).
Proof.
  split; [|apply cache_group_message_rejected].
  destruct (_in_whitelist cfg (GroupMessageEvent.group_id event)) eqn:Hwl.
  - rewrite cache_group_message_accepted by exact Hwl. eauto.
  - rewrite cache_group_message_rejected by exact Hwl. exists (_message_cache s).
    now destruct s.
Qed.

Lemma received_is_cached cfg event s :
  _in_whitelist cfg (GroupMessageEvent.group_id event) = true ->
  Z.of_nat (length (_message_cache s)) <= _cache_max_size ->
  fst (pop (_message_cache (snd (cache_group_message cfg event s))) (key_of event))
  = Some (GroupMessageEvent.get_message event).
Proof.
  intros Hwl Hsize. rewrite cache_group_message_accepted by exact Hwl. simpl.
  destruct (Z.ltb_spec _cache_max_size
              (Z.of_nat (length (Py.set key_eqb (_message_cache s) (key_of event)
                                   (GroupMessageEvent.get_message event)))))
    as [Hover|_]; [|apply pop_set].
  destruct (decide (key_of event ∈ keys (_message_cache s))) as [Hold|Hnew].
  - pose proof (keys_set_present _ _ (GroupMessageEvent.get_message event) Hold) as Hkeys.
    apply (f_equal length) in Hkeys. unfold keys in Hkeys. rewrite !length_map in Hkeys.
    lia.
  - rewrite keys_set_fresh in * by exact Hnew.
    rewrite length_app in Hover. simpl in Hover.
    destruct (_message_cache s) as [|oldest rest] eqn:Hcache.
    { simpl in Hover. unfold _cache_max_size in Hover. lia. }
    simpl. rewrite pop_app_absent.
    + simpl. now rewrite key_eqb_refl.
    + intros Hin. apply Hnew. unfold keys in *. simpl. now right.
Qed.

(** X6. What is put in comes out: once a message of a whitelisted group
    was received by a cache within its capacity, popping its key gives that
    very message, also when the key was cached before with other content and
    also when the put made the cache drop its oldest entry. *)
Theorem received_message_is_found (cfg : Config) (event : GroupMessageEvent.t) (s : State)
    (Hwhitelisted : _in_whitelist cfg (GroupMessageEvent.group_id event) = true)
    (Hbounded : Z.of_nat (length (_message_cache s)) <= _cache_max_size) :
  fst (pop (_message_cache (snd (cache_group_message cfg event s))) (key_of event))
  = Some (GroupMessageEvent.get_message event)
  /\ forall Message_of bot,
       resolved Message_of bot (snd (cache_group_message cfg event s)) (key_of event)
         (Some (GroupMessageEvent.get_message event)).
Proof.
  pose proof (received_is_cached cfg event s Hwhitelisted Hbounded) as Hfound.
  split; [exact Hfound|]. intros Message_of bot. now apply resolved_cached.
Qed.

(** X7. A message received under a key that is already cached takes the
    place of the old content: the keys and their order stay as they were, so
    the entry is not made younger for eviction, nothing is dropped, and the key
    now gives the new message. *)
Theorem received_again_keeps_age (cfg : Config) (event : GroupMessageEvent.t) (s : State)
    (Hwhitelisted : _in_whitelist cfg (GroupMessageEvent.group_id event) = true)
    (Hbounded : Z.of_nat (length (_message_cache s)) <= _cache_max_size)
    (Hcached : key_of event ∈ keys (_message_cache s)) :
  keys (_message_cache (snd (cache_group_message cfg event s))) = keys (_message_cache s)
  /\ fst (pop (_message_cache (snd (cache_group_message cfg event s))) (key_of event))
     = Some (GroupMessageEvent.get_message event).
Proof.
  split; [|now apply received_is_cached].
  rewrite cache_group_message_accepted by exact Hwhitelisted. simpl.
  pose proof (keys_set_present _ _ (GroupMessageEvent.get_message event) Hcached) as Hkeys.
  destruct (Z.ltb_spec _cache_max_size
              (Z.of_nat (length (Py.set key_eqb (_message_cache s) (key_of event)
                                   (GroupMessageEvent.get_message event)))))
    as [Hover|_]; [|exact Hkeys].
  apply (f_equal length) in Hkeys. unfold keys in Hkeys. rewrite !length_map in Hkeys. lia.
Qed.

Lemma handle_all_invariant (P : State -> Prop) repr cfg Message_of events s :
  (forall s ev, P s -> P (snd (handle repr cfg Message_of ev s))) ->
  P s -> P (handle_all repr cfg Message_of events s).
Proof.
  intros Hstep. revert s. induction events as [|ev events IH]; intros s Hs; [exact Hs|].
  simpl. apply IH, Hstep, Hs.
Qed.

Lemma keys_tail (cache : list (cache_key * Message)) : keys (tail cache) = tail (keys cache).
Proof. now destruct cache. Qed.

Lemma received_keys cfg event s :
  _in_whitelist cfg (GroupMessageEvent.group_id event) = true ->
  keys (_message_cache (snd (cache_group_message cfg event s)))
  `sublist_of` (if decide (key_of event ∈ keys (_message_cache s))
                then keys (_message_cache s)
                else keys (_message_cache s) ++ [key_of event]).
Proof.
  intros Hwl. rewrite cache_group_message_accepted by exact Hwl. simpl.
  assert (keys (Py.set key_eqb (_message_cache s) (key_of event)
                  (GroupMessageEvent.get_message event))
          = if decide (key_of event ∈ keys (_message_cache s))
            then keys (_message_cache s)
            else keys (_message_cache s) ++ [key_of event]) as Hkeys.
  { destruct (decide _) as [Hold|Hnew].
    - now apply keys_set_present.
    - rewrite keys_set_fresh by exact Hnew. unfold keys. now rewrite map_app. }
  rewrite <- Hkeys.
  destruct (_ <? _); [|reflexivity].
  rewrite keys_tail.
  destruct (keys _) as [|k ks]; simpl; [reflexivity | now apply sublist_cons].
Qed.

Lemma step_keeps_keys_distinct repr cfg Message_of ev s :
  NoDup (keys (_message_cache s)) ->
  NoDup (keys (_message_cache (snd (handle repr cfg Message_of ev s)))).
Proof.
  intros Hnodup. destruct ev as [e | bot e]; simpl.
  - destruct (_in_whitelist cfg (GroupMessageEvent.group_id e)) eqn:Hwl.
    + apply (fun H => sublist_NoDup _ _ H (received_keys cfg e s Hwl)).
      destruct (decide _) as [Hold|Hnew]; [exact Hnodup|].
      apply NoDup_app. split; [exact Hnodup|]. split; [|apply NoDup_singleton].
      intros k Hk Hin. apply list_elem_of_singleton in Hin. now subst k.
    + now rewrite cache_group_message_rejected.
  - destruct (group_recall_cache repr cfg Message_of bot e s) as [-> | ->];
      [exact Hnodup|].
    exact (sublist_NoDup _ _ Hnodup (keys_pop_sublist _ _)).
Qed.

(** X8. Whatever events the plugin has handled since it was loaded, the
    cache is a well-formed bounded dict: no key is cached twice, and there are
    at most [_cache_max_size] entries. *)
Theorem cache_is_well_formed (repr : pyval -> string) (cfg : Config)
    (Message_of : pyval -> result Message) (events : list event) :
  NoDup (keys (_message_cache (handle_all repr cfg Message_of events initial)))
  /\ Z.of_nat (length (_message_cache (handle_all repr cfg Message_of events initial)))
     <= _cache_max_size.
Proof.
  split.
  - apply (handle_all_invariant (fun s => NoDup (keys (_message_cache s)))).
    + intros s ev. apply step_keeps_keys_distinct.
    + apply NoDup_nil_2.
  - apply (handle_all_invariant
             (fun s => Z.of_nat (length (_message_cache s)) <= _cache_max_size)).
    + intros s ev Hs.
      destruct (handlers_keep_bound repr cfg Message_of s Hs) as [Hput Hpop].
      destruct ev as [e | bot e]; simpl; [apply Hput | apply Hpop].
    + unfold initial, _cache_max_size. simpl. lia.
Qed.

Lemma step_keeps_groups_whitelisted repr cfg Message_of ev s :
  (forall key, key ∈ keys (_message_cache s) -> _in_whitelist cfg (fst key) = true) ->
  forall key, key ∈ keys (_message_cache (snd (handle repr cfg Message_of ev s))) ->
              _in_whitelist cfg (fst key) = true.
Proof.
  intros Hall key Hin. destruct ev as [e | bot e]; simpl in Hin.
  - destruct (_in_whitelist cfg (GroupMessageEvent.group_id e)) eqn:Hwl.
    + apply (fun H => elem_of_sublist _ _ _ H (received_keys cfg e s Hwl)) in Hin.
      destruct (decide _) as [Hold|Hnew]; [now apply Hall|].
      apply elem_of_app in Hin as [Hin | Hin]; [now apply Hall|].
      apply list_elem_of_singleton in Hin. subst key. exact Hwl.
    + rewrite cache_group_message_rejected in Hin by exact Hwl. now apply Hall.
  - destruct (group_recall_cache repr cfg Message_of bot e s) as [Heq | Heq];
      rewrite Heq in Hin; [now apply Hall|].
    apply Hall. exact (elem_of_sublist _ _ _ Hin (keys_pop_sublist _ _)).
Qed.

(** X9. The plugin never caches a message of a group outside the
    whitelist: after any events, every cached key belongs to a whitelisted
    group. *)
Theorem only_whitelisted_groups_are_cached (repr : pyval -> string) (cfg : Config)
    (Message_of : pyval -> result Message) (events : list event)
    (group_id message_id : Z) (message : Message) :
  ((group_id, message_id), message)
  ∈ _message_cache (handle_all repr cfg Message_of events initial) ->
  group_id ∈ recall_group_whitelist cfg.
Proof.
  intros Hin.
  assert (_in_whitelist cfg (fst (group_id, message_id)) = true) as Hwl.
  { revert Hin.
    generalize (group_id, message_id). intros key Hin.
    apply (handle_all_invariant
             (fun s => forall key, key ∈ keys (_message_cache s) ->
                                   _in_whitelist cfg (fst key) = true)
             repr cfg Message_of events initial).
    - intros s ev. apply step_keeps_groups_whitelisted.
    - intros k Hk. now apply elem_of_nil in Hk.
    - apply in_keys. eauto. }
  unfold _in_whitelist in Hwl. now apply bool_decide_eq_true in Hwl.
Qed.

(** ** More on the recall handler *)

Lemma resolved_exists Message_of bot s key :
  exists content, resolved Message_of bot s key content.
Proof.
  destruct (get_recalled_message_returns Message_of bot (snd key)) as [fetched Hfetch].
  destruct (fst (pop (_message_cache s) key)) as [m|] eqn:Hpop.
  - exists (Some m). now apply resolved_cached.
  - exists fetched. apply resolved_fetched; [exact Hpop|]. now rewrite Hfetch.
Qed.

(** The run of an accepted recall on content without voice segments. *)
Lemma group_recall_text repr cfg Message_of bot event s name recalled :
  _in_whitelist cfg (GroupRecallNoticeEvent.group_id event) = true ->
  GroupRecallNoticeEvent.user_id event = GroupRecallNoticeEvent.operator_id event ->
  (forall s0, _get_member_name repr bot (GroupRecallNoticeEvent.group_id event)
                (GroupRecallNoticeEvent.user_id event) s0 = (Ok name, s0)) ->
  resolved Message_of bot s
    (GroupRecallNoticeEvent.group_id event, GroupRecallNoticeEvent.message_id event)
    (Some recalled) ->
  List.filter is_record recalled = [] ->
  group_recall repr cfg Message_of bot event s =
    match _build_non_voice_message repr recalled with
    | [] =>
        send_all bot [(GroupRecallNoticeEvent.group_id event,
                       Plain (name +:+ "撤回了一条消息：[空消息]"))]
    | _ :: _ =>
        match Message_of (PyStr (name +:+ "撤回了一条消息：")) with
        | Ok out =>
            send_all bot
              [(GroupRecallNoticeEvent.group_id event,
                Segments (out ++ _build_non_voice_message repr recalled))]
        | Raise e => raise e
        end
    end
      {| _message_cache :=
           snd (pop (_message_cache s)
                  (GroupRecallNoticeEvent.group_id event,
                   GroupRecallNoticeEvent.message_id event));
         sent := sent s |}.
Proof.
  intros Hwl Hself Hname Hres Hnovoice.
  rewrite (group_recall_accepted _ _ _ _ _ _ name (Some recalled) Hwl Hself Hname Hres).
  now rewrite Hnovoice.
Qed.

Lemma send_outcome_answered bot history call answer :
  send_group_msg bot history (fst call) (snd call) = Returned answer ->
  send_outcome bot history call = Ok tt.
Proof. intros Hanswer. unfold send_outcome. now rewrite Hanswer. Qed.

(** X10. A self-recall in a whitelisted group of content without voice
    whose every segment is left out by the normalizer (an empty message, or
    only mentions, replies and empty texts) makes exactly one call of
    [send_group_msg], with the text "<name>撤回了一条消息：[空消息]". What the
    handler gives is what that send gives: it returns normally when the bot
    answers the send. *)
Theorem empty_recall_notice (repr : pyval -> string) (cfg : Config)
    (Message_of : pyval -> result Message) (bot : Bot)
    (event : GroupRecallNoticeEvent.t) (s : State) (recalled : Message)
    (Hwhitelisted : _in_whitelist cfg (GroupRecallNoticeEvent.group_id event) = true)
    (Hself : GroupRecallNoticeEvent.user_id event = GroupRecallNoticeEvent.operator_id event)
    (Hresolved : resolved Message_of bot s
                   (GroupRecallNoticeEvent.group_id event,
                    GroupRecallNoticeEvent.message_id event)
                   (Some recalled))
    (Hnovoice : List.filter is_record recalled = [])
    (Hnothing : forall segment, segment ∈ recalled -> left_out repr segment) :
  exists name,
    (forall s0, _get_member_name repr bot (GroupRecallNoticeEvent.group_id event)
                  (GroupRecallNoticeEvent.user_id event) s0 = (Ok name, s0))
    /\ group_recall repr cfg Message_of bot event s =
         (send_outcome bot (sent s)
            (GroupRecallNoticeEvent.group_id event,
             Plain (name +:+ "撤回了一条消息：[空消息]")),
          {| _message_cache :=
               snd (pop (_message_cache s)
                      (GroupRecallNoticeEvent.group_id event,
                       GroupRecallNoticeEvent.message_id event));
             sent := sent s ++ [(GroupRecallNoticeEvent.group_id event,
                                 Plain (name +:+ "撤回了一条消息：[空消息]"))] |})
    /\ (forall answer,
          send_group_msg bot (sent s) (GroupRecallNoticeEvent.group_id event)
            (Plain (name +:+ "撤回了一条消息：[空消息]")) = Returned answer ->
          fst (group_recall repr cfg Message_of bot event s) = Ok tt).
Proof.
  destruct (get_member_name_returns repr bot (GroupRecallNoticeEvent.group_id event)
              (GroupRecallNoticeEvent.user_id event)) as [name Hname].
  exists name. split; [exact Hname|].
  rewrite (group_recall_text _ _ _ _ _ _ name recalled
             Hwhitelisted Hself Hname Hresolved Hnovoice).
  rewrite (proj2 (build_nothing repr recalled) Hnothing), send_all_one.
  cbn [fst snd sent _message_cache].
  split; [reflexivity|]. intros answer. apply (send_outcome_answered _ _ (_, _)).
Qed.

(** X11. A self-recall in a whitelisted group of content without voice
    that normalizes to something makes exactly one call of [send_group_msg]:
    the message the adapter builds from the text "<name>撤回了一条消息：",
    followed by the normalized segments in their order. What the handler gives
    is what that send gives: it returns normally when the bot answers the
    send. If the adapter refuses the text, the handler raises what the adapter
    raised and sends nothing. Either way the cached entry is gone. *)
Theorem content_recall_notice (repr : pyval -> string) (cfg : Config)
    (Message_of : pyval -> result Message) (bot : Bot)
    (event : GroupRecallNoticeEvent.t) (s : State) (recalled : Message)
    (Hwhitelisted : _in_whitelist cfg (GroupRecallNoticeEvent.group_id event) = true)
    (Hself : GroupRecallNoticeEvent.user_id event = GroupRecallNoticeEvent.operator_id event)
    (Hresolved : resolved Message_of bot s
                   (GroupRecallNoticeEvent.group_id event,
                    GroupRecallNoticeEvent.message_id event)
                   (Some recalled))
    (Hnovoice : List.filter is_record recalled = [])
    (Hcontent : _build_non_voice_message repr recalled <> []) :
  exists name,
    (forall s0, _get_member_name repr bot (GroupRecallNoticeEvent.group_id event)
                  (GroupRecallNoticeEvent.user_id event) s0 = (Ok name, s0))
    /\ (forall out,
          Message_of (PyStr (name +:+ "撤回了一条消息：")) = Ok out ->
          group_recall repr cfg Message_of bot event s =
            (send_outcome bot (sent s)
               (GroupRecallNoticeEvent.group_id event,
                Segments (out ++ _build_non_voice_message repr recalled)),
             {| _message_cache :=
                  snd (pop (_message_cache s)
                         (GroupRecallNoticeEvent.group_id event,
                          GroupRecallNoticeEvent.message_id event));
                sent := sent s
                        ++ [(GroupRecallNoticeEvent.group_id event,
                             Segments (out ++ _build_non_voice_message repr recalled))] |})
          /\ (forall answer,
                send_group_msg bot (sent s) (GroupRecallNoticeEvent.group_id event)
                  (Segments (out ++ _build_non_voice_message repr recalled))
                = Returned answer ->
                fst (group_recall repr cfg Message_of bot event s) = Ok tt))
    /\ (forall e,
          Message_of (PyStr (name +:+ "撤回了一条消息：")) = Raise e ->
          group_recall repr cfg Message_of bot event s =
            (Raise e,
             {| _message_cache :=
                  snd (pop (_message_cache s)
                         (GroupRecallNoticeEvent.group_id event,
                          GroupRecallNoticeEvent.message_id event));
                sent := sent s |})).
Proof.
  destruct (get_member_name_returns repr bot (GroupRecallNoticeEvent.group_id event)
              (GroupRecallNoticeEvent.user_id event)) as [name Hname].
  exists name. split; [exact Hname|].
  rewrite (group_recall_text _ _ _ _ _ _ name recalled
             Hwhitelisted Hself Hname Hresolved Hnovoice).
  destruct (_build_non_voice_message repr recalled) as [|first rest]; [congruence|].
  split.
  - intros out Hout. rewrite Hout, send_all_one. cbn [fst snd sent _message_cache].
    split; [reflexivity|]. intros answer. apply (send_outcome_answered _ _ (_, _)).
  - intros e Hrefused. now rewrite Hrefused.
Qed.

(** What an accepted recall does to the state: the key is popped and
    calls of [send_group_msg] are made for the group of the event. *)
Lemma group_recall_effect repr cfg Message_of bot event s :
  _in_whitelist cfg (GroupRecallNoticeEvent.group_id event) = true ->
  GroupRecallNoticeEvent.user_id event = GroupRecallNoticeEvent.operator_id event ->
  exists outcome new,
    group_recall repr cfg Message_of bot event s =
      (outcome,
       {| _message_cache :=
            snd (pop (_message_cache s)
                   (GroupRecallNoticeEvent.group_id event,
                    GroupRecallNoticeEvent.message_id event));
          sent := sent s ++ new |})
    /\ forall g message, (g, message) ∈ new -> g = GroupRecallNoticeEvent.group_id event.
Proof.
  intros Hwl Hself.
  destruct (get_member_name_returns repr bot (GroupRecallNoticeEvent.group_id event)
              (GroupRecallNoticeEvent.user_id event)) as [name Hname].
  destruct (resolved_exists Message_of bot s
              (GroupRecallNoticeEvent.group_id event, GroupRecallNoticeEvent.message_id event))
    as [content Hres].
  rewrite (group_recall_accepted _ _ _ _ _ _ name content Hwl Hself Hname Hres).
  assert (forall calls cache',
            Forall (fun call => fst call = GroupRecallNoticeEvent.group_id event) calls ->
            exists outcome new,
              send_all bot calls {| _message_cache := cache'; sent := sent s |}
              = (outcome, {| _message_cache := cache'; sent := sent s ++ new |})
              /\ forall g message,
                   (g, message) ∈ new -> g = GroupRecallNoticeEvent.group_id event)
    as Hsends.
  { intros calls cache' Hcalls.
    destruct (send_all_spec bot calls {| _message_cache := cache'; sent := sent s |})
      as (outcome & made & -> & Hprefix & _).
    exists outcome, made. split; [reflexivity|]. intros g message Hin.
    apply (elem_of_prefix _ _ _ Hin) in Hprefix.
    rewrite Forall_forall in Hcalls. exact (Hcalls _ Hprefix). }
  destruct content as [recalled|]; [|apply Hsends; repeat constructor].
  destruct (List.filter is_record recalled) as [|voice voices].
  - destruct (_build_non_voice_message repr recalled);
      [apply Hsends; repeat constructor|].
    destruct (Message_of _); [apply Hsends; repeat constructor|].
    exists (Raise e), []. split; [unfold raise; now rewrite app_nil_r|].
    intros g msg Hin. now apply elem_of_nil in Hin.
  - apply Hsends. constructor; [reflexivity|].
    apply Forall_forall. intros call Hin.
    apply list_elem_of_fmap in Hin as (segment & -> & _). reflexivity.
Qed.

(** X12. An accepted recall uses up the cached entry of its message and
    no other: whichever notice it sends, and also when it raises, the cache
    afterwards is the cache with that key popped; entries under other keys stay,
    in their order; and in a cache without doubled keys the key is gone, so a
    second pop finds nothing. *)
Theorem recall_consumes_its_entry (repr : pyval -> string) (cfg : Config)
    (Message_of : pyval -> result Message) (bot : Bot)
    (event : GroupRecallNoticeEvent.t) (s : State)
    (Hwhitelisted : _in_whitelist cfg (GroupRecallNoticeEvent.group_id event) = true)
    (Hself : GroupRecallNoticeEvent.user_id event = GroupRecallNoticeEvent.operator_id event) :
  _message_cache (snd (group_recall repr cfg Message_of bot event s))
  = snd (pop (_message_cache s)
           (GroupRecallNoticeEvent.group_id event, GroupRecallNoticeEvent.message_id event))
  /\ (forall key message,
        key <> (GroupRecallNoticeEvent.group_id event,
                GroupRecallNoticeEvent.message_id event) ->
        ((key, message) ∈ _message_cache (snd (group_recall repr cfg Message_of bot event s))
         <-> (key, message) ∈ _message_cache s))
  /\ keys (_message_cache (snd (group_recall repr cfg Message_of bot event s)))
     `sublist_of` keys (_message_cache s)
  /\ (NoDup (keys (_message_cache s)) ->
      fst (pop (_message_cache (snd (group_recall repr cfg Message_of bot event s)))
             (GroupRecallNoticeEvent.group_id event,
              GroupRecallNoticeEvent.message_id event))
      = None).
Proof.
  destruct (group_recall_effect repr cfg Message_of bot event s Hwhitelisted Hself)
    as (outcome & new & -> & _).
  cbn [snd _message_cache].
  split; [reflexivity|].
  split; [intros key message Hother; now apply pop_keeps_others|].
  split; [apply keys_pop_sublist|].
  intros Hnodup.
  pose proof (pop_removes_key _ (GroupRecallNoticeEvent.group_id event,
                                 GroupRecallNoticeEvent.message_id event) Hnodup) as Hgone.
  rewrite pop_absent; [reflexivity|].
  intros v Hin. apply Hgone, in_keys. eauto.
Qed.

Lemma group_recall_uncaptured repr cfg Message_of bot event s name :
  _in_whitelist cfg (GroupRecallNoticeEvent.group_id event) = true ->
  GroupRecallNoticeEvent.user_id event = GroupRecallNoticeEvent.operator_id event ->
  (forall s0, _get_member_name repr bot (GroupRecallNoticeEvent.group_id event)
                (GroupRecallNoticeEvent.user_id event) s0 = (Ok name, s0)) ->
  fst (pop (_message_cache s)
         (GroupRecallNoticeEvent.group_id event, GroupRecallNoticeEvent.message_id event))
  = None ->
  (forall s0, _get_recalled_message Message_of bot
                (GroupRecallNoticeEvent.message_id event) s0 = (Ok None, s0)) ->
  group_recall repr cfg Message_of bot event s =
    (send_outcome bot (sent s)
       (GroupRecallNoticeEvent.group_id event,
        Plain (name +:+ "撤回了一条消息：[内容未捕获]")),
     {| _message_cache :=
          snd (pop (_message_cache s)
                 (GroupRecallNoticeEvent.group_id event,
                  GroupRecallNoticeEvent.message_id event));
        sent := sent s ++ [(GroupRecallNoticeEvent.group_id event,
                            Plain (name +:+ "撤回了一条消息：[内容未捕获]"))] |}).
Proof.
  intros Hwl Hself Hname Hmiss Hfetch.
  rewrite (group_recall_accepted _ _ _ _ _ _ name None Hwl Hself Hname);
    [now rewrite send_all_one|].
  apply resolved_fetched; [exact Hmiss|]. simpl. now rewrite Hfetch.
Qed.

(** X13. Popping is final: when a message that cannot be fetched is
    recalled a second time, the second run makes exactly one call of
    [send_group_msg], the notice for content not captured, whatever the first
    recall found in the cache and whether or not its sends were answered. The
    second run returns normally when the bot answers that send. *)
Theorem recalled_twice (repr : pyval -> string) (cfg : Config)
    (Message_of : pyval -> result Message) (bot : Bot)
    (event : GroupRecallNoticeEvent.t) (s : State)
    (Hwhitelisted : _in_whitelist cfg (GroupRecallNoticeEvent.group_id event) = true)
    (Hself : GroupRecallNoticeEvent.user_id event = GroupRecallNoticeEvent.operator_id event)
    (Hdistinct : NoDup (keys (_message_cache s)))
    (Hlost : get_msg bot (GroupRecallNoticeEvent.message_id event) = Failed) :
  exists name,
    (forall s0, _get_member_name repr bot (GroupRecallNoticeEvent.group_id event)
                  (GroupRecallNoticeEvent.user_id event) s0 = (Ok name, s0))
    /\ group_recall repr cfg Message_of bot event
         (snd (group_recall repr cfg Message_of bot event s))
       = (send_outcome bot (sent (snd (group_recall repr cfg Message_of bot event s)))
            (GroupRecallNoticeEvent.group_id event,
             Plain (name +:+ "撤回了一条消息：[内容未捕获]")),
          {| _message_cache :=
               _message_cache (snd (group_recall repr cfg Message_of bot event s));
             sent := sent (snd (group_recall repr cfg Message_of bot event s))
                     ++ [(GroupRecallNoticeEvent.group_id event,
                          Plain (name +:+ "撤回了一条消息：[内容未捕获]"))] |})
    /\ (forall answer,
          send_group_msg bot (sent (snd (group_recall repr cfg Message_of bot event s)))
            (GroupRecallNoticeEvent.group_id event)
            (Plain (name +:+ "撤回了一条消息：[内容未捕获]")) = Returned answer ->
          fst (group_recall repr cfg Message_of bot event
                 (snd (group_recall repr cfg Message_of bot event s))) = Ok tt).
Proof.
  destruct (get_member_name_returns repr bot (GroupRecallNoticeEvent.group_id event)
              (GroupRecallNoticeEvent.user_id event)) as [name Hname].
  exists name. split; [exact Hname|].
  destruct (group_recall_effect repr cfg Message_of bot event s Hwhitelisted Hself)
    as (outcome & new & -> & _).
  cbn [snd _message_cache sent].
  pose proof (pop_removes_key _ (GroupRecallNoticeEvent.group_id event,
                                 GroupRecallNoticeEvent.message_id event) Hdistinct) as Hgone.
  assert (pop (snd (pop (_message_cache s)
                      (GroupRecallNoticeEvent.group_id event,
                       GroupRecallNoticeEvent.message_id event)))
            (GroupRecallNoticeEvent.group_id event, GroupRecallNoticeEvent.message_id event)
          = (None, snd (pop (_message_cache s)
                          (GroupRecallNoticeEvent.group_id event,
                           GroupRecallNoticeEvent.message_id event)))) as Hpop.
  { apply pop_absent. intros v Hin. apply Hgone, in_keys. eauto. }
  rewrite (group_recall_uncaptured _ _ _ _ _ _ name Hwhitelisted Hself Hname).
  - cbn [_message_cache sent fst]. rewrite Hpop. cbn [snd].
    split; [reflexivity|]. intros answer. apply (send_outcome_answered _ _ (_, _)).
  - cbn [_message_cache]. now rewrite Hpop.
  - intros s0. unfold _get_recalled_message. run. now rewrite Hlost.
Qed.

Lemma cache_group_message_silent cfg event s :
  exists cache',
    cache_group_message cfg event s
    = (Ok tt, {| _message_cache := cache'; sent := sent s |}).
Proof.
  destruct (_in_whitelist cfg (GroupMessageEvent.group_id event)) eqn:Hwl.
  - rewrite cache_group_message_accepted by exact Hwl. eauto.
  - rewrite cache_group_message_rejected by exact Hwl. exists (_message_cache s).
    now destruct s.
Qed.

Lemma step_sends repr cfg Message_of ev s :
  exists new,
    sent (snd (handle repr cfg Message_of ev s)) = sent s ++ new
    /\ forall g message, (g, message) ∈ new ->
         g = event_group ev /\ _in_whitelist cfg g = true.
Proof.
  assert (forall g message, (g, message) ∈ @nil (Z * outbound) ->
            g = event_group ev /\ _in_whitelist cfg g = true) as Hnone.
  { intros g message Hin. now apply elem_of_nil in Hin. }
  destruct ev as [e | bot e]; simpl.
  - destruct (cache_group_message_silent cfg e s) as [cache' ->]. simpl.
    exists []. now rewrite app_nil_r.
  - destruct (_in_whitelist cfg (GroupRecallNoticeEvent.group_id e)) eqn:Hwl;
      [|exists []; rewrite group_recall_rejected by (now left);
        now rewrite app_nil_r].
    destruct (decide (GroupRecallNoticeEvent.user_id e
                      = GroupRecallNoticeEvent.operator_id e)) as [Hself|Hother];
      [|exists []; rewrite group_recall_rejected by (now right);
        now rewrite app_nil_r].
    destruct (group_recall_effect repr cfg Message_of bot e s Hwl Hself)
      as (outcome & new & -> & Hgroup).
    exists new. split; [reflexivity|]. intros g message Hin.
    apply Hgroup in Hin. subst g. now split.
Qed.

(** X14. The plugin never posts in a group outside the whitelist: after
    any events, every message it has sent went to a whitelisted group. A
    handler posts only in the group its event came from. *)
Theorem never_posts_outside_whitelist (repr : pyval -> string) (cfg : Config)
    (Message_of : pyval -> result Message) :
  (forall events g message,
      (g, message) ∈ sent (handle_all repr cfg Message_of events initial) ->
      g ∈ recall_group_whitelist cfg)
  /\ (forall ev s, exists new,
        sent (snd (handle repr cfg Message_of ev s)) = sent s ++ new
        /\ forall g message, (g, message) ∈ new -> g = event_group ev).
Proof.
  split.
  - intros events g message Hin.
    assert (_in_whitelist cfg g = true) as Hwl.
    { revert g message Hin.
      apply (handle_all_invariant
               (fun s => forall g message, (g, message) ∈ sent s ->
                                           _in_whitelist cfg g = true)).
      - intros s ev Hs g message Hin.
        destruct (step_sends repr cfg Message_of ev s) as (new & Heq & Hnew).
        rewrite Heq in Hin. apply elem_of_app in Hin as [Hin | Hin].
        + now apply (Hs g message).
        + now apply (Hnew g message).
      - intros g message Hin. now apply elem_of_nil in Hin. }
    unfold _in_whitelist in Hwl. now apply bool_decide_eq_true in Hwl.
  - intros ev s. destruct (step_sends repr cfg Message_of ev s) as (new & Heq & Hnew).
    exists new. split; [exact Heq|]. intros g message Hin. now apply (Hnew g message).
Qed.




(** X16. The live fetch never raises and leaves the state alone. It gives
    no message exactly when the call failed or the adapter refused what came
    back; a [Message] in the answer is returned as it is, plain data is handed
    to the adapter, and an answer without a message field is read like the
    empty text. *)
Theorem fetch_gives_message_or_nothing (Message_of : pyval -> result Message) (bot : Bot)
    (message_id : Z) (s : State) :
  exists fetched,
    _get_recalled_message Message_of bot message_id s = (Ok fetched, s)
    /\ (fetched = None
        <-> get_msg bot message_id = Failed
            \/ exists answer value e,
                 get_msg bot message_id = Returned answer
                 /\ Py.get_default answer "message" (Raw (PyStr "")) = Raw value
                 /\ Message_of value = Raise e)
    /\ (forall answer message,
          get_msg bot message_id = Returned answer ->
          Py.get answer "message" = Some (IsMessage message) ->
          fetched = Some message)
    /\ (forall answer value message,
          get_msg bot message_id = Returned answer ->
          Py.get answer "message" = Some (Raw value) ->
          Message_of value = Ok message ->
          fetched = Some message)
    /\ (forall answer,
          get_msg bot message_id = Returned answer ->
          Py.get answer "message" = None ->
          Ok fetched = match Message_of (PyStr "") with
                       | Ok message => Ok (Some message)
                       | Raise _ => Ok None
                       end).
Proof.
  unfold _get_recalled_message. run.
  destruct (get_msg bot message_id) as [answer|] eqn:Hcall; run.
  - unfold Py.get_default.
    destruct (Py.get answer "message") as [[message | value]|] eqn:Hfield; run.
    + eexists. split; [reflexivity|]. split.
      { split; [discriminate|].
        intros [? | (a & v & e & [= <-] & Hraw & _)]; [discriminate|].
        rewrite Hfield in Hraw. discriminate. }
      repeat split; intros; congruence.
    + destruct (Message_of value) as [message|e] eqn:Hparse; run;
        (eexists; split; [reflexivity|]); (split; [split|repeat split; intros; congruence]).
      * discriminate.
      * intros [? | (a & v & e & [= <-] & Hraw & Hbad)]; [discriminate|].
        rewrite Hfield in Hraw. congruence.
      * intros _. right. exists answer, value, e. rewrite Hfield. auto.
      * reflexivity.
    + destruct (Message_of (PyStr "")) as [message|e] eqn:Hparse; run;
        (eexists; split; [reflexivity|]); (split; [split|repeat split; intros; congruence]).
      * discriminate.
      * intros [? | (a & v & e & [= <-] & Hraw & Hbad)]; [discriminate|].
        rewrite Hfield in Hraw. congruence.
      * intros _. right. exists answer, (PyStr ""), e. rewrite Hfield. auto.
      * reflexivity.
  - eexists. split; [reflexivity|]. split; [split; auto|].
    repeat split; intros; discriminate.
Qed.

Lemma of_Z_not_empty n : Text.of_Z n <> "".
Proof.
  unfold Text.of_Z, NilZero.string_of_int.
  destruct (Z.to_int n) as [d | d]; [|discriminate].
  destruct d; discriminate.
Qed.

(** X17. The display name is never empty: when the card and the nickname
    are missing or blank, or the lookup failed, it is the decimal numeral of the
    user id. *)
Theorem member_name_is_never_empty (repr : pyval -> string) (bot : Bot)
    (group_id user_id : Z) (s : State) :
  exists name,
    _get_member_name repr bot group_id user_id s = (Ok name, s) /\ name <> "".
Proof.
  unfold _get_member_name. run.
  destruct (get_group_member_info bot group_id user_id) as [member|]; run.
  - eexists. split; [reflexivity|].
    destruct (Text.is_empty (Text.strip _)) eqn:Hcard at 1; simpl.
    + destruct (Text.is_empty (Text.strip _)) eqn:Hnick at 1; simpl.
      * apply of_Z_not_empty.
      * now apply is_empty_false.
    + now apply is_empty_false.
  - eexists. split; [reflexivity | apply of_Z_not_empty].
Qed.

Lemma step_unlisted repr cfg Message_of ev s :
  event_group ev ∉ recall_group_whitelist cfg ->
  handle repr cfg Message_of ev s = (Ok tt, s).
Proof.
  intros Hout.
  assert (_in_whitelist cfg (event_group ev) = false) as Hwl.
  { unfold _in_whitelist. now apply bool_decide_eq_false. }
  destruct ev as [e | bot e]; simpl in *.
  - now apply cache_group_message_rejected.
  - apply group_recall_rejected. now left.
Qed.

(** X18. A group outside the whitelist does not exist for the plugin:
    events from such groups change nothing and send nothing, however many come.
    With the whitelist setting absent this holds for every event. *)
Theorem unlisted_groups_are_invisible (repr : pyval -> string) (cfg : Config)
    (Message_of : pyval -> result Message) (events : list event) (s : State) :
  ((forall ev, ev ∈ events -> event_group ev ∉ recall_group_whitelist cfg) ->
   handle_all repr cfg Message_of events s = s
   /\ forall ev, ev ∈ events -> handle repr cfg Message_of ev s = (Ok tt, s))
  /\ (load_recall_group_whitelist None = Ok (recall_group_whitelist cfg) ->
      handle_all repr cfg Message_of events s = s).
Proof.
  assert ((forall ev, ev ∈ events -> event_group ev ∉ recall_group_whitelist cfg) ->
          handle_all repr cfg Message_of events s = s) as Hrun.
  { revert s. induction events as [|ev events IH]; intros s Hout; [reflexivity|].
    simpl. rewrite step_unlisted by (apply Hout; left). simpl.
    apply IH. intros ev' Hin. apply Hout. now right. }
  split.
  - intros Hout. split; [now apply Hrun|].
    intros ev Hin. apply step_unlisted, Hout, Hin.
  - intros Habsent. apply Hrun. intros ev _.
    simpl in Habsent. injection Habsent as <-. apply not_elem_of_empty.
Qed.

(** ** More on the whitelist setting *)

Lemma int_set_members items groups n :
  int_set items = Ok groups ->
  (n ∈ groups <-> exists item, item ∈ items /\ Py.int item = Ok n).
Proof.
  intros Hok. apply int_set_ok in Hok as (ns & Hall & ->).
  rewrite elem_of_list_to_set. induction Hall as [|item m items ns Hitem Hall IH].
  - split; [intros Hin; now apply elem_of_nil in Hin|].
    intros (item & Hin & _). now apply elem_of_nil in Hin.
  - rewrite elem_of_cons, IH. split.
    + intros [-> | (item' & Hin & Hn)].
      * exists item. split; [left | exact Hitem].
      * exists item'. split; [now right | exact Hn].
    + intros (item' & Hin & Hn). apply elem_of_cons in Hin as [-> | Hin].
      * left. congruence.
      * right. eauto.
Qed.

(** X19. A list setting is taken whole or not at all. It parses exactly
    when [int] accepts every item, to the set of the items' integers; when
    [int] refuses an item the parse raises what [int] raised for the first such
    item, and no part of the list becomes a whitelist. *)
Theorem list_setting_all_or_nothing (items : list pyval) :
  (forall groups,
      _parse_recall_group_whitelist (PyList items) = Ok groups
      <-> exists ns, Forall2 (fun item n => Py.int item = Ok n) items ns
                     /\ groups = list_to_set ns)
  /\ (forall e,
        _parse_recall_group_whitelist (PyList items) = Raise e
        <-> exists good bad rest,
              items = good ++ bad :: rest
              /\ Forall (fun item => exists n, Py.int item = Ok n) good
              /\ Py.int bad = Raise e)
  /\ (forall groups n,
        _parse_recall_group_whitelist (PyList items) = Ok groups ->
        (n ∈ groups <-> exists item, item ∈ items /\ Py.int item = Ok n)).
Proof.
  change (_parse_recall_group_whitelist (PyList items)) with (int_set items).
  split; [apply int_set_ok|]. split; [apply int_set_raise|].
  intros groups n. apply int_set_members.
Qed.

(** X20. The gate follows the setting: with the whitelist read from a list
    setting, a group passes [_in_whitelist] exactly when [int] reads some item
    of the list as its id. *)
Theorem gate_follows_list_setting (items : list pyval) (cfg : Config) (group_id : Z)
    (Hloaded : load_recall_group_whitelist (Some (PyList items))
               = Ok (recall_group_whitelist cfg)) :
  _in_whitelist cfg group_id = true
  <-> exists item, item ∈ items /\ Py.int item = Ok group_id.
Proof.
  unfold _in_whitelist. rewrite bool_decide_eq_true.
  apply int_set_members. exact Hloaded.
Qed.

(** ** Whitelist texts are read back

    Numerals first: what [str] prints for an integer, and that [int] and
    the JSON scanner read it as that integer. *)

Lemma nzhead_no_zero d d' : Decimal.nzhead d <> Decimal.D0 d'.
Proof. induction d; simpl; try discriminate. exact IHd. Qed.

Lemma to_uint_no_leading_zero p d' : Pos.to_uint p <> Decimal.D0 d'.
Proof.
  intros Hd.
  pose proof (DecimalPos.Unsigned.to_of (Pos.to_uint p)) as Hnorm.
  rewrite DecimalPos.Unsigned.of_to in Hnorm. simpl in Hnorm.
  rewrite Hd, DecimalFacts.unorm_D0 in Hnorm.
  unfold Decimal.unorm in Hnorm.
  destruct (Decimal.nzhead d') eqn:Hhead;
    try (symmetry in Hnorm; rewrite <- Hhead in Hnorm; now apply nzhead_no_zero in Hnorm).
  injection Hnorm as ->. now apply (DecimalPos.Unsigned.to_uint_nonzero p).
Qed.

Lemma numeral_digits d :
  Forall (fun c => exists k, Text.ascii_digit c = Some k /\ 0 <= k <= 9)
    (Text.chars (NilEmpty.string_of_uint d)).
Proof.
  induction d; cbn [NilEmpty.string_of_uint Text.chars list_ascii_of_string];
    [apply Forall_nil_2|..]; (apply Forall_cons_2; [|exact IHd]);
    eexists; (split; [vm_compute; reflexivity | lia]).
Qed.

Lemma more_digits_numeral d acc :
  Text.more_digits (Zpos acc) (Text.chars (NilEmpty.string_of_uint d))
  = Some (Zpos (Pos.of_uint_acc d acc)).
Proof.
  revert acc. induction d; intros acc; [reflexivity|..];
    cbn [NilEmpty.string_of_uint Text.chars list_ascii_of_string Text.more_digits Pos.of_uint_acc];
    (match goal with
     | |- context [Text.ascii_digit ?c] =>
         let v := eval vm_compute in (Text.ascii_digit c) in
         change (Text.ascii_digit c) with v
     end);
    cbv iota beta;
    (match goal with
     | |- Text.more_digits ?x _ = Some (Zpos (Pos.of_uint_acc _ ?y)) =>
         replace x with (Zpos y) by lia
     end);
    apply IHd.
Qed.

Lemma digit_run_numeral d acc count rest :
  match rest with [] => True | c :: _ => Text.ascii_digit c = None end ->
  exists count',
    Json.digit_run (Zpos acc) count (Text.chars (NilEmpty.string_of_uint d) ++ rest)
    = (Zpos (Pos.of_uint_acc d acc), count', rest).
Proof.
  intros Hrest. revert acc count. induction d; intros acc count.
  { simpl. destruct rest as [|c rest]; [eauto|]. simpl. rewrite Hrest. eauto. }
  all: cbn [NilEmpty.string_of_uint Text.chars list_ascii_of_string Json.digit_run app Pos.of_uint_acc];
    (match goal with
     | |- context [Text.ascii_digit ?c] =>
         let v := eval vm_compute in (Text.ascii_digit c) in
         change (Text.ascii_digit c) with v
     end);
    cbv iota beta;
    (match goal with
     | |- exists _, Json.digit_run ?x _ _ = (Zpos (Pos.of_uint_acc _ ?y), _, _) =>
         replace x with (Zpos y) by lia
     end);
    apply IHd.
Qed.

(** The numeral of a positive number: a digit from 1 to 9, then digits. *)
Lemma numeral_shape p :
  exists c k d,
    Text.chars (NilZero.string_of_uint (Pos.to_uint p))
    = c :: Text.chars (NilEmpty.string_of_uint d)
    /\ Text.ascii_digit c = Some (Zpos k)
    /\ Pos.of_uint_acc d k = p.
Proof.
  pose proof (DecimalPos.Unsigned.of_to p) as Hback.
  destruct (Pos.to_uint p) as [|d|d|d|d|d|d|d|d|d|d] eqn:Hd.
  - now destruct (DecimalPos.Unsigned.to_uint_nonnil p).
  - now destruct (to_uint_no_leading_zero p d).
  - exists "1"%char, 1%positive, d. repeat split. simpl in Hback. congruence.
  - exists "2"%char, 2%positive, d. repeat split. simpl in Hback. congruence.
  - exists "3"%char, 3%positive, d. repeat split. simpl in Hback. congruence.
  - exists "4"%char, 4%positive, d. repeat split. simpl in Hback. congruence.
  - exists "5"%char, 5%positive, d. repeat split. simpl in Hback. congruence.
  - exists "6"%char, 6%positive, d. repeat split. simpl in Hback. congruence.
  - exists "7"%char, 7%positive, d. repeat split. simpl in Hback. congruence.
  - exists "8"%char, 8%positive, d. repeat split. simpl in Hback. congruence.
  - exists "9"%char, 9%positive, d. repeat split. simpl in Hback. congruence.
Qed.

Lemma digit_code c k : Text.ascii_digit c = Some k -> 48 <= Text.code c <= 57 /\ k = Text.code c - 48.
Proof.
  unfold Text.ascii_digit. cbv zeta.
  destruct (Z.leb_spec 48 (Text.code c)); destruct (Z.leb_spec (Text.code c) 57);
    simpl; intros [= <-]; lia.
Qed.

Lemma digit_of_code c : 48 <= Text.code c <= 57 -> Text.ascii_digit c = Some (Text.code c - 48).
Proof.
  intros Hc. unfold Text.ascii_digit. cbv zeta.
  destruct (Z.leb_spec 48 (Text.code c)); destruct (Z.leb_spec (Text.code c) 57);
    simpl; try reflexivity; lia.
Qed.

Lemma digit_none c : ~ 48 <= Text.code c <= 57 -> Text.ascii_digit c = None.
Proof.
  intros Hc. unfold Text.ascii_digit. cbv zeta.
  destruct (Z.leb_spec 48 (Text.code c)); destruct (Z.leb_spec (Text.code c) 57);
    simpl; try reflexivity; lia.
Qed.

(** The numeral of an integer: a single zero, or an optional minus sign,
    a digit from 1 to 9 and digits. *)
Lemma of_Z_chars n :
  match n with
  | 0 => Text.chars (Text.of_Z n) = ["0"%char]
  | Zpos p =>
      exists c k d,
        Text.chars (Text.of_Z n) = c :: Text.chars (NilEmpty.string_of_uint d)
        /\ Text.ascii_digit c = Some (Zpos k) /\ Pos.of_uint_acc d k = p
  | Zneg p =>
      exists c k d,
        Text.chars (Text.of_Z n) = "-"%char :: c :: Text.chars (NilEmpty.string_of_uint d)
        /\ Text.ascii_digit c = Some (Zpos k) /\ Pos.of_uint_acc d k = p
  end.
Proof.
  destruct n as [|p|p]; [reflexivity|..];
    destruct (numeral_shape p) as (c & k & d & Hchars & Hc & Hp);
    exists c, k, d; (split; [|now split]).
  - exact Hchars.
  - unfold Text.of_Z. simpl Z.to_int. cbn [NilZero.string_of_int].
    cbn [Text.chars list_ascii_of_string]. f_equal. exact Hchars.
Qed.

Lemma numeral_chars d : Forall numeral_char (Text.chars (NilEmpty.string_of_uint d)).
Proof.
  eapply Forall_impl; [apply numeral_digits|].
  intros c (k & Hk & _). left. now apply digit_code in Hk.
Qed.

Lemma of_Z_numeral n :
  Forall numeral_char (Text.chars (Text.of_Z n)) /\ Text.chars (Text.of_Z n) <> [].
Proof.
  pose proof (of_Z_chars n) as Hn.
  destruct n as [|p|p].
  - rewrite Hn. split; [|discriminate]. constructor; [|constructor].
    left. vm_compute. split; discriminate.
  - destruct Hn as (c & k & d & -> & Hc & _). split; [|discriminate].
    constructor; [|apply numeral_chars]. left. now apply digit_code in Hc.
  - destruct Hn as (c & k & d & -> & Hc & _). split; [|discriminate].
    constructor; [right; reflexivity|].
    constructor; [|apply numeral_chars]. left. now apply digit_code in Hc.
Qed.

(** *** Blanks *)

Lemma space2_low_l c1 c2 : Text.code c1 < 128 -> Text.space2 c1 c2 = false.
Proof.
  intros Hlow. unfold Text.space2.
  destruct (Z.eqb_spec (Text.code c1) 194); [lia | reflexivity].
Qed.

Lemma space2_low_r c1 c2 : Text.code c2 < 128 -> Text.space2 c1 c2 = false.
Proof.
  intros Hlow. unfold Text.space2.
  destruct (Z.eqb_spec (Text.code c2) 133); [lia|].
  destruct (Z.eqb_spec (Text.code c2) 160); [lia|].
  apply andb_false_r.
Qed.

Lemma space3_low_l c1 c2 c3 : Text.code c1 < 128 -> Text.space3 c1 c2 c3 = false.
Proof.
  intros Hlow. unfold Text.space3.
  destruct (Z.eqb_spec (Text.code c1) 225); [lia|].
  destruct (Z.eqb_spec (Text.code c1) 226); [lia|].
  destruct (Z.eqb_spec (Text.code c1) 227); [lia|].
  reflexivity.
Qed.

Lemma space3_low_r c1 c2 c3 : Text.code c3 < 128 -> Text.space3 c1 c2 c3 = false.
Proof.
  intros Hlow. unfold Text.space3.
  destruct (Z.eqb_spec (Text.code c3) 128); [lia|].
  destruct (Z.leb_spec 128 (Text.code c3)); [lia|].
  destruct (Z.eqb_spec (Text.code c3) 168); [lia|].
  destruct (Z.eqb_spec (Text.code c3) 169); [lia|].
  destruct (Z.eqb_spec (Text.code c3) 175); [lia|].
  destruct (Z.eqb_spec (Text.code c3) 159); [lia|].
  simpl. now rewrite !andb_false_r.
Qed.

Lemma drop_blank_low sp1 fwd c r :
  sp1 c = false -> Text.code c < 128 -> Text.drop_blank sp1 fwd (c :: r) = c :: r.
Proof.
  intros Hsp Hlow. cbn [Text.drop_blank]. rewrite Hsp.
  destruct r as [|c2 [|c3 r]].
  - reflexivity.
  - unfold Text.sp2. destruct fwd; [rewrite space2_low_l | rewrite space2_low_r];
      auto.
  - unfold Text.sp2, Text.sp3.
    destruct fwd;
      [rewrite space2_low_l, space3_low_l | rewrite space2_low_r, space3_low_r]; auto.
Qed.

Lemma strip_with_low sp1 l :
  l <> [] -> Forall (fun c => sp1 c = false /\ Text.code c < 128) l ->
  Text.strip_with sp1 l = l.
Proof.
  intros Hne Hall. unfold Text.strip_with.
  destruct l as [|c r]; [congruence|].
  rewrite drop_blank_low by (apply Forall_cons in Hall; tauto).
  destruct (exists_last Hne) as (init & c' & Heq). rewrite Heq in *.
  rewrite rev_app_distr. cbn [rev app].
  apply Forall_app in Hall as [_ Hlast]. apply Forall_cons in Hlast as [[Hsp Hlow] _].
  rewrite drop_blank_low by assumption.
  change (c' :: rev init) with (rev [c'] ++ rev init).
  now rewrite <- rev_app_distr, rev_involutive.
Qed.

Lemma numeral_not_blank c :
  numeral_char c ->
  (Text.space1 c = false /\ Text.code c < 128)
  /\ (Text.int_space1 c = false /\ Text.code c < 128).
Proof.
  intros Hc. unfold Text.space1, Text.int_space1. cbv zeta.
  destruct (Z.leb_spec 9 (Text.code c)); destruct (Z.leb_spec (Text.code c) 13);
    destruct (Z.leb_spec 28 (Text.code c)); destruct (Z.leb_spec (Text.code c) 31);
    destruct (Z.eqb_spec (Text.code c) 32); simpl; unfold numeral_char in Hc;
    repeat split; try reflexivity; lia.
Qed.

Lemma strip_numeral sp l :
  (sp = Text.space1 \/ sp = Text.int_space1) ->
  l <> [] -> Forall numeral_char l -> Text.strip_with sp l = l.
Proof.
  intros Hsp Hne Hall. apply strip_with_low; [exact Hne|].
  eapply Forall_impl; [exact Hall|]. intros c Hc.
  destruct (numeral_not_blank c Hc) as [H1 H2]. destruct Hsp as [-> | ->]; assumption.
Qed.

(** An ASCII text is read by [int()] as it stands. *)
Lemma to_ascii_decimal_low l :
  Forall (fun c => Text.code c < 127) l -> Text.to_ascii_decimal l = l.
Proof.
  induction 1 as [|c l Hc _ IH]; [reflexivity|].
  cbn [Text.to_ascii_decimal].
  destruct (Z.ltb_spec (Text.code c) 127); [|lia]. now rewrite IH.
Qed.

Lemma numeral_low l : Forall numeral_char l -> Forall (fun c => Text.code c < 127) l.
Proof.
  intros Hall. eapply Forall_impl; [exact Hall|].
  unfold numeral_char. intros c Hc. lia.
Qed.

(** [int(str(n))] is [n]. *)
Lemma to_Z_of_Z n : Text.to_Z (Text.of_Z n) = Some n.
Proof.
  unfold Text.to_Z.
  destruct (of_Z_numeral n) as [Hall Hne].
  rewrite to_ascii_decimal_low by (now apply numeral_low).
  rewrite strip_numeral by auto.
  pose proof (of_Z_chars n) as Hn. destruct n as [|p|p].
  - rewrite Hn. reflexivity.
  - destruct Hn as (c & k & d & -> & Hc & <-).
    pose proof (digit_code c _ Hc) as [Hrange _].
    destruct (Z.eqb_spec (Text.code c) 45); [lia|].
    destruct (Z.eqb_spec (Text.code c) 43); [lia|].
    unfold Text.digits. rewrite Hc. apply more_digits_numeral.
  - destruct Hn as (c & k & d & -> & Hc & <-).
    change (Text.code "-" =? 45) with true. cbv iota.
    unfold Text.digits. rewrite Hc, more_digits_numeral. reflexivity.
Qed.

Lemma join_numerals_chars ns : Forall list_char (join_comma (numerals ns)).
Proof.
  induction ns as [|n ns IH]; [constructor|].
  assert (Forall list_char (Text.chars (Text.of_Z n))) as Hn.
  { eapply Forall_impl; [apply of_Z_numeral|]. intros c Hc. now left. }
  cbn [numerals map join_comma]. fold (numerals ns).
  destruct (numerals ns) as [|item rest] eqn:Hrest; [exact Hn|].
  apply Forall_app. split; [exact Hn|].
  constructor; [right; left; reflexivity | exact IH].
Qed.

Lemma join_numerals_head n ns :
  exists c r, join_comma (numerals (n :: ns)) = c :: r /\ numeral_char c.
Proof.
  destruct (of_Z_numeral n) as [Hall Hne].
  cbn [numerals map join_comma]. fold (numerals ns).
  destruct (Text.chars (Text.of_Z n)) as [|c r] eqn:Hn; [congruence|].
  apply Forall_cons in Hall as [Hc _].
  destruct (numerals ns); simpl; eauto.
Qed.

Lemma list_char_low c :
  list_char c -> (Text.space1 c = false /\ Text.code c < 128) /\ Text.code c <> 239.
Proof.
  intros Hc. unfold Text.space1. cbv zeta.
  destruct (Z.leb_spec 9 (Text.code c)); destruct (Z.leb_spec (Text.code c) 13);
    destruct (Z.leb_spec 28 (Text.code c)); destruct (Z.leb_spec (Text.code c) 31);
    destruct (Z.eqb_spec (Text.code c) 32); simpl;
    unfold list_char, numeral_char in Hc; repeat split; try reflexivity; lia.
Qed.

Lemma replace_nothing l :
  Forall (fun c => Text.code c <> 239) l -> replace_fullwidth_comma l = l.
Proof.
  induction 1 as [|c1 r1 Hc Hall IH]; [reflexivity|].
  cbn [replace_fullwidth_comma]. rewrite IH.
  destruct r1 as [|c2 [|c3 r3]]; try reflexivity.
  unfold Json.byte_is at 1. destruct (Z.eqb_spec (Text.code c1) 239); [lia | reflexivity].
Qed.

Lemma split_comma_item cur item rest :
  Forall (fun c => Text.code c <> 44) item ->
  split_comma cur (item ++ rest) = split_comma (rev item ++ cur) rest.
Proof.
  intros Hall. revert cur. induction Hall as [|c item Hc Hall IH]; intros cur; [reflexivity|].
  cbn [app split_comma]. unfold Json.byte_is.
  destruct (Z.eqb_spec (Text.code c) 44); [lia|].
  rewrite IH. cbn [rev]. now rewrite <- app_assoc.
Qed.

Lemma split_join items :
  items <> [] -> Forall (Forall (fun c => Text.code c <> 44)) items ->
  split_comma [] (join_comma items) = items.
Proof.
  intros Hne Hall. induction Hall as [|item items Hitem Hall IH]; [congruence|].
  cbn [join_comma]. destruct items as [|item' items].
  - rewrite <- (app_nil_r item) at 1. rewrite split_comma_item by exact Hitem.
    cbn [split_comma]. now rewrite app_nil_r, rev_involutive.
  - rewrite split_comma_item by exact Hitem.
    cbn [split_comma]. change (Json.byte_is (Json.byte 44) 44) with true. cbv iota.
    rewrite app_nil_r, rev_involutive. f_equal. apply IH. discriminate.
Qed.

Lemma numeral_no_comma n :
  Forall (fun c => Text.code c <> 44) (Text.chars (Text.of_Z n)).
Proof.
  eapply Forall_impl; [apply of_Z_numeral|]. intros c Hc. unfold numeral_char in Hc. lia.
Qed.

(** *** Scanning a numeral *)

Lemma ends_number_no_digit rest :
  ends_number rest -> match rest with [] => True | c :: _ => Text.ascii_digit c = None end.
Proof. destruct rest as [|c r]; [auto|]. intros Hc. apply digit_none. simpl in Hc. lia. Qed.

Lemma frac_part_none n rest : ends_number rest -> Json.frac_part n rest = None.
Proof.
  destruct rest as [|p [|d r]]; try reflexivity. intros Hp. simpl in Hp.
  unfold Json.frac_part, Json.byte_is.
  destruct (Z.eqb_spec (Text.code p) 46); [lia | reflexivity].
Qed.

Lemma exp_part_none rest : ends_number rest -> Json.exp_part rest = None.
Proof.
  destruct rest as [|e r]; [reflexivity|]. intros He. simpl in He.
  unfold Json.exp_part, Json.byte_is.
  destruct (Z.eqb_spec (Text.code e) 101); [lia|].
  destruct (Z.eqb_spec (Text.code e) 69); [lia | reflexivity].
Qed.

Lemma int_part_numeral p c k d rest :
  Text.ascii_digit c = Some (Zpos k) -> Pos.of_uint_acc d k = p -> ends_number rest ->
  Json.int_part (c :: Text.chars (NilEmpty.string_of_uint d) ++ rest) = Some (Zpos p, rest).
Proof.
  intros Hc Hp Hrest. unfold Json.int_part. rewrite Hc.
  destruct (digit_run_numeral d k 1 rest (ends_number_no_digit _ Hrest)) as [count ->].
  now rewrite Hp.
Qed.

Lemma scan_number_numeral n rest :
  ends_number rest ->
  Json.scan_number (Text.chars (Text.of_Z n) ++ rest) = Json.Scanned (PyInt n) rest.
Proof.
  intros Hrest. pose proof (of_Z_chars n) as Hn. unfold Json.scan_number.
  destruct n as [|p|p].
  - rewrite Hn. cbn [app]. change (Json.byte_is "0" 45) with false. cbv iota.
    change (Json.int_part ("0"%char :: rest)) with (Some (0, rest)). cbv iota beta.
    now rewrite frac_part_none, exp_part_none.
  - destruct Hn as (c & k & d & -> & Hc & Hp). cbn [app].
    pose proof (digit_code c _ Hc) as [Hrange _].
    unfold Json.byte_is at 1. destruct (Z.eqb_spec (Text.code c) 45); [lia|].
    rewrite (int_part_numeral p c k d rest Hc Hp Hrest).
    now rewrite frac_part_none, exp_part_none.
  - destruct Hn as (c & k & d & -> & Hc & Hp). cbn [app].
    change (Json.byte_is "-" 45) with true. cbv iota.
    rewrite (int_part_numeral p c k d rest Hc Hp Hrest).
    now rewrite frac_part_none, exp_part_none.
Qed.

Lemma after_other w word c r :
  Text.code w <> Text.code c -> Json.after (w :: word) (c :: r) = None.
Proof.
  intros Hne. cbn [Json.after]. destruct (Ascii.eqb_spec w c); [congruence | reflexivity].
Qed.

Lemma scan_once_numeral fuel n rest :
  ends_number rest ->
  Json.scan_once (S fuel) (Text.chars (Text.of_Z n) ++ rest) = Json.Scanned (PyInt n) rest.
Proof.
  intros Hrest. rewrite <- (scan_number_numeral n rest Hrest).
  destruct (of_Z_numeral n) as [Hall Hne].
  destruct (Text.chars (Text.of_Z n)) as [|c r] eqn:Hchars; [congruence|].
  apply Forall_cons in Hall as [Hc Hall]. cbn [app Json.scan_once].
  unfold Json.byte_is.
  destruct (Z.eqb_spec (Text.code c) 34); [unfold numeral_char in Hc; lia|].
  destruct (Z.eqb_spec (Text.code c) 123); [unfold numeral_char in Hc; lia|].
  destruct (Z.eqb_spec (Text.code c) 91); [unfold numeral_char in Hc; lia|].
  assert (Json.after (Text.chars "-Infinity") (c :: r ++ rest) = None) as ->.
  { cbn [Text.chars list_ascii_of_string Json.after].
    destruct (Ascii.eqb_spec "-" c) as [<-|]; [|reflexivity].
    pose proof (of_Z_chars n) as Hn. destruct n as [|p|p].
    - rewrite Hchars in Hn. discriminate.
    - destruct Hn as (c' & k & d & Heq & Hc' & _). rewrite Hchars in Heq.
      injection Heq as <- _. discriminate.
    - destruct Hn as (c' & k & d & Heq & Hc' & _). rewrite Hchars in Heq.
      injection Heq as ->. cbn [app].
      destruct (Ascii.eqb_spec "I" c') as [<-|]; [discriminate | reflexivity]. }
  cbn [Text.chars list_ascii_of_string].
  rewrite !after_other by (unfold numeral_char in Hc; vm_compute Text.code at 1; lia).
  reflexivity.
Qed.

Lemma int_set_numerals ns :
  int_set (map PyStr (map (fun n => Text.of_Z n) ns)) = Ok (list_to_set ns).
Proof.
  induction ns as [|n ns IH]; [reflexivity|].
  cbn [map int_set Py.int]. now rewrite to_Z_of_Z, IH.
Qed.

Lemma text_chars s : Text.text (Text.chars s) = s.
Proof. apply string_of_list_ascii_of_string. Qed.

Lemma is_empty_text l : l <> [] -> Text.is_empty (Text.text l) = false.
Proof. destruct l; [congruence | reflexivity]. Qed.

Lemma skip_ws_list_char c r : list_char c -> Json.skip_ws (c :: r) = c :: r.
Proof.
  intros Hc. cbn [Json.skip_ws]. unfold Json.blank, Json.byte_is.
  unfold list_char, numeral_char in Hc.
  destruct (Z.eqb_spec (Text.code c) 32); [lia|].
  destruct (Z.eqb_spec (Text.code c) 9); [lia|].
  destruct (Z.eqb_spec (Text.code c) 10); [lia|].
  destruct (Z.eqb_spec (Text.code c) 13); [lia | reflexivity].
Qed.

Lemma no_bom c r : list_char c -> Json.after (Json.utf8 65279) (c :: r) = None.
Proof.
  intros Hc. change (Json.utf8 65279) with [Json.byte 239; Json.byte 187; Json.byte 191].
  apply after_other. change (Text.code (Json.byte 239)) with 239.
  unfold list_char, numeral_char in Hc. lia.
Qed.

(** [json.loads] on a list text. *)
Lemma loads_list_text c r :
  list_char c ->
  Json.loads (Text.text (c :: r)) =
    match Json.scan_once (2 * length (c :: r) + 2) (c :: r) with
    | Json.Scanned v rest => match Json.skip_ws rest with [] => Some v | _ :: _ => None end
    | _ => None
    end.
Proof.
  intros Hc. unfold Json.loads. rewrite chars_text, no_bom by exact Hc.
  rewrite skip_ws_list_char by exact Hc. reflexivity.
Qed.

Lemma fuel_succ (n : nat) : (2 * n + 2 = S (2 * n + 1))%nat.
Proof. lia. Qed.

Lemma loads_one n : Json.loads (comma_separated [n]) = Some (PyInt n).
Proof.
  unfold comma_separated. cbn [numerals map join_comma].
  destruct (of_Z_numeral n) as [Hall Hne].
  destruct (Text.chars (Text.of_Z n)) as [|c r] eqn:Hchars; [congruence|].
  rewrite loads_list_text by (left; now apply Forall_cons in Hall).
  rewrite fuel_succ, <- Hchars, <- (app_nil_r (Text.chars (Text.of_Z n))).
  now rewrite scan_once_numeral.
Qed.

Lemma loads_several n m ns : Json.loads (comma_separated (n :: m :: ns)) = None.
Proof.
  unfold comma_separated.
  destruct (join_numerals_head n (m :: ns)) as (c & r & Hjoin & Hc).
  rewrite Hjoin, loads_list_text by (now left). rewrite <- Hjoin.
  cbn [numerals map join_comma]. rewrite fuel_succ.
  rewrite scan_once_numeral by (left; reflexivity).
  rewrite skip_ws_list_char by (right; left; reflexivity). reflexivity.
Qed.

Lemma strip_list_text l :
  l <> [] -> Forall list_char l -> Text.strip (Text.text l) = Text.text l.
Proof.
  intros Hne Hall. unfold Text.strip. rewrite chars_text. f_equal.
  apply strip_with_low; [exact Hne|].
  eapply Forall_impl; [exact Hall|]. intros c Hc. now apply list_char_low.
Qed.

Lemma numerals_not_nil ns : ns <> [] -> join_comma (numerals ns) <> [].
Proof.
  destruct ns as [|n ns]; [congruence|]. intros _.
  destruct (join_numerals_head n ns) as (c & r & -> & _). discriminate.
Qed.

Lemma comma_parts ns :
  ns <> [] ->
  List.filter (fun item => negb (Text.is_empty item))
    (map (fun item => Text.text (Text.strip_with Text.space1 item))
       (split_comma [] (replace_fullwidth_comma (join_comma (numerals ns)))))
  = map (fun n => Text.of_Z n) ns.
Proof.
  intros Hne.
  rewrite replace_nothing.
  2:{ eapply Forall_impl; [apply join_numerals_chars|].
      intros c Hc. now apply list_char_low. }
  rewrite split_join.
  2:{ destruct ns; [congruence | discriminate]. }
  2:{ unfold numerals. apply Forall_map, Forall_forall. intros n _. apply numeral_no_comma. }
  unfold numerals. rewrite map_map. clear Hne.
  induction ns as [|n ns IH]; [reflexivity|].
  cbn [map List.filter].
  destruct (of_Z_numeral n) as [Hall Hnn].
  rewrite strip_numeral by auto. rewrite text_chars.
  destruct (Text.of_Z n) eqn:Hn; [now destruct Hnn|]. cbn [Text.is_empty negb].
  now rewrite IH.
Qed.

(** X21. A whitelist written as decimal numerals separated by commas is
    read back as it was meant: for every non-empty list of integers, the text
    of their numerals joined by commas parses to the set of those integers. *)
Theorem comma_text_round_trip (ns : list Z) :
  ns <> [] ->
  _parse_recall_group_whitelist (PyStr (comma_separated ns)) = Ok (list_to_set ns).
Proof.
  intros Hne. unfold _parse_recall_group_whitelist.
  assert (Text.strip (comma_separated ns) = comma_separated ns) as ->.
  { apply strip_list_text; [now apply numerals_not_nil | apply join_numerals_chars]. }
  cbv zeta.
  assert (Text.is_empty (comma_separated ns) = false) as ->.
  { apply is_empty_text. now apply numerals_not_nil. }
  destruct ns as [|n [|m ns]]; [congruence|..].
  - rewrite loads_one. cbn [Py.int list_to_set]. f_equal. symmetry. apply union_empty_r_L.
  - rewrite loads_several. unfold comma_separated at 1. rewrite chars_text.
    rewrite comma_parts by discriminate. apply int_set_numerals.
Qed.

(** *** JSON arrays *)

Lemma scan_items_numerals fuel acc ns :
  ns <> [] -> (length ns < fuel)%nat ->
  Json.scan_items fuel acc (join_comma (numerals ns) ++ [Json.byte 93])
  = Json.Scanned (PyList (rev acc ++ map PyInt ns)) [].
Proof.
  revert fuel acc. induction ns as [|n ns IH]; intros fuel acc Hne Hfuel; [congruence|].
  destruct fuel as [|fuel]; [lia|]. cbn [Json.scan_items].
  destruct fuel as [|fuel]; [simpl in Hfuel; destruct ns; simpl in Hfuel; lia|].
  destruct ns as [|m ns].
  - cbn [numerals map join_comma]. rewrite scan_once_numeral by (right; reflexivity).
    cbn [Json.skip_ws]. change (Json.blank (Json.byte 93)) with false. cbv iota.
    change (Json.byte_is (Json.byte 93) 93) with true. cbv iota.
    cbn [rev map]. reflexivity.
  - change (join_comma (numerals (n :: m :: ns)))
      with (Text.chars (Text.of_Z n) ++ Json.byte 44 :: join_comma (numerals (m :: ns))).
    rewrite <- app_assoc. cbn [app].
    rewrite scan_once_numeral by (left; reflexivity).
    cbn [Json.skip_ws]. change (Json.blank (Json.byte 44)) with false. cbv iota.
    change (Json.byte_is (Json.byte 44) 93) with false.
    change (Json.byte_is (Json.byte 44) 44) with true. cbv iota.
    destruct (join_numerals_head m ns) as (c & r & Hjoin & Hc).
    assert (Json.skip_ws (join_comma (numerals (m :: ns)) ++ [Json.byte 93])
            = join_comma (numerals (m :: ns)) ++ [Json.byte 93]) as ->.
    { rewrite Hjoin. cbn [app]. apply skip_ws_list_char. now left. }
    rewrite IH by (simpl in *; try discriminate; lia).
    cbn [rev map]. now rewrite <- app_assoc.
Qed.

Lemma join_numerals_length ns : (length ns <= length (join_comma (numerals ns)))%nat.
Proof.
  induction ns as [|n ns IH]; [simpl; lia|].
  destruct (of_Z_numeral n) as [_ Hne].
  cbn [numerals map join_comma]. fold (numerals ns).
  destruct (Text.chars (Text.of_Z n)) as [|c r]; [congruence|].
  destruct (numerals ns) as [|item rest] eqn:Hnum.
  - destruct ns; [simpl; lia | discriminate].
  - rewrite length_app. simpl in *. lia.
Qed.

Lemma loads_array ns : Json.loads (json_array ns) = Some (PyList (map PyInt ns)).
Proof.
  unfold json_array.
  rewrite loads_list_text by (right; right; left; reflexivity).
  rewrite fuel_succ. cbn [Json.scan_once].
  change (Json.byte_is (Json.byte 91) 34) with false.
  change (Json.byte_is (Json.byte 91) 123) with false.
  change (Json.byte_is (Json.byte 91) 91) with true. cbv iota.
  destruct ns as [|n ns].
  - reflexivity.
  - destruct (join_numerals_head n ns) as (c & r & Hjoin & Hc).
    assert (Json.skip_ws (join_comma (numerals (n :: ns)) ++ [Json.byte 93])
            = c :: r ++ [Json.byte 93]) as ->.
    { rewrite Hjoin. cbn [app]. apply skip_ws_list_char. now left. }
    unfold Json.byte_is at 1.
    destruct (Z.eqb_spec (Text.code c) 93); [unfold numeral_char in Hc; lia|].
    change (c :: r ++ [Json.byte 93]) with ((c :: r) ++ [Json.byte 93]).
    rewrite <- Hjoin, scan_items_numerals; [reflexivity | discriminate|].
    pose proof (join_numerals_length (n :: ns)) as Hlen.
    cbn [length] in *. rewrite length_app. cbn [length]. lia.
Qed.

(** X22. A whitelist written as a JSON array of decimal numerals is read
    back as it was meant: for every list of integers, the empty one included,
    the text of their numerals joined by commas between brackets parses to the
    set of those integers. *)
Theorem json_array_round_trip (ns : list Z) :
  _parse_recall_group_whitelist (PyStr (json_array ns)) = Ok (list_to_set ns).
Proof.
  unfold _parse_recall_group_whitelist.
  assert (Text.strip (json_array ns) = json_array ns) as ->.
  { apply strip_list_text; [discriminate|].
    constructor; [right; right; left; reflexivity|].
    apply Forall_app. split; [apply join_numerals_chars|].
    constructor; [right; right; right; reflexivity | constructor]. }
  cbv zeta.
  assert (Text.is_empty (json_array ns) = false) as -> by (now apply is_empty_text).
  rewrite loads_array. apply int_set_of_ints.
Qed.

(** ** The further statements at work on sample data *)

Lemma sample_cache_small :
  Z.of_nat (length (_message_cache Sample.cached_voice)) <= _cache_max_size.
Proof. vm_compute. discriminate. Defined.

Lemma sample_keys_distinct : NoDup (keys (_message_cache Sample.cached_voice)).
Proof.
  apply NoDup_cons. split; [|apply NoDup_singleton].
  intros Hin. apply list_elem_of_singleton in Hin. discriminate.
Defined.

(** The placeholder of the video is in the content and is no face. *)
Lemma normalizer_output_kinds_sample :
  MessageSegment_text "[视频]" ∈ _build_non_voice_message no_repr Sample.mixed_message
  /\ type (MessageSegment_text "[视频]") ∈ ["text"; "image"; "face"].
Proof.
  assert (MessageSegment_text "[视频]"
          ∈ _build_non_voice_message no_repr Sample.mixed_message) as Hin.
  { change (_build_non_voice_message no_repr Sample.mixed_message)
      with [MessageSegment_text "hi"; Sample.image "b.png"; MessageSegment_text "[视频]"].
    do 2 apply list_elem_of_further. apply list_elem_of_here. }
  split; [exact Hin|].
  apply (normalizer_output_kinds no_repr Sample.mixed_message _ Hin).
Defined.

(** Message 43 arrives and is found under its key. *)
Lemma received_message_is_found_sample :
  _in_whitelist Sample.config (GroupMessageEvent.group_id (Sample.received 43)) = true
  /\ Z.of_nat (length (_message_cache Sample.cached_voice)) <= _cache_max_size
  /\ fst (pop (_message_cache
                 (snd (cache_group_message Sample.config (Sample.received 43)
                         Sample.cached_voice)))
            (100, 43))
     = Some [MessageSegment_text "hi"].
Proof.
  split; [exact sample_group_whitelisted|]. split; [exact sample_cache_small|].
  apply (received_message_is_found Sample.config (Sample.received 43) Sample.cached_voice
           sample_group_whitelisted sample_cache_small).
Defined.

(** Message 41 arrives again: the keys stay in their order. *)
Lemma received_again_keeps_age_sample :
  key_of (Sample.received 41) ∈ keys (_message_cache Sample.cached_voice)
  /\ keys (_message_cache
             (snd (cache_group_message Sample.config (Sample.received 41)
                     Sample.cached_voice)))
     = [(100, 41); (100, 42)].
Proof.
  assert (key_of (Sample.received 41) ∈ keys (_message_cache Sample.cached_voice))
    as Hcached by apply list_elem_of_here.
  split; [exact Hcached|].
  apply (received_again_keeps_age Sample.config (Sample.received 41) Sample.cached_voice
           sample_group_whitelisted sample_cache_small Hcached).
Defined.

(** One message of group 100 is cached, and group 100 is whitelisted. *)
Lemma only_whitelisted_groups_are_cached_sample :
  ((100, 1), [MessageSegment_text "hi"])
  ∈ _message_cache (handle_all no_repr Sample.config Sample.Message_of
                      [Received (Sample.received 1)] initial)
  /\ 100 ∈ recall_group_whitelist Sample.config.
Proof.
  assert (((100, 1), [MessageSegment_text "hi"])
          ∈ _message_cache (handle_all no_repr Sample.config Sample.Message_of
                              [Received (Sample.received 1)] initial)) as Hin.
  { assert (_message_cache (handle_all no_repr Sample.config Sample.Message_of
                              [Received (Sample.received 1)] initial)
            = [((100, 1), [MessageSegment_text "hi"])]) as ->
        by (vm_compute; reflexivity).
    apply list_elem_of_here. }
  split; [exact Hin|].
  apply (only_whitelisted_groups_are_cached no_repr Sample.config Sample.Message_of
           [Received (Sample.received 1)] 100 1 [MessageSegment_text "hi"] Hin).
Defined.

Lemma sample_mentions_left_out segment :
  segment ∈ [Sample.mention; Sample.reply] -> left_out no_repr segment.
Proof.
  intros Hin. left. apply elem_of_cons in Hin as [-> | Hin].
  - apply list_elem_of_here.
  - apply list_elem_of_singleton in Hin. subst segment.
    apply list_elem_of_further, list_elem_of_here.
Defined.

(** Ann recalls a message that only mentions and replies. *)
Lemma empty_recall_notice_sample :
  List.filter is_record [Sample.mention; Sample.reply] = []
  /\ (forall segment, segment ∈ [Sample.mention; Sample.reply] -> left_out no_repr segment)
  /\ sent (snd (group_recall no_repr Sample.config Sample.Message_of Sample.bot
                  Sample.self_recall Sample.cached_mentions))
     = [(100, Plain "Ann撤回了一条消息：[空消息]")].
Proof.
  split; [reflexivity|]. split; [exact sample_mentions_left_out|].
  destruct (empty_recall_notice no_repr Sample.config Sample.Message_of Sample.bot
              Sample.self_recall Sample.cached_mentions [Sample.mention; Sample.reply]
              sample_group_whitelisted eq_refl
              (resolved_cached _ _ Sample.cached_mentions (100, 42) _ eq_refl)
              eq_refl sample_mentions_left_out)
    as (name & Hname & Hrun & _).
  rewrite Hrun. specialize (Hname initial). rewrite sample_name in Hname.
  injection Hname as <-. reflexivity.
Defined.

(** Ann recalls a message with text, a mention, an image and a video. *)
Lemma content_recall_notice_sample :
  List.filter is_record Sample.mixed_message = []
  /\ _build_non_voice_message no_repr Sample.mixed_message <> []
  /\ sent (snd (group_recall no_repr Sample.config Sample.Message_of Sample.bot
                  Sample.self_recall Sample.cached_text))
     = [(100, Segments [MessageSegment_text "Ann撤回了一条消息：";
                        MessageSegment_text "hi"; Sample.image "b.png";
                        MessageSegment_text "[视频]"])].
Proof.
  assert (_build_non_voice_message no_repr Sample.mixed_message <> []) as Hcontent
      by discriminate.
  split; [reflexivity|]. split; [exact Hcontent|].
  destruct (content_recall_notice no_repr Sample.config Sample.Message_of Sample.bot
              Sample.self_recall Sample.cached_text Sample.mixed_message
              sample_group_whitelisted eq_refl
              (resolved_cached _ _ Sample.cached_text (100, 42) _ eq_refl)
              eq_refl Hcontent)
    as (name & Hname & Hsent & _).
  specialize (Hname initial). rewrite sample_name in Hname. injection Hname as <-.
  rewrite (proj1 (Hsent _ eq_refl)). reflexivity.
Defined.

(** Ann's recall takes message 42 out of the cache and leaves message 41. *)
Lemma recall_consumes_its_entry_sample :
  _in_whitelist Sample.config (GroupRecallNoticeEvent.group_id Sample.self_recall) = true
  /\ keys (_message_cache
             (snd (group_recall no_repr Sample.config Sample.Message_of Sample.bot
                     Sample.self_recall Sample.cached_voice)))
     = [(100, 41)].
Proof.
  split; [exact sample_group_whitelisted|].
  destruct (recall_consumes_its_entry no_repr Sample.config Sample.Message_of Sample.bot
              Sample.self_recall Sample.cached_voice sample_group_whitelisted eq_refl)
    as (-> & _).
  reflexivity.
Defined.

(** Ann's message is recalled twice; the second notice has no content. *)
Lemma recalled_twice_sample :
  NoDup (keys (_message_cache Sample.cached_voice))
  /\ get_msg Sample.bot (GroupRecallNoticeEvent.message_id Sample.self_recall) = Failed
  /\ sent (snd (group_recall no_repr Sample.config Sample.Message_of Sample.bot
                  Sample.self_recall
                  (snd (group_recall no_repr Sample.config Sample.Message_of Sample.bot
                          Sample.self_recall Sample.cached_voice))))
     = [(100, Plain "Ann撤回了一条语音");
        (100, Segments [Sample.record "a.amr"]);
        (100, Segments [Sample.record "c.amr"]);
        (100, Plain "Ann撤回了一条消息：[内容未捕获]")].
Proof.
  split; [exact sample_keys_distinct|]. split; [reflexivity|].
  destruct (recalled_twice no_repr Sample.config Sample.Message_of Sample.bot
              Sample.self_recall Sample.cached_voice sample_group_whitelisted eq_refl
              sample_keys_distinct eq_refl)
    as (name & Hname & Hrun & _).
  rewrite Hrun. specialize (Hname initial). rewrite sample_name in Hname.
  injection Hname as <-. reflexivity.
Defined.


(** A list with an item in full-width digits parses whole; a list with
    an item that is no number raises for that item. *)
Lemma list_setting_all_or_nothing_sample :
  _parse_recall_group_whitelist (PyList [PyStr "１"; PyInt 2]) = Ok (list_to_set [1; 2])
  /\ _parse_recall_group_whitelist (PyList [PyInt 1; PyStr "x"; PyNone]) = Raise ValueError.
Proof.
  split.
  - apply (proj1 (list_setting_all_or_nothing [PyStr "１"; PyInt 2])).
    exists [1; 2]. split; [|reflexivity]. repeat constructor.
  - apply (proj1 (proj2 (list_setting_all_or_nothing [PyInt 1; PyStr "x"; PyNone]))).
    exists [PyInt 1], (PyStr "x"), [PyNone]. split; [reflexivity|].
    split; [|reflexivity]. constructor; [now exists 1 | constructor].
Defined.

Lemma sample_setting_loaded :
  load_recall_group_whitelist (Some (PyList [PyInt 100; PyStr "２００"]))
  = Ok (recall_group_whitelist Sample.config).
Proof. vm_compute. reflexivity. Defined.

(** The list [100, "２００"] as setting, its second item in full-width
    digits: group 200 passes the gate. *)
Lemma gate_follows_list_setting_sample :
  load_recall_group_whitelist (Some (PyList [PyInt 100; PyStr "２００"]))
  = Ok (recall_group_whitelist Sample.config)
  /\ (_in_whitelist Sample.config 200 = true
      <-> exists item, item ∈ [PyInt 100; PyStr "２００"] /\ Py.int item = Ok 200).
Proof.
  split; [exact sample_setting_loaded|].
  apply (gate_follows_list_setting [PyInt 100; PyStr "２００"] Sample.config 200
           sample_setting_loaded).
Defined.

(** The text of 100, -5 and 0 with commas. *)
Lemma comma_text_round_trip_sample :
  [100; -5; 0] <> []
  /\ comma_separated [100; -5; 0] = "100,-5,0"
  /\ _parse_recall_group_whitelist (PyStr "100,-5,0") = Ok (list_to_set [100; -5; 0]).
Proof.
  assert ([100; -5; 0] <> []) as Hne by discriminate.
  split; [exact Hne|]. split; [reflexivity|].
  apply (comma_text_round_trip [100; -5; 0] Hne).
Defined.
